(** * NPS webcam animation generator: scheduling, queue and image selection

    A shallow embedding of the TypeScript worker code of the repository
    (logic/image.ts, logic/animations.ts, tasks/animationCreation.ts,
    tasks/animationFinalization.ts, db/repositories/animation-queue-repository.ts,
    logic/retention-policy.ts) together with the properties the
    specification states about it.

    Conventions of the embedding:
    - a JavaScript string is a [string] (a list of 8-bit characters);
    - an integral JavaScript number is a [Z]; where the scheduler divides
      or multiplies by 0.25 the number is a [Q], computed exactly (the
      doubles of the program are exact on the quarter-millisecond values it
      handles), and NaN is the [None] of [option Q];
    - the timestamp [parseInt] reads from an image key is a double that is
      a natural number, or Infinity ([Double.t]); the time span, the
      interval, the targets and the differences of the desampler are
      computed in IEEE 754 doubles, the primitive floats of the standard
      library;
    - [null] and [undefined] are [None];
    - a [Date], and the ISO-8601 string of one, is the [Z] of its
      milliseconds since the epoch;
    - a database table is the list of its rows, in insertion order;
    - what comes from outside the repository (luxon, [Intl], SunCalc) is a
      member of the class [Environment]. *)

From Stdlib Require Import String Ascii ZArith List Bool Lia.
From Stdlib Require Import DecimalString DecimalPos QArith Qround Qabs Lqa.
From Stdlib Require Import Sorting.Sorted Sorting.Permutation.
From Stdlib Require Floats.
Import ListNotations.

Open Scope string_scope.
Open Scope Z_scope.

(* ================================================================== *)
(** * Strings *)
(* ================================================================== *)

Module Str.

(** Number-to-string conversion of a template literal, for integers. *)
Definition ofZ (z : Z) : string := NilZero.string_of_int (Z.to_int z).

Definition isDigit (c : ascii) : bool :=
  ((48 <=? nat_of_ascii c) && (nat_of_ascii c <=? 57))%nat.

(** The character class [[a-zA-Z]]. *)
Definition isLetter (c : ascii) : bool :=
  (((97 <=? nat_of_ascii c) && (nat_of_ascii c <=? 122)) ||
   ((65 <=? nat_of_ascii c) && (nat_of_ascii c <=? 90)))%nat.

Definition digitValue (c : ascii) : Z := Z.of_nat (nat_of_ascii c) - 48.

Fixpoint all (p : ascii -> bool) (s : string) : bool :=
  match s with
  | EmptyString => true
  | String c r => p c && all p r
  end.

Definition isEmpty (s : string) : bool :=
  match s with EmptyString => true | _ => false end.

(** [String.prototype.split] on a one-character separator: the pieces
    between the separators, of which there is always at least one. *)
Fixpoint split (sep : ascii) (s : string) : list string :=
  match s with
  | EmptyString => [EmptyString]
  | String c r =>
      if Ascii.eqb c sep then EmptyString :: split sep r
      else match split sep r with
           | [] => [String c EmptyString]
           | p :: ps => String c p :: ps
           end
  end.

(** The longest prefix of characters satisfying [p], and the rest. *)
Fixpoint span (p : ascii -> bool) (s : string) : string * string :=
  match s with
  | EmptyString => (EmptyString, EmptyString)
  | String c r =>
      if p c then let (a, b) := span p r in (String c a, b)
      else (EmptyString, s)
  end.

(** The natural number a run of decimal digits stands for. *)
Definition digitsValue (s : string) : Z :=
  fold_left (fun acc c => 10 * acc + digitValue c) (list_ascii_of_string s) 0.

End Str.

(* ================================================================== *)
(** * JavaScript numbers: the doubles of timestamps *)
(* ================================================================== *)

Module Double.

(** A JavaScript number is an IEEE 754 double.  What [parseInt] returns for
    a run of decimal digits is a double that is a natural number, or
    Infinity; such a double is kept by its value. *)
Inductive t := Finite (value : Z) | Infinity.

(** The double nearest to the natural number [n], ties to the even
    significand.  Below 2^53 every natural number is a double.  From there
    on a double has 53 significant bits: [q] is the number of the 53 leading
    bits of [n] and [r] what the bits after them, [e] of them, add to it;
    [q] goes up by one when [r] is more than half of 2^e, or is the half and
    [q] is odd.  The result is Infinity when it reaches 2^1024. *)
Definition round (n : Z) : t :=
  if n <? 2 ^ 53 then Finite n
  else
    let e := Z.log2 n - 52 in
    let q := n / 2 ^ e in
    let r := n mod 2 ^ e in
    let half := 2 ^ (e - 1) in
    let m :=
      if r <? half then q
      else if half <? r then q + 1
      else if Z.even q then q else q + 1 in
    if 2 ^ 1024 <=? m * 2 ^ e then Infinity else Finite (m * 2 ^ e).

(** [a <= b]. *)
Definition leb (a b : t) : bool :=
  match a, b with
  | Finite x, Finite y => x <=? y
  | _, Infinity => true
  | Infinity, Finite _ => false
  end.

Definition le (a b : t) : Prop := leb a b = true.

(** The double of an integer, and of a timestamp, among the primitive
    floats. *)
Definition ofZ (z : Z) : PrimFloat.float :=
  FloatOps.SF2Prim (SpecFloat.binary_normalize FloatOps.prec FloatOps.emax z 0 false).

Definition toFloat (x : t) : PrimFloat.float :=
  match x with
  | Finite z => ofZ z
  | Infinity => PrimFloat.infinity
  end.

End Double.

(** [parseInt(s, 10)] on a run of decimal digits: the double nearest to the
    number of the digits (V8 reads every digit; ECMAScript also lets an
    implementation take the digits after the 20th for zeros, which changes
    nothing for a number below 10^20). *)
Definition parseInt (s : string) : Double.t := Double.round (Str.digitsValue s).

(* ================================================================== *)
(** * logic/image.ts *)
(* ================================================================== *)

(** [filename.match(/^(\d+)\.[a-zA-Z]+$/)]: the first capture group when the
    whole file name is a run of digits, a dot and a run of letters.  The
    greedy [\d+] never has to give a character back, since the next
    character of the pattern is not a digit. *)
Definition timestampMatch (filename : string) : option string :=
  let (digits, rest) := Str.span Str.isDigit filename in
  match rest with
  | String "."%char ext =>
      if negb (Str.isEmpty digits) && negb (Str.isEmpty ext)
         && Str.all Str.isLetter ext
      then Some digits else None
  | _ => None
  end.

Definition extractTimestampFromImageKey (imageKey : string) : option Double.t :=
  let parts := Str.split "/"%char imageKey in
  let filename := last parts EmptyString in
  match timestampMatch filename with
  | Some digits =>
      if Str.isEmpty digits then None           (* a falsy capture *)
      else Some (parseInt digits)               (* parseInt is never NaN here *)
  | None => None
  end.

(* ================================================================== *)
(** * logic/animations.ts *)
(* ================================================================== *)

(** The job types: the keys of the [minimums] table of [hasMinimumImages]
    (the union type [AnimationType] of types/index.ts lists the first four). *)
Inductive AnimationType :=
  | hourly | sunrise | sunset | full_day | on_demand.

Definition AnimationType_eqb (a b : AnimationType) : bool :=
  match a, b with
  | hourly, hourly | sunrise, sunrise | sunset, sunset
  | full_day, full_day | on_demand, on_demand => true
  | _, _ => false
  end.

(** The string of a job type, as a template literal prints it. *)
Definition typeName (t : AnimationType) : string :=
  match t with
  | hourly => "hourly"
  | sunrise => "sunrise"
  | sunset => "sunset"
  | full_day => "full_day"
  | on_demand => "on_demand"
  end.

Definition minimums (t : AnimationType) : Z :=
  match t with
  | hourly => 5
  | sunrise => 3
  | sunset => 3
  | full_day => 10
  | on_demand => 3
  end.

Definition hasMinimumImages (animationType : AnimationType) (imageCount : Z) : bool :=
  imageCount >=? minimums animationType.

(** [hourStr] is an optional parameter: when the caller leaves it out the
    template literal prints [undefined]. *)
Definition generateAnimationStorageKey
    (nationalPark webcamName : string) (animationType : AnimationType)
    (dateStamp : string) (hourStr : option string) : string :=
  if AnimationType_eqb animationType hourly then
    "gifs/" ++ nationalPark ++ "/" ++ webcamName ++ "/" ++ typeName animationType
      ++ "/" ++ dateStamp ++ "_"
      ++ match hourStr with Some h => h | None => "undefined" end ++ ".mp4"
  else
    "gifs/" ++ nationalPark ++ "/" ++ webcamName ++ "/" ++ typeName animationType
      ++ "/" ++ dateStamp ++ ".mp4".

(** An element of [imagesWithTimestamps]. *)
Record StampedKey := { timestamp : Double.t; key : string }.

(** The loop that fills [imagesWithTimestamps]: the keys whose timestamp
    parses, in source order. *)
Fixpoint parseKeys (sourceImages : list string) : list StampedKey :=
  match sourceImages with
  | [] => []
  | imageKey :: rest =>
      match extractTimestampFromImageKey imageKey with
      | Some t => {| timestamp := t; key := imageKey |} :: parseKeys rest
      | None => parseKeys rest
      end
  end.

(** [imagesWithTimestamps.sort((a, b) => a.timestamp - b.timestamp)].  The
    difference of two doubles is negative, zero or positive as the first is
    below, equal to or above the second (the difference of two distinct
    doubles is never rounded to zero); Infinity - Infinity is NaN, which
    [sort] takes for 0.  [Array.prototype.sort] is stable, so it is the
    stable sort by timestamp; here as an insertion sort. *)
Fixpoint insertByTimestamp (x : StampedKey) (l : list StampedKey) : list StampedKey :=
  match l with
  | [] => [x]
  | y :: r =>
      if Double.leb (timestamp x) (timestamp y) then x :: l
      else y :: insertByTimestamp x r
  end.

Definition sortByTimestamp (l : list StampedKey) : list StampedKey :=
  fold_right insertByTimestamp [] l.

(** [Array.prototype.includes] on strings. *)
Definition includes (l : list string) (k : string) : bool :=
  existsb (String.eqb k) l.

Definition Qltb (a b : Q) : bool := negb (Qle_bool b a).

(** [lastTimestamp - firstTimestamp], in doubles. *)
Definition timeSpanOf (firstImage lastImage : StampedKey) : PrimFloat.float :=
  PrimFloat.sub (Double.toFloat (timestamp lastImage))
    (Double.toFloat (timestamp firstImage)).

(** [Math.abs(img.timestamp - targetTimestamp)], in doubles. *)
Definition difference (img : StampedKey) (targetTimestamp : PrimFloat.float)
    : PrimFloat.float :=
  PrimFloat.abs (PrimFloat.sub (Double.toFloat (timestamp img)) targetTimestamp).

(** The inner loop: the image closest to the target, the earliest one in
    scan order among equally close ones ([<] on doubles: false when a
    difference is NaN). *)
Definition closestStep (targetTimestamp : PrimFloat.float)
    (acc : StampedKey * PrimFloat.float) (img : StampedKey)
    : StampedKey * PrimFloat.float :=
  let (closestImage, minDifference) := acc in
  if PrimFloat.ltb (difference img targetTimestamp) minDifference
  then (img, difference img targetTimestamp)
  else (closestImage, minDifference).

Definition closestImage (imagesWithTimestamps : list StampedKey)
    (first : StampedKey) (targetTimestamp : PrimFloat.float) : StampedKey :=
  fst (fold_left (closestStep targetTimestamp) imagesWithTimestamps
         (first, difference first targetTimestamp)).

(** [firstTimestamp + (interval * i)], in doubles. *)
Definition targetTimestamp (firstTimestamp : Double.t) (interval : PrimFloat.float)
    (i : Z) : PrimFloat.float :=
  PrimFloat.add (Double.toFloat firstTimestamp)
    (PrimFloat.mul interval (Double.ofZ i)).

(** The outer loop [for (let i = 1; i < totalImages - 1; i++)], with
    [count] iterations left and [i] the current slot. *)
Fixpoint selectAtIntervals (imagesWithTimestamps : list StampedKey)
    (first : StampedKey) (interval : PrimFloat.float)
    (count : nat) (i : Z) (selectedImages : list string) : list string :=
  match count with
  | O => selectedImages
  | S n =>
      let closest :=
        closestImage imagesWithTimestamps first
          (targetTimestamp (timestamp first) interval i) in
      selectAtIntervals imagesWithTimestamps first interval n (i + 1)
        (if includes selectedImages (key closest) then selectedImages
         else selectedImages ++ [key closest])
  end.

Definition desampleImageKeys (sourceImages : list string) (totalImages : Z)
    : list string :=
  if (length sourceImages =? 0)%nat || (totalImages <=? 0) then []
  else if Z.of_nat (length sourceImages) <=? totalImages then sourceImages
  else
    let parsed := parseKeys sourceImages in
    if (length parsed =? 0)%nat then []
    else
      let imagesWithTimestamps := sortByTimestamp parsed in
      match imagesWithTimestamps with
      | [] => []
      | firstImage :: _ =>
          if Z.of_nat (length imagesWithTimestamps) <=? totalImages
          then map key imagesWithTimestamps
          else
            let lastImage := last imagesWithTimestamps firstImage in
            let timeSpan := timeSpanOf firstImage lastImage in
            if PrimFloat.eqb timeSpan PrimFloat.zero
            then map key (firstn (Z.to_nat totalImages) imagesWithTimestamps)
            else if totalImages =? 1 then [key firstImage]
            else if totalImages =? 2 then [key firstImage; key lastImage]
            else
              let interval :=
                PrimFloat.div timeSpan (Double.ofZ (totalImages - 1)) in
              let selectedImages :=
                selectAtIntervals imagesWithTimestamps firstImage interval
                  (Z.to_nat (totalImages - 2)) 1 [key firstImage] in
              if includes selectedImages (key lastImage) then selectedImages
              else selectedImages ++ [key lastImage]
      end.

(* ------------------------------------------------------------------ *)
(** ** The words of the specification about image keys *)

(** [seg] is the final '/'-separated segment of [imageKey]. *)
Definition finalSegment (imageKey seg : string) : Prop :=
  Str.all (fun c => negb (Ascii.eqb c "/")) seg = true /\
  (imageKey = seg \/ exists pre, imageKey = pre ++ "/" ++ seg).

(** [seg] consists of one or more decimal digits, a single '.', and one or
    more ASCII letters. *)
Definition timestampFileName (seg digits ext : string) : Prop :=
  seg = digits ++ "." ++ ext /\
  digits <> "" /\ Str.all Str.isDigit digits = true /\
  ext <> "" /\ Str.all Str.isLetter ext = true.

(** The decimal integer a digit string encodes, by positional weight. *)
Fixpoint decimalValue (digits : string) : Z :=
  match digits with
  | EmptyString => 0
  | String c r =>
      Str.digitValue c * 10 ^ Z.of_nat (String.length r) + decimalValue r
  end.

(** The key encodes the timestamp [n]: its final segment is a timestamp
    file name, and [n] the decimal integer of its digits. *)
Definition encodes (imageKey : string) (n : Z) : Prop :=
  exists seg digits ext,
    finalSegment imageKey seg /\ timestampFileName seg digits ext /\
    n = decimalValue digits.

(* ------------------------------------------------------------------ *)
(** ** The words of the specification about desampling *)

(** The key has a parseable timestamp. *)
Definition parseable (imageKey : string) : bool :=
  match extractTimestampFromImageKey imageKey with
  | Some _ => true
  | None => false
  end.




(** The image carries the timestamp the code reads from its key. *)
Definition wellStamped (s : StampedKey) : Prop :=
  extractTimestampFromImageKey (key s) = Some (timestamp s).

Definition byTimestamp (a b : StampedKey) : Prop :=
  Double.le (timestamp a) (timestamp b).



(** The parseable keys in the order the desampler sorts them into. *)
Definition sortedKeys (sourceKeys : list string) : list string :=
  map key (sortByTimestamp (parseKeys sourceKeys)).

(** The time span of the source as the desampler computes it: the timestamp
    of the last of the sorted parseable keys less the timestamp of the first
    one, in doubles. *)
Definition timeSpan (sourceKeys : list string) : PrimFloat.float :=
  match sortByTimestamp (parseKeys sourceKeys) with
  | [] => PrimFloat.zero
  | (firstImage :: _) as imagesWithTimestamps =>
      timeSpanOf firstImage (last imagesWithTimestamps firstImage)
  end.


(** The last statements of [desampleImageKeys], after the loop. *)
Definition appendLast (selectedImages : list string) (lastImage : string)
    : list string :=
  if includes selectedImages lastImage then selectedImages
  else (selectedImages ++ [lastImage])%list.

(* ================================================================== *)
(** * types/index.ts and db/schema.ts *)
(* ================================================================== *)

(** A [Date], and an ISO-8601 string made from one, is the [Z] of its
    milliseconds since the epoch; comparing two such strings is comparing
    the instants. *)
Definition Instant := Z.

Inductive AnimationStatus :=
  | waiting_for_images | pending | processing | completed | failed.

Definition statusName (s : AnimationStatus) : string :=
  match s with
  | waiting_for_images => "waiting_for_images"
  | pending => "pending"
  | processing => "processing"
  | completed => "completed"
  | failed => "failed"
  end.

Definition AnimationStatus_eqb (a b : AnimationStatus) : bool :=
  match a, b with
  | waiting_for_images, waiting_for_images | pending, pending
  | processing, processing | completed, completed | failed, failed => true
  | _, _ => false
  end.

(** A row of the table [webcams] (the columns the tasks read). *)
Module Webcam.
Record WebcamDto := {
  id : Z;
  name : string;
  enabled : bool;
  latLon : option string;
  nationalPark : option string;
  timezone : option string
}.
End Webcam.
Abbreviation WebcamDto := Webcam.WebcamDto.

(** A row of the table [images]; [retentionPolicy] is the tag list the
    retention policies read and write. *)
Module Image.
Record Image := {
  id : Z;
  webcamId : Z;
  timeStamp : Z;
  objectName : string;
  retentionPolicy : option (list string)
}.
End Image.
Abbreviation Image := Image.Image.

(** [AnimationQueueEntry], what the scheduler builds. *)
Module Entry.
Record AnimationQueueEntry := {
  id : Z;
  webcam_id : Z;
  reference_id : string;
  gif_type : AnimationType;
  scheduled_time : Instant;
  date_key : string;
  image_list : list string;
  status : AnimationStatus;
  created_at : Instant;
  processed_at : option Instant;
  error_message : option string;
  start_time : Z;
  end_time : Z;
  gif_storage_key : option string
}.
End Entry.
Abbreviation AnimationQueueEntry := Entry.AnimationQueueEntry.

(** A row of the table [gif_creation_queue]. *)
Module Row.
Record GifCreationQueue := {
  id : Z;
  webcamId : Z;
  referenceId : string;
  gifType : AnimationType;
  scheduledTime : Instant;
  imageList : list string;
  status : AnimationStatus;
  createdAt : Instant;
  processedAt : option Instant;
  errorMessage : option string;
  startTime : Z;
  endTime : Z;
  gifStorageKey : option string;
  dateKey : string
}.
End Row.
Abbreviation GifCreationQueue := Row.GifCreationQueue.

(** What a call that may throw comes back with. *)
Inductive Attempt (A : Type) :=
  | Returned (value : A)
  | Thrown (message : string).
Arguments Returned {A} value.
Arguments Thrown {A} message.

(** [ORDER BY] an integer column, ascending: a stable insertion sort. *)
Fixpoint insertOn {A} (f : A -> Z) (x : A) (l : list A) : list A :=
  match l with
  | [] => [x]
  | y :: r => if f x <=? f y then x :: l else y :: insertOn f x r
  end.

Definition orderBy {A} (f : A -> Z) (l : list A) : list A :=
  fold_right (insertOn f) [] l.

(** [errorMessage || null]. *)
Definition orNull (message : option string) : option string :=
  match message with
  | Some EmptyString => None
  | m => m
  end.

(* ================================================================== *)
(** * db/repositories/webcam-repository.ts and image-repository.ts *)
(* ================================================================== *)

(** [getWebcamById]: [select ... where id = webcamId limit 1]. *)
Definition getWebcamById (webcams : list WebcamDto) (webcamId : Z)
    : option WebcamDto :=
  find (fun w => Webcam.id w =? webcamId) webcams.

(** [ImageRepository.getImagesForTimeRange]: the images of the webcam with
    a timestamp in the range, oldest first. *)
Definition imagesForTimeRange (images : list Image)
    (webcam : WebcamDto) (startTime endTime : Z) : list Image :=
  orderBy Image.timeStamp
    (filter (fun i => (Image.webcamId i =? Webcam.id webcam)
                      && (startTime <=? Image.timeStamp i)
                      && (Image.timeStamp i <=? endTime)) images).

(* ================================================================== *)
(** * db/repositories/animation-queue-repository.ts *)
(* ================================================================== *)

(** The table, as the list of its rows. *)
Definition Queue := list GifCreationQueue.

(** The next value of the [AUTOINCREMENT] primary key: larger than every id
    in the table. *)
Definition nextId (queue : Queue) : Z :=
  1 + fold_right Z.max 0 (map Row.id queue).

(** [toInsert], with the id the database gives the new row. *)
Definition toInsert (newId : Z) (x : AnimationQueueEntry) : GifCreationQueue :=
  {| Row.id := newId;
     Row.webcamId := Entry.webcam_id x;
     Row.referenceId := Entry.reference_id x;
     Row.gifType := Entry.gif_type x;
     Row.scheduledTime := Entry.scheduled_time x;
     Row.imageList := Entry.image_list x;
     Row.status := Entry.status x;
     Row.createdAt := Entry.created_at x;
     Row.processedAt := Entry.processed_at x;
     Row.errorMessage := Entry.error_message x;
     Row.startTime := Entry.start_time x;
     Row.endTime := Entry.end_time x;
     Row.gifStorageKey := Entry.gif_storage_key x;
     Row.dateKey := Entry.date_key x |}.

(** [db.insert(gifCreationQueue).values(animation)]: the table has no
    uniqueness constraint besides the primary key ([idx_gif_queue_reference]
    is a plain index), so the insert adds a row whatever the table holds. *)
Definition insertRow (queue : Queue) (animation : AnimationQueueEntry) : Queue :=
  (queue ++ [toInsert (nextId queue) animation])%list.

(** [addAnimationsToQueue]: one insert per animation; [true] when none of
    them threw. *)
Definition addAnimationsToQueue (animations : list AnimationQueueEntry)
    (queue : Queue) : bool * Queue :=
  (true, fold_left insertRow animations queue).

(** [getWaitingAnimations(currentTime)]. *)
Definition isWaiting (currentTime : Instant) (r : GifCreationQueue) : bool :=
  AnimationStatus_eqb (Row.status r) waiting_for_images
  && (Row.scheduledTime r <=? currentTime).

Definition getWaitingAnimations (currentTime : Instant) (queue : Queue)
    : list GifCreationQueue :=
  orderBy Row.scheduledTime (filter (isWaiting currentTime) queue).

(** [getPendingAnimations]: the ten pending rows scheduled first. *)
Definition getPendingAnimations (queue : Queue) : list GifCreationQueue :=
  firstn 10
    (orderBy Row.scheduledTime
       (filter (fun r => AnimationStatus_eqb (Row.status r) pending) queue)).

Definition processedAtFor (clock : Instant) (status : AnimationStatus)
    : option Instant :=
  if AnimationStatus_eqb status completed || AnimationStatus_eqb status failed
  then Some clock else None.

(** The [set] of [updateAnimationWithImages]. *)
Definition setImages (clock : Instant) (status : AnimationStatus)
    (imageKeys : list string) (errorMessage : option string)
    (r : GifCreationQueue) : GifCreationQueue :=
  {| Row.id := Row.id r;
     Row.webcamId := Row.webcamId r;
     Row.referenceId := Row.referenceId r;
     Row.gifType := Row.gifType r;
     Row.scheduledTime := Row.scheduledTime r;
     Row.imageList := imageKeys;
     Row.status := status;
     Row.createdAt := Row.createdAt r;
     Row.processedAt := processedAtFor clock status;
     Row.errorMessage := orNull errorMessage;
     Row.startTime := Row.startTime r;
     Row.endTime := Row.endTime r;
     Row.gifStorageKey := Row.gifStorageKey r;
     Row.dateKey := Row.dateKey r |}.

(** [update ... set ... where id = id]; [clock] is the [new Date()] of the
    call. *)
Definition updateWhereId (id : Z) (set : GifCreationQueue -> GifCreationQueue)
    (queue : Queue) : Queue :=
  map (fun r => if Row.id r =? id then set r else r) queue.

Definition updateAnimationWithImages (clock : Instant) (id : Z)
    (status : AnimationStatus) (imageKeys : list string)
    (errorMessage : option string) (queue : Queue) : Queue :=
  updateWhereId id (setImages clock status imageKeys errorMessage) queue.

(** The [set] of [markAnimationCompleted]. *)
Definition setCompleted (processedAt : Instant) (r : GifCreationQueue)
    : GifCreationQueue :=
  {| Row.id := Row.id r;
     Row.webcamId := Row.webcamId r;
     Row.referenceId := Row.referenceId r;
     Row.gifType := Row.gifType r;
     Row.scheduledTime := Row.scheduledTime r;
     Row.imageList := Row.imageList r;
     Row.status := completed;
     Row.createdAt := Row.createdAt r;
     Row.processedAt := Some processedAt;
     Row.errorMessage := Row.errorMessage r;
     Row.startTime := Row.startTime r;
     Row.endTime := Row.endTime r;
     Row.gifStorageKey := Row.gifStorageKey r;
     Row.dateKey := Row.dateKey r |}.

(** The object [markAnimationCompleted] resolves to. *)
Record CompletionResult := {
  success : bool;
  message : string;
  queue_entry_id : option Z;
  resultStatus : option string      (* the field [status] *)
}.

Definition markAnimationCompleted (clock : Instant) (id : Z) (queue : Queue)
    : CompletionResult * Queue :=
  match find (fun r => Row.id r =? id) queue with
  | None =>
      ({| success := false;
          message := "Animation queue entry with ID " ++ Str.ofZ id ++ " not found";
          queue_entry_id := None; resultStatus := None |},
       queue)
  | Some entry =>
      if negb (AnimationStatus_eqb (Row.status entry) pending) then
        ({| success := false;
            message := "Animation is not in pending status. Current status: "
                       ++ statusName (Row.status entry);
            queue_entry_id := None; resultStatus := None |},
         queue)
      else
        ({| success := true;
            message := "Animation marked as completed successfully";
            queue_entry_id := Some id; resultStatus := Some "completed" |},
         updateWhereId id (setCompleted clock) queue)
  end.

(** [deleteAnimation]. *)
Definition deleteAnimation (id : Z) (queue : Queue) : Queue :=
  filter (fun r => negb (Row.id r =? id)) queue.

(* ================================================================== *)
(** * tasks/animationFinalization.ts *)
(* ================================================================== *)

Section Finalization.

(** The webcams table, the image query of the repository interface
    (which may throw), and the wall clock of the updates. *)
Variable webcams : list WebcamDto.
Variable getImagesForTimeRange : WebcamDto -> Z -> Z -> Attempt (list Image).
Variable clock : Instant.

(** The [switch] on the job type: only [full_day] leaves it through a
    [break]; [hourly] falls through the remaining cases to [default]. *)
Definition totalImagesFor (gifType : AnimationType) (imageKeys : list string) : Z :=
  let len := Z.of_nat (List.length imageKeys) in
  match gifType with
  | full_day => Z.min (10 * 15) len
  | hourly => let totalImages := Z.min (4 * 15) len in len
  | sunrise | sunset | on_demand => len
  end.

Definition insufficientImages (selected raw : Z) (gifType : AnimationType) : string :=
  "Insufficient images: found " ++ Str.ofZ selected ++ " after desampling from "
  ++ Str.ofZ raw ++ ", required minimum for " ++ typeName gifType.

(** The body of the [try] block for one animation. *)
Definition tryProcess (animation : GifCreationQueue) (queue : Queue)
    : Attempt Queue :=
  match getWebcamById webcams (Row.webcamId animation) with
  | None =>
      Returned (updateAnimationWithImages clock (Row.id animation) failed []
                  (Some "Webcam not found") queue)
  | Some webcam =>
      if (Row.startTime animation =? 0) || (Row.endTime animation =? 0)
      then Thrown "start or end time not defined"
      else
        match getImagesForTimeRange webcam (Row.startTime animation)
                (Row.endTime animation) with
        | Thrown e => Thrown e
        | Returned images =>
            let imageKeys := map Image.objectName images in
            let totalImages := totalImagesFor (Row.gifType animation) imageKeys in
            let selectedImageKeys := desampleImageKeys imageKeys totalImages in
            if hasMinimumImages (Row.gifType animation)
                 (Z.of_nat (List.length selectedImageKeys))
            then Returned (updateAnimationWithImages clock (Row.id animation)
                             pending selectedImageKeys None queue)
            else Returned (updateAnimationWithImages clock (Row.id animation)
                             failed []
                             (Some (insufficientImages
                                      (Z.of_nat (List.length selectedImageKeys))
                                      (Z.of_nat (List.length imageKeys))
                                      (Row.gifType animation)))
                             queue)
        end
  end.

(** One turn of the loop: the [try] block and its [catch]. *)
Definition processAnimation (queue : Queue) (animation : GifCreationQueue) : Queue :=
  match tryProcess animation queue with
  | Returned queue' => queue'
  | Thrown errorMessage =>
      updateAnimationWithImages clock (Row.id animation) failed []
        (Some ("Processing error: " ++ errorMessage)) queue
  end.

Definition prepareAnimationsForPendingQueue (queue : Queue) (now : Instant) : Queue :=
  let animations := getWaitingAnimations now queue in
  fold_left processAnimation animations queue.

End Finalization.

(** The row [r] after the turn of the loop that processes it, run on a
    table that holds this row alone. *)
Definition processedAlone (webcams : list WebcamDto)
    (getImagesForTimeRange : WebcamDto -> Z -> Z -> Attempt (list Image))
    (clock : Instant) (r : GifCreationQueue) : GifCreationQueue :=
  hd r (processAnimation webcams getImagesForTimeRange clock [r] r).

(** What a batch of updates by id makes of a row: the update of the batch
    member with the id of the row, if there is one. *)
Definition applyBatch (process : Queue -> GifCreationQueue -> Queue)
    (batch : list GifCreationQueue) (r : GifCreationQueue) : GifCreationQueue :=
  match find (fun a => Row.id a =? Row.id r) batch with
  | Some a => hd r (process [r] a)
  | None => r
  end.

(* ================================================================== *)
(** * JavaScript numbers that may be NaN *)
(* ================================================================== *)

Module Num.

Definition number := option Q.
Definition NaN : number := None.
Definition ofZ (z : Z) : number := Some (inject_Z z).
Definition isNaN (x : number) : bool :=
  match x with None => true | Some _ => false end.

Definition lift2 (f : Q -> Q -> Q) (a b : number) : number :=
  match a, b with
  | Some x, Some y => Some (f x y)
  | _, _ => None
  end.

Definition add := lift2 Qplus.
Definition sub := lift2 Qminus.
Definition mul := lift2 Qmult.

(** The time value of [new Date(x)] for a finite [x]: [x] without its
    fraction. *)
Definition truncate (x : Q) : Z :=
  if Qle_bool 0 x then Qfloor x else Qceiling x.

(** [Math.floor(x / 1000)]. *)
Definition floorSeconds (x : Q) : Z := Qfloor (x / 1000).

End Num.

Abbreviation number := Num.number.

(* ================================================================== *)
(** * logic/solar-calculations.ts *)
(* ================================================================== *)

Module Solar.
Record SolarTimes := {
  sunrise : number;
  sunset : number;
  firstLight : number;
  lastLight : number;
  dayLength : number
}.
End Solar.
Abbreviation SolarTimes := Solar.SolarTimes.

(** What the tasks take from outside the repository: the formatting of an
    instant in an IANA time zone (luxon and [Intl]), the parsing of the
    anchor of a day, and the solar times of a "lat,lon" string at an
    instant ([parseLatLon], the range check and SunCalc's [getTimes]: [None]
    when one of them throws). *)
Class Environment := {
  (** [DateTime.fromSeconds(s).setZone(zone).toFormat('yyyyMMdd')] *)
  zoneDate : Z -> string -> string;
  (** [DateTime.fromSeconds(s).setZone(zone).toLocaleString({hour: '2-digit', hour12: false})] *)
  zoneHour : Z -> string -> string;
  (** [getLocalDateKeyFromISOString(date.toISOString(), timezone)] *)
  getLocalDateKey : Instant -> string -> string;
  (** [DateTime.fromFormat(dateString + ' 03:00:00', 'yyyy-MM-dd HH:mm:ss').toUnixInteger() * 1000] *)
  anchorOfDay : string -> number;
  (** [calculateSolarTimes(...parseLatLon(latLon), timestamp)] *)
  solarTimesAt : string -> number -> option SolarTimes
}.

(** A string that is neither [null] nor empty. *)
Definition truthy (s : option string) : bool :=
  match s with
  | None | Some EmptyString => false
  | Some _ => true
  end.

(** [s || fallback]. *)
Definition orElse (s : option string) (fallback : string) : string :=
  match s with
  | None | Some EmptyString => fallback
  | Some v => v
  end.

Definition calculateWebcamSolarTimes `{Environment}
    (latLonString : option string) (timestamp : number) : option SolarTimes :=
  match latLonString with
  | None | Some EmptyString => None
  | Some latLon => solarTimesAt latLon timestamp
  end.

(* ================================================================== *)
(** * tasks/animationCreation.ts *)
(* ================================================================== *)

Section Scheduler.

Context `{Environment}.

(** The reading of the wall clock ([new Date()]) during the run. *)
Variable clock : Instant.

Definition createAnimationEntry (webcam : WebcamDto)
    (animationType : AnimationType) (scheduledTime : Instant)
    (startTime endTime : Z) : AnimationQueueEntry :=
  let zone := match Webcam.timezone webcam with Some z => z | None => "" end in
  let dateStr := zoneDate startTime zone in
  let hourStr := zoneHour startTime zone in
  let referenceId :=
    if AnimationType_eqb animationType hourly
    then Str.ofZ (Webcam.id webcam) ++ "_" ++ typeName animationType
         ++ "_" ++ dateStr ++ "_" ++ hourStr
    else Str.ofZ (Webcam.id webcam) ++ "_" ++ typeName animationType
         ++ "_" ++ dateStr in
  (* the fourth argument is [scheduledTime.getTime()]; no fifth one *)
  let storageKey :=
    generateAnimationStorageKey
      (orElse (Webcam.nationalPark webcam) "unknown") (Webcam.name webcam)
      animationType (Str.ofZ scheduledTime) None in
  let dateKey :=
    getLocalDateKey scheduledTime
      (orElse (Webcam.timezone webcam) "America/Denver") in
  {| Entry.id := 0;
     Entry.webcam_id := Webcam.id webcam;
     Entry.reference_id := referenceId;
     Entry.gif_type := animationType;
     Entry.scheduled_time := scheduledTime;
     Entry.date_key := dateKey;
     Entry.image_list := [];
     Entry.status := waiting_for_images;
     Entry.created_at := clock;
     Entry.processed_at := None;
     Entry.error_message := None;
     Entry.start_time := startTime;
     Entry.end_time := endTime;
     Entry.gif_storage_key := Some storageKey |}.

(** [/^\d{4}-\d{2}-\d{2}$/.test(dateString)]. *)
Definition dateRegex (dateString : string) : bool :=
  match list_ascii_of_string dateString with
  | [y1; y2; y3; y4; d1; m1; m2; d2; a1; a2] =>
      Str.isDigit y1 && Str.isDigit y2 && Str.isDigit y3 && Str.isDigit y4
      && Ascii.eqb d1 "-" && Str.isDigit m1 && Str.isDigit m2
      && Ascii.eqb d2 "-" && Str.isDigit a1 && Str.isDigit a2
  | _ => false
  end.

Definition hourMillis : Z := 60 * 60 * 1000.

(** [lightStartHour.setMinutes(0, 0, 0)] and, in the loop,
    [nextHour.setHours(nextHour.getHours() + 1)] are taken on a host whose
    local time is UTC (the runtime of a Worker): what is proved of the hours
    says so, or does not depend on where they begin. *)
Definition setMinutes0 (t : Instant) : Instant := t - t mod hourMillis.

(** The [while] loop over the hours, with [fuel] turns at most. *)
Fixpoint hourlyLoop (webcam : WebcamDto) (fuel : nat)
    (currentHour lightEndHour : Instant) : list AnimationQueueEntry :=
  match fuel with
  | O => []
  | S fuel' =>
      if currentHour <? lightEndHour then
        let nextHour := currentHour + hourMillis in
        ((if nextHour <=? lightEndHour
          then [createAnimationEntry webcam hourly
                  (nextHour + 5 * 60 * 1000)
                  (currentHour / 1000) (nextHour / 1000)]
          else [])
         ++ hourlyLoop webcam fuel' nextHour lightEndHour)%list
      else []
  end.

(** Turns enough for the loop to leave by its condition. *)
Definition hourlyFuel (currentHour lightEndHour : Instant) : nat :=
  Z.to_nat ((lightEndHour - currentHour) / hourMillis + 1).

Definition quarter : number := Some (1 # 4).
Definition minute : Q := inject_Z (1 * 60 * 1000).

(** The body of the loop over the webcams: the animations of one webcam. *)
Definition animationsForWebcam (dateString : string) (webcam : WebcamDto)
    : list AnimationQueueEntry :=
  if negb (truthy (Webcam.latLon webcam)) then []
  else if negb (truthy (Webcam.timezone webcam)) then []
  else
    match calculateWebcamSolarTimes (Webcam.latLon webcam) (anchorOfDay dateString) with
    | None => []
    | Some solarTimes =>
        let sunriseDuration :=
          Num.sub (Solar.sunrise solarTimes) (Solar.firstLight solarTimes) in
        let sunsetDuration :=
          Num.sub (Solar.lastLight solarTimes) (Solar.sunset solarTimes) in
        let lightStart :=
          Num.sub (Solar.firstLight solarTimes) (Num.mul quarter sunriseDuration) in
        let sunriseEnd :=
          Num.add (Solar.sunrise solarTimes) (Num.mul quarter sunriseDuration) in
        let sunsetStart :=
          Num.sub (Solar.sunset solarTimes) (Num.mul quarter sunsetDuration) in
        let lightEnd :=
          Num.add (Solar.lastLight solarTimes) (Num.mul quarter sunsetDuration) in
        (* sunrise: the condition reads lightStart and lightEnd *)
        (if negb (Num.isNaN lightStart) && negb (Num.isNaN lightEnd) then
           match lightStart, sunriseEnd with
           | Some ls, Some se =>
               [createAnimationEntry webcam sunrise
                  (Num.truncate (se + minute))
                  (Num.floorSeconds ls) (Num.floorSeconds se)]
           | _, _ => []     (* sunriseEnd is a number when lightStart is *)
           end
         else [])
        ++
        (if negb (Num.isNaN sunsetStart) && negb (Num.isNaN lightEnd) then
           match sunsetStart, lightEnd with
           | Some ss, Some le =>
               [createAnimationEntry webcam sunset
                  (Num.truncate (le + minute))
                  (Num.floorSeconds ss) (Num.floorSeconds le)]
           | _, _ => []
           end
         else [])
        ++
        (if negb (Num.isNaN lightStart) && negb (Num.isNaN lightEnd) then
           match lightStart, lightEnd with
           | Some ls, Some le =>
               [createAnimationEntry webcam full_day
                  (Num.truncate (le + minute))
                  (Num.floorSeconds ls) (Num.floorSeconds le)]
           | _, _ => []
           end
         else [])
        ++
        (if negb (Num.isNaN lightStart) && negb (Num.isNaN lightEnd) then
           match lightStart, lightEnd, Solar.firstLight solarTimes with
           | Some ls, Some le, Some firstLight =>
               let lightEndHour := Num.truncate le in
               let lightStartHour := setMinutes0 (Num.truncate ls) in
               let lightStartHour :=
                 if Qltb (inject_Z lightStartHour) firstLight
                 then lightStartHour + hourMillis else lightStartHour in
               hourlyLoop webcam (hourlyFuel lightStartHour lightEndHour)
                 lightStartHour lightEndHour
           | _, _, _ => []
           end
         else [])
    end%list.

(** [getEnabledWebcams]: the enabled webcams, by name. *)
Fixpoint insertByName (w : WebcamDto) (l : list WebcamDto) : list WebcamDto :=
  match l with
  | [] => [w]
  | y :: r =>
      if String.leb (Webcam.name w) (Webcam.name y) then w :: l
      else y :: insertByName w r
  end.

Definition getEnabledWebcams (webcams : list WebcamDto) : list WebcamDto :=
  fold_right insertByName [] (filter Webcam.enabled webcams).

(** [animationsToCreate] when the loop over the webcams is done. *)
Definition animationsToCreate (webcams : list WebcamDto) (dateString : string)
    : list AnimationQueueEntry :=
  flat_map (animationsForWebcam dateString) (getEnabledWebcams webcams).

(** The loop that writes the animations, one call of
    [addAnimationsToQueue] for each. *)
Definition persist (animations : list AnimationQueueEntry) (queue : Queue) : Queue :=
  fold_left (fun q animation => snd (addAnimationsToQueue [animation] q))
    animations queue.

Definition createTodaysAnimations (webcams : list WebcamDto) (queue : Queue)
    (dateString : string) : Attempt Queue :=
  if negb (dateRegex dateString)
  then Thrown "invalid date must be (YYYY-MM-DD)"
  else Returned (persist (animationsToCreate webcams dateString) queue).

End Scheduler.

(* ================================================================== *)
(** * logic/retention-policy.ts *)
(* ================================================================== *)

(** The images table during a run of a policy, and the images the run has
    selected so far (one for each webcam and day it found images for). *)
Record RetentionRun := {
  table : list Image;
  selections : list Image
}.

(** [x.retentionPolicy ?? []]. *)
Definition tagsOf (x : Image) : list string :=
  match Image.retentionPolicy x with Some l => l | None => [] end.

Definition hasTag (tag : string) (x : Image) : bool :=
  existsb (String.eqb tag) (tagsOf x).

Definition withTags (x : Image) (tags : list string) : Image :=
  {| Image.id := Image.id x; Image.webcamId := Image.webcamId x;
     Image.timeStamp := Image.timeStamp x; Image.objectName := Image.objectName x;
     Image.retentionPolicy := Some tags |}.

(** [putImage]: [update images set(image) where id = image.id]. *)
Definition putImage (image : Image) (images : list Image) : list Image :=
  map (fun x => if Image.id x =? Image.id image then image else x) images.

(** [images.sort((a, b) => Math.abs(a.timeStamp * 1000 - imageTime) -
    Math.abs(b.timeStamp * 1000 - imageTime))]: the stable sort by distance
    to the target. *)
Definition distance (imageTime : Q) (x : Image) : Q :=
  Qabs (inject_Z (Image.timeStamp x * 1000) - imageTime).

Fixpoint insertByDistance (imageTime : Q) (x : Image) (l : list Image) : list Image :=
  match l with
  | [] => [x]
  | y :: r =>
      if Qle_bool (distance imageTime x) (distance imageTime y) then x :: l
      else y :: insertByDistance imageTime x r
  end.

Definition sortByDistance (imageTime : Q) (l : list Image) : list Image :=
  fold_right (insertByDistance imageTime) [] l.

(** The second half of the body of a day, common to the solar noon and the
    sunset policy but for the tag: the image closest to the target gets the
    tag, the other images of the window lose it. *)
Definition tagClosest (tag : string) (imageTime : Q) (images : list Image)
    (run : RetentionRun) : RetentionRun :=
  match sortByDistance imageTime images with
  | [] => run
  | chosen :: _ as sorted =>
      let others := filter (fun x => negb (Image.id x =? Image.id chosen)) sorted in
      let needsPolicyRemoved := filter (hasTag tag) others in
      let removed :=
        fold_left
          (fun t x =>
             putImage
               (withTags x (filter (fun p => negb (String.eqb p tag)) (tagsOf x))) t)
          needsPolicyRemoved (table run) in
      {| table :=
           if hasTag tag chosen then removed
           else putImage (withTags chosen (tagsOf chosen ++ [tag])%list) removed;
         selections := (selections run ++ [chosen])%list |}
  end.

Section Retention.

Context `{Environment}.

Definition quarterHour : Q := inject_Z (15 * 60 * 1000).
Definition fiveMinutes : Q := inject_Z (5 * 60 * 1000).

(** The body of the loop over the days of [SolarNoonRetentionPolicy]. *)
Definition solarNoonDay (webcam : WebcamDto) (run : RetentionRun) (day : Instant)
    : RetentionRun :=
  match calculateWebcamSolarTimes (Webcam.latLon webcam) (Num.ofZ day) with
  | None => run
  | Some solarTimes =>
      match Solar.sunrise solarTimes, Solar.sunset solarTimes with
      | Some rise, Some set =>
          let imageTime := ((rise + set) / 2)%Q in
          let images :=
            imagesForTimeRange (table run) webcam
              (Qfloor (imageTime - quarterHour))
              (Qfloor (quarterHour + imageTime)) in
          tagClosest "SolarNoon" imageTime images run
      | _, _ => run
      end
  end.

(** The body of the loop over the days of [SunsetRetentionPolicy]. *)
Definition sunsetDay (webcam : WebcamDto) (run : RetentionRun) (day : Instant)
    : RetentionRun :=
  match calculateWebcamSolarTimes (Webcam.latLon webcam) (Num.ofZ day) with
  | None => run
  | Some solarTimes =>
      match Solar.sunset solarTimes, Solar.lastLight solarTimes with
      | Some set, Some last =>
          let imageTime := ((set + last) / 2)%Q in
          let images :=
            imagesForTimeRange (table run) webcam
              (Qfloor (imageTime - quarterHour))
              (Qfloor (fiveMinutes + imageTime)) in
          tagClosest "Sunset" imageTime images run
      | _, _ => run
      end
  end.

(** [getAllWebcams]: every webcam, by name. *)
Definition getAllWebcams (webcams : list WebcamDto) : list WebcamDto :=
  fold_right insertByName [] webcams.

(** [const days: Date[] = []; // empty for now]: the list of days of both
    policies, for every webcam and every range. *)
Definition daysOfRange (webcam : WebcamDto) (startTime endTime : Z) : list Instant :=
  [].

Definition SolarNoonRetentionPolicy (webcams : list WebcamDto)
    (images : list Image) (startTime endTime : Z) : RetentionRun :=
  fold_left
    (fun run webcam =>
       fold_left (solarNoonDay webcam) (daysOfRange webcam startTime endTime) run)
    (getAllWebcams webcams)
    {| table := images; selections := [] |}.

Definition SunsetRetentionPolicy (webcams : list WebcamDto)
    (images : list Image) (startTime endTime : Z) : RetentionRun :=
  fold_left
    (fun run webcam =>
       fold_left (sunsetDay webcam) (daysOfRange webcam startTime endTime) run)
    (getAllWebcams webcams)
    {| table := images; selections := [] |}.

End Retention.

(* ------------------------------------------------------------------ *)
(** ** The words of the specification about the scheduler *)

(** The bounds of the windows (steps 3 and 4 of the scheduler). *)
Module Window.

Definition sunriseDuration (t : SolarTimes) : number :=
  Num.sub (Solar.sunrise t) (Solar.firstLight t).
Definition sunsetDuration (t : SolarTimes) : number :=
  Num.sub (Solar.lastLight t) (Solar.sunset t).
Definition lightStart (t : SolarTimes) : number :=
  Num.sub (Solar.firstLight t) (Num.mul (Some (1 # 4)) (sunriseDuration t)).
Definition sunriseEnd (t : SolarTimes) : number :=
  Num.add (Solar.sunrise t) (Num.mul (Some (1 # 4)) (sunriseDuration t)).
Definition sunsetStart (t : SolarTimes) : number :=
  Num.sub (Solar.sunset t) (Num.mul (Some (1 # 4)) (sunsetDuration t)).
Definition lightEnd (t : SolarTimes) : number :=
  Num.add (Solar.lastLight t) (Num.mul (Some (1 # 4)) (sunsetDuration t)).

End Window.

(** The storage key the specification describes:
    [gifs/{nationalPark}/{webcamName}/{type}/{yyyyMMdd}[_{HH}].{ext}]. *)
Definition specStorageKey (nationalPark webcamName : string)
    (animationType : AnimationType) (yyyyMMdd : string) (hh : option string)
    (ext : string) : string :=
  "gifs/" ++ nationalPark ++ "/" ++ webcamName ++ "/" ++ typeName animationType
  ++ "/" ++ yyyyMMdd
  ++ match hh with Some h => "_" ++ h | None => "" end
  ++ "." ++ ext.

(** The number of rows of the queue with a reference key. *)
Definition rowsWithKey (referenceKey : string) (queue : Queue) : nat :=
  List.length (filter (fun r => String.eqb (Row.referenceId r) referenceKey) queue).

(* ================================================================== *)
(** * A small database to run the code on *)
(* ================================================================== *)

Module Sample.

Definition denverCam : WebcamDto :=
  {| Webcam.id := 1; Webcam.name := "Denver Cam"; Webcam.enabled := true;
     Webcam.latLon := Some "39.740,-104.975";
     Webcam.nationalPark := Some "Rocky Mountain";
     Webcam.timezone := Some "America/Denver" |}.

Definition imageAt (id t : Z) : Image :=
  {| Image.id := id; Image.webcamId := 1; Image.timeStamp := t;
     Image.objectName := "images/romo/Denver Cam/" ++ Str.ofZ t ++ ".jpg";
     Image.retentionPolicy := None |}.

(** Six images of the hour from 14:00 UTC on 2025-09-24, ten minutes apart. *)
Definition images : list Image :=
  map (fun i => imageAt (Z.of_nat i + 1) (1758722400 + 600 * Z.of_nat i)) (seq 0 6).

Definition imageQuery (w : WebcamDto) (startTime endTime : Z)
    : Attempt (list Image) :=
  Returned (imagesForTimeRange images w startTime endTime).

(** An image query that throws for every webcam. *)
Definition brokenQuery (w : WebcamDto) (startTime endTime : Z)
    : Attempt (list Image) :=
  Thrown "D1_ERROR".

Definition job (id webcamId : Z) (type : AnimationType)
    (status : AnimationStatus) (startTime endTime : Z) : GifCreationQueue :=
  {| Row.id := id; Row.webcamId := webcamId;
     Row.referenceId := Str.ofZ webcamId ++ "_" ++ typeName type ++ "_20250924";
     Row.gifType := type;
     Row.scheduledTime := endTime * 1000 + 300000;
     Row.imageList := []; Row.status := status;
     Row.createdAt := 1758682620000; Row.processedAt := None;
     Row.errorMessage := None;
     Row.startTime := startTime; Row.endTime := endTime;
     Row.gifStorageKey := None; Row.dateKey := "2025-09-24" |}.

(** An hourly job with its six images, a full-day job with too few, a job
    of a webcam that is gone, a job without a window, and a job already
    handed to the encoder. *)
Definition hourlyJob := job 1 1 hourly waiting_for_images 1758722400 1758726000.
Definition fullDayJob := job 2 1 full_day waiting_for_images 1758722400 1758726000.
Definition orphanJob := job 3 9 sunrise waiting_for_images 1758722400 1758726000.
Definition windowlessJob := job 4 1 sunset waiting_for_images 0 0.
Definition pendingJob := job 5 1 sunrise pending 1758722400 1758726000.

Definition queue : Queue :=
  [hourlyJob; fullDayJob; orphanJob; windowlessJob; pendingJob].

Definition now : Instant := 1758730000000.
Definition clock : Instant := 1758730000123.

End Sample.

(* ================================================================== *)
(** * An environment to run the scheduler in *)
(* ================================================================== *)

Module SampleEnv.

(** Zones with a fixed offset from UTC, in seconds (Denver on daylight
    saving time). *)
Definition zoneOffset (zone : string) : Z :=
  if String.eqb zone "America/Denver" then -6 * 3600 else 0.

Definition pad2 (n : Z) : string :=
  if n <? 10 then "0" ++ Str.ofZ n else Str.ofZ n.

(** The civil date of a day number counted from 1970-01-01. *)
Definition civil (days : Z) : Z * Z * Z :=
  let z := days + 719468 in
  let era := z / 146097 in
  let doe := z - era * 146097 in
  let yoe := (doe - doe / 1460 + doe / 36524 - doe / 146096) / 365 in
  let doy := doe - (365 * yoe + yoe / 4 - yoe / 100) in
  let mp := (5 * doy + 2) / 153 in
  let d := doy - (153 * mp + 2) / 5 + 1 in
  let m := if mp <? 10 then mp + 3 else mp - 9 in
  let y := yoe + era * 400 + (if m <=? 2 then 1 else 0) in
  (y, m, d).

Definition yyyyMMdd (sep : string) (seconds : Z) (zone : string) : string :=
  let '(y, m, d) := civil ((seconds + zoneOffset zone) / 86400) in
  Str.ofZ y ++ sep ++ pad2 m ++ sep ++ pad2 d.

Definition hour2 (seconds : Z) (zone : string) : string :=
  pad2 (((seconds + zoneOffset zone) mod 86400) / 3600).

(** Denver on 2025-09-24: first light 05:51, sunrise 06:49, sunset 18:53,
    last light 19:51 local time.  At the second place, the pole, SunCalc
    finds no sunrise and no sunset, no nautical dawn and no nautical dusk:
    the four times are NaN and the day length of [calculateSolarTimes]
    is 0. *)
Definition denverTimes : SolarTimes :=
  {| Solar.sunrise := Num.ofZ 1758718140000;
     Solar.sunset := Num.ofZ 1758761580000;
     Solar.firstLight := Num.ofZ 1758714660000;
     Solar.lastLight := Num.ofZ 1758765060000;
     Solar.dayLength := Some (43440000 # 3600000) |}.

Definition poleTimes : SolarTimes :=
  {| Solar.sunrise := Num.NaN;
     Solar.sunset := Num.NaN;
     Solar.firstLight := Num.NaN;
     Solar.lastLight := Num.NaN;
     Solar.dayLength := Num.ofZ 0 |}.

Definition solarTable (latLon : string) (timestamp : number) : option SolarTimes :=
  if String.eqb latLon "39.740,-104.975" then Some denverTimes
  else if String.eqb latLon "90.000,0.000" then Some poleTimes
  else None.

Definition env : Environment :=
  {| zoneDate := yyyyMMdd "";
     zoneHour := hour2;
     getLocalDateKey := fun t zone => yyyyMMdd "-" (t / 1000) zone;
     anchorOfDay := fun _ => Num.ofZ 1758682800000;
     solarTimesAt := solarTable |}.

Definition northCam : WebcamDto :=
  {| Webcam.id := 2; Webcam.name := "North Cam"; Webcam.enabled := true;
     Webcam.latLon := Some "90.000,0.000";
     Webcam.nationalPark := None;
     Webcam.timezone := Some "UTC" |}.

End SampleEnv.


(* ================================================================== *)
(** * logic/image.ts and tasks/processAllWebcams.ts: the keys of captured images *)
(* ================================================================== *)

(** [String.prototype.includes]. *)
Fixpoint strIncludes (s p : string) : bool :=
  String.prefix p s
  || match s with
     | EmptyString => false
     | String _ r => strIncludes r p
     end.

Definition guessExt (contentType : string) : string :=
  if strIncludes contentType "jpeg" then ".jpg"
  else if strIncludes contentType "png" then ".png"
  else if strIncludes contentType "gif" then ".gif"
  else if strIncludes contentType "webp" then ".webp"
  else "".

(** The value of a decimal numeral read after the digits of value [acc]. *)
Fixpoint uintValue (d : Decimal.uint) (acc : Z) : Z :=
  match d with
  | Decimal.Nil => acc
  | Decimal.D0 l => uintValue l (10 * acc + 0)
  | Decimal.D1 l => uintValue l (10 * acc + 1)
  | Decimal.D2 l => uintValue l (10 * acc + 2)
  | Decimal.D3 l => uintValue l (10 * acc + 3)
  | Decimal.D4 l => uintValue l (10 * acc + 4)
  | Decimal.D5 l => uintValue l (10 * acc + 5)
  | Decimal.D6 l => uintValue l (10 * acc + 6)
  | Decimal.D7 l => uintValue l (10 * acc + 7)
  | Decimal.D8 l => uintValue l (10 * acc + 8)
  | Decimal.D9 l => uintValue l (10 * acc + 9)
  end.

(** [historyKey] of [captureWebCamImage]: the key a captured image is stored
    and recorded under, [unixTimestamp] being [Math.floor(Date.now() / 1000)]. *)
Definition historyKey (webcamName : string) (unixTimestamp : Z)
    (contentType : string) : string :=
  "images/romo/" ++ webcamName ++ "/" ++ Str.ofZ unixTimestamp
  ++ guessExt contentType.

(* ================================================================== *)
(** * db/repositories/animation-queue-repository.ts: the storage key of an entry *)
(* ================================================================== *)

(** [filename.match(/^\d+\.mp4$/)]. *)
Definition mp4Match (filename : string) : bool :=
  let (digits, rest) := Str.span Str.isDigit filename in
  negb (Str.isEmpty digits) && String.eqb rest ".mp4".

(** A nullable text column in a template literal. *)
Definition printNullable (s : option string) : string :=
  match s with Some v => v | None => "null" end.

(** The select of [updateAnimationStorageKey]: the first row of the inner
    join of the queue with the webcams, for the id. *)
Definition entryWithWebcam (webcams : list WebcamDto) (id : Z) (queue : Queue)
    : option (GifCreationQueue * WebcamDto) :=
  hd_error
    (flat_map
       (fun r => map (pair r)
                   (filter (fun w => Webcam.id w =? Row.webcamId r) webcams))
       (filter (fun r => Row.id r =? id) queue)).

Module Update.
Record Result := { success : bool; message : string }.
End Update.

(** The [set] of [updateAnimationStorageKey]. *)
Definition setStorageKey (storageKey : string) (r : GifCreationQueue)
    : GifCreationQueue :=
  {| Row.id := Row.id r;
     Row.webcamId := Row.webcamId r;
     Row.referenceId := Row.referenceId r;
     Row.gifType := Row.gifType r;
     Row.scheduledTime := Row.scheduledTime r;
     Row.imageList := Row.imageList r;
     Row.status := Row.status r;
     Row.createdAt := Row.createdAt r;
     Row.processedAt := Row.processedAt r;
     Row.errorMessage := Row.errorMessage r;
     Row.startTime := Row.startTime r;
     Row.endTime := Row.endTime r;
     Row.gifStorageKey := Some storageKey;
     Row.dateKey := Row.dateKey r |}.

Definition updateAnimationStorageKey (webcams : list WebcamDto) (id : Z)
    (storageKey : string) (queue : Queue) : Update.Result * Queue :=
  match entryWithWebcam webcams id queue with
  | None =>
      ({| Update.success := false;
          Update.message :=
            "Animation queue entry with ID " ++ Str.ofZ id ++ " not found" |},
       queue)
  | Some (entry, webcam) =>
      let expectedPattern :=
        "gifs/" ++ printNullable (Webcam.nationalPark webcam) ++ "/"
        ++ Webcam.name webcam ++ "/" ++ typeName (Row.gifType entry) ++ "/" in
      if negb (String.prefix expectedPattern storageKey) then
        ({| Update.success := false;
            Update.message :=
              "Invalid storage key format. Expected pattern: " ++ expectedPattern
              ++ "timestamp.mp4" |},
         queue)
      else
        let filename := last (Str.split "/" storageKey) EmptyString in
        if Str.isEmpty filename || negb (mp4Match filename) then
          ({| Update.success := false;
              Update.message := "Invalid filename format. Expected: timestamp.mp4" |},
           queue)
        else
          ({| Update.success := true;
              Update.message := "Storage key updated successfully" |},
           updateWhereId id (setStorageKey storageKey) queue)
  end.

(* ================================================================== *)
(** * index.ts: the callers of the tasks and of the repository *)
(* ================================================================== *)

(** The two statements [markAnimationCompleted] sends to the database may
    throw.  The faults of a call: the message of the error the select
    throws, and of the one the update throws, where they do
    ([error instanceof Error ? error.message : String(error)]). *)
Record Faults := {
  selectFault : option string;
  updateFault : option string
}.

Definition noFaults : Faults := {| selectFault := None; updateFault := None |}.

(** What the [catch] of [markAnimationCompleted] returns. *)
Definition completionCaught (errorMessage : string) : CompletionResult :=
  {| success := false;
     message := "Failed to mark animation as completed: " ++ errorMessage;
     queue_entry_id := None; resultStatus := None |}.

(** [markAnimationCompleted] with its [try] and its [catch], on a database
    with faults; a statement that throws writes nothing. *)
Definition markAnimationCompletedOn (faults : Faults) (clock : Instant) (id : Z)
    (queue : Queue) : CompletionResult * Queue :=
  match selectFault faults with
  | Some errorMessage => (completionCaught errorMessage, queue)
  | None =>
      match find (fun r => Row.id r =? id) queue with
      | None =>
          ({| success := false;
              message := "Animation queue entry with ID " ++ Str.ofZ id
                         ++ " not found";
              queue_entry_id := None; resultStatus := None |},
           queue)
      | Some entry =>
          if negb (AnimationStatus_eqb (Row.status entry) pending) then
            ({| success := false;
                message := "Animation is not in pending status. Current status: "
                           ++ statusName (Row.status entry);
                queue_entry_id := None; resultStatus := None |},
             queue)
          else
            match updateFault faults with
            | Some errorMessage => (completionCaught errorMessage, queue)
            | None =>
                ({| success := true;
                    message := "Animation marked as completed successfully";
                    queue_entry_id := Some id; resultStatus := Some "completed" |},
                 updateWhereId id (setCompleted clock) queue)
            end
      end
  end.


(** [s.padStart(targetLength, c)] for a pad of one character. *)
Definition padStart (targetLength : nat) (c : ascii) (s : string) : string :=
  string_of_list_ascii (repeat c (targetLength - String.length s)) ++ s.

(** The date string the scheduled handler makes at 23:57 from
    [getUTCFullYear()], [getUTCMonth()] (0 to 11) and [getUTCDate()]. *)
Definition cronDateString (fullYear month date : Z) : string :=
  Str.ofZ fullYear ++ "-" ++ Str.ofZ month ++ "-" ++ Str.ofZ date.

(** The date [GET gifs/schedule] takes when the request names none;
    [toFixed(0)] of an integer is its decimal string. *)
Definition defaultScheduleDate (fullYear month date : Z) : string :=
  Str.ofZ fullYear ++ "-" ++ padStart 2 "0" (Str.ofZ month)
  ++ "-" ++ padStart 2 "0" (Str.ofZ (date + 1)).

(* ================================================================== *)
(** * logic/solar-calculations.ts: daylight *)
(* ================================================================== *)

(** [a >= b] and [a <= b] on numbers: false when one of them is NaN. *)
Definition numGe (a b : number) : bool :=
  match a, b with
  | Some x, Some y => Qle_bool y x
  | _, _ => false
  end.

Definition numLe (a b : number) : bool :=
  match a, b with
  | Some x, Some y => Qle_bool x y
  | _, _ => false
  end.

Definition isDaylight `{Environment} (latLonString : option string)
    (currentTimestamp : number) : bool :=
  match calculateWebcamSolarTimes latLonString currentTimestamp with
  | None => true
  | Some solarTimes =>
      if Num.isNaN (Solar.firstLight solarTimes)
         || Num.isNaN (Solar.lastLight solarTimes)
      then true
      else
        let sunriseDuration :=
          Num.sub (Solar.sunrise solarTimes) (Solar.firstLight solarTimes) in
        let sunsetDuration :=
          Num.sub (Solar.lastLight solarTimes) (Solar.sunset solarTimes) in
        let lightStart :=
          Num.sub (Solar.firstLight solarTimes) (Num.mul quarter sunriseDuration) in
        let lightEnd :=
          Num.add (Solar.lastLight solarTimes) (Num.mul quarter sunsetDuration) in
        numGe currentTimestamp lightStart && numLe currentTimestamp lightEnd
  end.

(* ================================================================== *)
(** * logic/retention-policy.ts: the sunrise policy *)
(* ================================================================== *)

Definition dayMillis : Z := 24 * 60 * 60 * 1000.

(** The host of the runtime: [new Date(year, month, date, 0, 0, 0)] reads
    its arguments in the local time of the host.  [localMidnight day] is its
    time value for the civil day with the number [day], counted from
    1970-01-01: the instant at which this day begins on the host. *)
Class Host := { localMidnight : Z -> Instant }.

(** The host whose local time is UTC less [timezoneOffset] milliseconds
    ([getTimezoneOffset()] in milliseconds: 0 on a UTC host, negative east
    of Greenwich, positive west of it), the same all year. *)
Definition hostAt (timezoneOffset : Z) : Host :=
  {| localMidnight := fun day => day * dayMillis + timezoneOffset |}.

Definition utcHost : Host := hostAt 0.

(** [new Date(currentDay.getUTCFullYear(), currentDay.getUTCMonth(),
    currentDay.getUTCDate() + 1, 0, 0, 0)]: the UTC date of [currentDay]
    and, of the day after that date, the local midnight. *)
Definition nextMidnight `{Host} (currentDay : Instant) : Instant :=
  localMidnight (currentDay / dayMillis + 1).

(** The [while] loop that fills [days], with [fuel] turns at most: [None]
    when the loop has not left by its condition after them. *)
Fixpoint daysLoop `{Host} (fuel : nat) (currentDay endDay : Instant)
    : option (list Instant) :=
  match fuel with
  | O => None
  | S fuel' =>
      if currentDay <=? endDay
      then option_map (cons currentDay)
             (daysLoop fuel' (nextMidnight currentDay) endDay)
      else Some []
  end.

(** Turns enough for the loop to leave by its condition, where it does. *)
Definition daysFuel (startDay endDay : Instant) : nat :=
  S (Z.to_nat ((endDay - startDay) / dayMillis + 2)).

(** [images.sort((a, b) => Math.abs(a.timeStamp - imageTime) -
    Math.abs(b.timeStamp - imageTime))], [imageTime] in seconds. *)
Definition secondsDistance (imageTime : Q) (x : Image) : Q :=
  Qabs (inject_Z (Image.timeStamp x) - imageTime).

Fixpoint insertBySeconds (imageTime : Q) (x : Image) (l : list Image) : list Image :=
  match l with
  | [] => [x]
  | y :: r =>
      if Qle_bool (secondsDistance imageTime x) (secondsDistance imageTime y)
      then x :: l
      else y :: insertBySeconds imageTime x r
  end.

Definition sortBySeconds (imageTime : Q) (l : list Image) : list Image :=
  fold_right (insertBySeconds imageTime) [] l.

(** [x.retentionPolicy = (x.retentionPolicy ?? []).filter(p => p != tag)]. *)
Definition withoutTag (tag : string) (x : Image) : Image :=
  withTags x (filter (fun p => negb (String.eqb p tag)) (tagsOf x)).

(** [x.retentionPolicy ??= []; x.retentionPolicy.push(tag)]. *)
Definition withTag (tag : string) (x : Image) : Image :=
  withTags x (tagsOf x ++ [tag])%list.

(** The second half of the body of a day, on the sorted images: the first
    of them gets the tag, the others lose it. *)
Definition tagFirst (tag : string) (sorted : list Image) (run : RetentionRun)
    : RetentionRun :=
  match sorted with
  | [] => run
  | chosen :: _ =>
      let others := filter (fun x => negb (Image.id x =? Image.id chosen)) sorted in
      let needsPolicyRemoved := filter (hasTag tag) others in
      let removed :=
        fold_left (fun t x => putImage (withoutTag tag x) t)
          needsPolicyRemoved (table run) in
      {| table :=
           if hasTag tag chosen then removed
           else putImage (withTag tag chosen) removed;
         selections := (selections run ++ [chosen])%list |}
  end.

Section SunriseRetention.

Context `{Environment} `{Host}.

(** The body of the loop over the days of [SunriseRetentionPolicy]. *)
Definition sunriseDay (webcam : WebcamDto) (run : RetentionRun) (day : Instant)
    : RetentionRun :=
  match calculateWebcamSolarTimes (Webcam.latLon webcam) (Num.ofZ day) with
  | None => run
  | Some solarTimes =>
      match Solar.sunrise solarTimes, Solar.firstLight solarTimes with
      | Some rise, Some first =>
          let imageTime := ((rise + first) / 2 / 1000)%Q in
          let images :=
            imagesForTimeRange (table run) webcam
              (Qfloor (imageTime - inject_Z (5 * 60)))
              (Qfloor (inject_Z (15 * 60) + imageTime)) in
          tagFirst "Sunrise" (sortBySeconds imageTime images) run
      | _, _ => run
      end
  end.

(** The policy, each [while] loop over the days with [fuel] turns at most:
    [None] when the loop of a webcam has not left after them, and the policy
    does not come to the days of this webcam. *)
Definition SunriseRetentionPolicy (fuel : nat) (webcams : list WebcamDto)
    (images : list Image) (startTime endTime : Z) : option RetentionRun :=
  fold_left
    (fun run webcam =>
       match run, daysLoop fuel (startTime * 1000) (endTime * 1000) with
       | Some run, Some days => Some (fold_left (sunriseDay webcam) days run)
       | _, _ => None
       end)
    (getAllWebcams webcams)
    (Some {| table := images; selections := [] |}).

End SunriseRetention.

(** What a retention policy may change of an image: the presence of its own
    tag among the tags of the image, and nothing else. *)
Definition sameButTag (tag : string) (x x' : Image) : Prop :=
  Image.id x' = Image.id x /\ Image.webcamId x' = Image.webcamId x /\
  Image.timeStamp x' = Image.timeStamp x /\
  Image.objectName x' = Image.objectName x /\
  forall p, p <> tag -> In p (tagsOf x') <-> In p (tagsOf x).

(* ================================================================== *)
(** * logic/animations.ts: interpolateImages *)
(* ================================================================== *)

(** The [for] loop of [interpolateImages]: the first image at or before the
    target whose successor is after the target. *)
Fixpoint bracketing (imagesWithTimestamps : list Image) (targetTimestamp : Q)
    : option Image :=
  match imagesWithTimestamps with
  | thisImage :: ((nextImage :: _) as rest) =>
      if Qle_bool (inject_Z (Image.timeStamp thisImage)) targetTimestamp
         && Qltb targetTimestamp (inject_Z (Image.timeStamp nextImage))
      then Some thisImage
      else bracketing rest targetTimestamp
  | _ => None
  end.

(** The [while] loop, with [fuel] turns at most: [None] when the turns do
    not suffice for the loop to end. *)
Fixpoint interpolateLoop (fuel : nat) (imagesWithTimestamps : list Image)
    (firstImage lastImage : Image) (interval endTime targetTimestamp : Q)
    : option (list Image) :=
  match fuel with
  | O => None
  | S fuel' =>
      if Qle_bool targetTimestamp endTime then
        if Qltb targetTimestamp (inject_Z (Image.timeStamp firstImage)) then
          option_map (cons firstImage)
            (interpolateLoop fuel' imagesWithTimestamps firstImage lastImage
               interval endTime (targetTimestamp + interval))
        else if Qltb (inject_Z (Image.timeStamp lastImage)) targetTimestamp then
          option_map (cons lastImage)
            (interpolateLoop fuel' imagesWithTimestamps firstImage lastImage
               interval endTime (targetTimestamp + interval))
        else
          match bracketing imagesWithTimestamps targetTimestamp with
          | None =>            (* [continue] with the same target *)
              interpolateLoop fuel' imagesWithTimestamps firstImage lastImage
                interval endTime targetTimestamp
          | Some targetImage =>
              option_map (cons targetImage)
                (interpolateLoop fuel' imagesWithTimestamps firstImage lastImage
                   interval endTime (targetTimestamp + interval))
          end
      else Some []
  end.

(** [interpolateImages]; every image has a timestamp, the column being
    [NOT NULL]. *)
Definition interpolateImages (fuel : nat) (sourceImages : list Image)
    (totalImages startTime endTime : Z) : option (list Image) :=
  if (List.length sourceImages =? 0)%nat || (totalImages <=? 0) then Some []
  else
    match orderBy Image.timeStamp sourceImages with
    | [] => Some []
    | (firstImage :: _) as imagesWithTimestamps =>
        interpolateLoop fuel imagesWithTimestamps firstImage
          (last imagesWithTimestamps firstImage)
          (inject_Z (endTime - startTime) / inject_Z totalImages)
          (inject_Z endTime) (inject_Z startTime)
    end.

(* ================================================================== *)
(** * Properties *)
(* ================================================================== *)

(* ------------------------------------------------------------------ *)
(** ** Strings *)

Lemma append_nil_r (s : string) : s ++ "" = s.
Proof. induction s as [|c s IH]; simpl; [reflexivity | now rewrite IH]. Qed.

Lemma append_assoc (a b c : string) : (a ++ b) ++ c = a ++ (b ++ c).
Proof. induction a as [|x a IH]; simpl; [reflexivity | now rewrite IH]. Qed.

Lemma all_append (p : ascii -> bool) (a b : string) :
  Str.all p (a ++ b) = Str.all p a && Str.all p b.
Proof.
  induction a as [|x a IH]; simpl; [reflexivity|].
  now rewrite IH, andb_assoc.
Qed.

Lemma isEmpty_true (s : string) : Str.isEmpty s = true <-> s = "".
Proof. destruct s; simpl; split; congruence. Qed.

Lemma isEmpty_false (s : string) : Str.isEmpty s = false <-> s <> "".
Proof. destruct s; simpl; split; congruence. Qed.

Lemma split_not_nil (sep : ascii) (s : string) : Str.split sep s <> [].
Proof.
  destruct s as [|c r]; simpl; [discriminate|].
  destruct (Ascii.eqb c sep); [discriminate|].
  destruct (Str.split sep r); discriminate.
Qed.

Lemma split_no_sep (sep : ascii) (s : string) :
  Str.all (fun c => negb (Ascii.eqb c sep)) s = true -> Str.split sep s = [s].
Proof.
  induction s as [|c r IH]; simpl; [reflexivity|].
  intros H. apply andb_true_iff in H as [Hc Hr].
  apply negb_true_iff in Hc. rewrite Hc, (IH Hr). reflexivity.
Qed.

(** Splitting after a separator: the pieces of the part after it end the
    list of pieces. *)
Lemma split_append_sep (sep : ascii) (pre s : string) :
  exists l, l <> [] /\
    Str.split sep (pre ++ String sep s) = (l ++ Str.split sep s)%list.
Proof.
  induction pre as [|c r [l [Hl IH]]]; simpl.
  - exists [""]. rewrite Ascii.eqb_refl. split; [discriminate | reflexivity].
  - rewrite IH. destruct (Ascii.eqb c sep).
    + exists ("" :: l). split; [discriminate | reflexivity].
    + destruct l as [|p l]; [congruence|]. simpl.
      exists (String c p :: l). split; [discriminate | reflexivity].
Qed.

Lemma last_app_not_nil {A} (l m : list A) (d : A) :
  m <> [] -> last (l ++ m)%list d = last m d.
Proof.
  intros Hm. induction l as [|x l IH]; simpl; [reflexivity|].
  destruct (l ++ m)%list eqn:E; [|exact IH].
  destruct l; simpl in E; [congruence | discriminate].
Qed.

(** The pieces of a split are free of the separator. *)
Lemma split_pieces_no_sep (sep : ascii) (s : string) :
  Forall (fun p => Str.all (fun c => negb (Ascii.eqb c sep)) p = true)
         (Str.split sep s).
Proof.
  induction s as [|c r IH]; simpl.
  - repeat constructor.
  - destruct (Ascii.eqb c sep) eqn:E.
    + constructor; [reflexivity | exact IH].
    + destruct (Str.split sep r) as [|p ps]; [repeat constructor; simpl; now rewrite E|].
      inversion IH; subst. constructor; [simpl; now rewrite E | assumption].
Qed.

(** The string is its last piece, or something, a separator and its last
    piece. *)
Lemma split_last_shape (sep : ascii) (s : string) :
  s = last (Str.split sep s) "" \/
  exists pre, s = pre ++ String sep (last (Str.split sep s) "").
Proof.
  induction s as [|c r IH]; simpl; [now left|].
  destruct (Ascii.eqb_spec c sep) as [->|Hne].
  - right. pose proof (split_not_nil sep r) as Hn.
    destruct (Str.split sep r) as [|p ps] eqn:E; [congruence|].
    change (last ("" :: p :: ps) "") with (last (p :: ps) "").
    destruct IH as [IH | [pre IH]].
    + exists "". cbn [append]. now rewrite <- IH.
    + exists (String sep pre). cbn [append]. now rewrite <- IH.
  - pose proof (split_not_nil sep r) as Hn.
    destruct (Str.split sep r) as [|p ps] eqn:E; [congruence|].
    destruct ps as [|q ps].
    + cbn [last] in *. destruct IH as [IH | [pre IH]].
      * left. now rewrite <- IH.
      * (* the single piece is the whole string: no separator in it *)
        exfalso. rewrite IH in E.
        destruct (split_append_sep sep pre p) as [l [Hl El]].
        rewrite El in E. pose proof (split_not_nil sep p) as Hp.
        destruct l as [|x l]; [congruence|].
        destruct l; destruct (Str.split sep p); simpl in E; congruence.
    + change (last (String c p :: q :: ps) "") with (last (q :: ps) "").
      change (last (p :: q :: ps) "") with (last (q :: ps) "") in IH.
      destruct IH as [IH | [pre IH]].
      * exfalso.
        pose proof (split_pieces_no_sep sep r) as Hf. rewrite E in Hf.
        assert (Hlast : Str.all (fun c => negb (Ascii.eqb c sep)) (last (q :: ps) "") = true).
        { rewrite Forall_forall in Hf. apply Hf.
          right. clear. revert q. induction ps as [|x ps IHp]; intros q; [now left|].
          right. apply IHp. }
        rewrite <- IH in Hlast. apply split_no_sep in Hlast. congruence.
      * right. exists (String c pre). cbn [append]. now rewrite <- IH.
Qed.

Lemma finalSegment_last (imageKey : string) :
  finalSegment imageKey (last (Str.split "/" imageKey) "").
Proof.
  split.
  - pose proof (split_pieces_no_sep "/" imageKey) as Hf.
    pose proof (split_not_nil "/" imageKey) as Hn.
    rewrite Forall_forall in Hf. apply Hf.
    destruct (Str.split "/" imageKey) as [|p ps]; [congruence|].
    clear. revert p. induction ps as [|x ps IH]; intros p; [now left|].
    right. apply IH.
  - destruct (split_last_shape "/" imageKey) as [H | [pre H]]; [now left|].
    right. exists pre. exact H.
Qed.

Lemma finalSegment_unique (imageKey seg : string) :
  finalSegment imageKey seg -> seg = last (Str.split "/" imageKey) "".
Proof.
  intros [Hns [-> | [pre ->]]].
  - now rewrite (split_no_sep _ _ Hns).
  - change ("/" ++ seg) with (String "/" seg).
    destruct (split_append_sep "/" pre seg) as [l [_ ->]].
    rewrite last_app_not_nil by apply split_not_nil.
    now rewrite (split_no_sep _ _ Hns).
Qed.

Lemma span_append (p : ascii -> bool) (s : string) :
  fst (Str.span p s) ++ snd (Str.span p s) = s.
Proof.
  induction s as [|c r IH]; simpl; [reflexivity|].
  destruct (p c); [|reflexivity].
  destruct (Str.span p r); simpl in *. now rewrite IH.
Qed.

Lemma span_all (p : ascii -> bool) (s : string) :
  Str.all p (fst (Str.span p s)) = true.
Proof.
  induction s as [|c r IH]; simpl; [reflexivity|].
  destruct (p c) eqn:E; [|reflexivity].
  destruct (Str.span p r); simpl in *. now rewrite E.
Qed.

Lemma span_stop (p : ascii -> bool) (a : string) (c : ascii) (b : string) :
  Str.all p a = true -> p c = false ->
  Str.span p (a ++ String c b) = (a, String c b).
Proof.
  intros Ha Hc. induction a as [|x a IH]; simpl.
  - now rewrite Hc.
  - simpl in Ha. apply andb_true_iff in Ha as [Hx Ha].
    now rewrite Hx, (IH Ha).
Qed.

Lemma timestampMatch_iff (filename digits : string) :
  timestampMatch filename = Some digits <->
  exists ext, timestampFileName filename digits ext.
Proof.
  unfold timestampMatch, timestampFileName. split.
  - pose proof (span_append Str.isDigit filename) as Happ.
    pose proof (span_all Str.isDigit filename) as Hall.
    destruct (Str.span Str.isDigit filename) as [d rest]; simpl in *.
    destruct rest as [|c ext]; [discriminate|].
    destruct (Ascii.eqb_spec c ".") as [->|Hne].
    + destruct (negb (Str.isEmpty d) && negb (Str.isEmpty ext)
                && Str.all Str.isLetter ext) eqn:E; [|discriminate].
      intros [= <-].
      apply andb_true_iff in E as [E E3]. apply andb_true_iff in E as [E1 E2].
      apply negb_true_iff, isEmpty_false in E1.
      apply negb_true_iff, isEmpty_false in E2.
      exists ext. simpl. now rewrite Happ.
    + destruct c as [[] [] [] [] [] [] [] []]; try discriminate. congruence.
  - intros [ext (-> & Hd & Hdig & He & Hlet)].
    change ("." ++ ext) with (String "." ext).
    rewrite span_stop by (assumption || reflexivity).
    apply isEmpty_false in Hd, He. now rewrite Hd, He, Hlet.
Qed.

Lemma digitsValue_fold (l : list ascii) (acc : Z) :
  fold_left (fun a c => 10 * a + Str.digitValue c) l acc =
  acc * 10 ^ Z.of_nat (List.length l) + decimalValue (string_of_list_ascii l).
Proof.
  revert acc. induction l as [|c l IH]; intros acc; cbn [fold_left].
  - simpl. lia.
  - rewrite IH. cbn [List.length string_of_list_ascii decimalValue].
    assert (String.length (string_of_list_ascii l) = List.length l) as ->.
    { clear. induction l; simpl; congruence. }
    rewrite Nat2Z.inj_succ, Z.pow_succ_r by lia. ring.
Qed.

Lemma digitsValue_decimalValue (digits : string) :
  Str.digitsValue digits = decimalValue digits.
Proof.
  unfold Str.digitsValue. rewrite digitsValue_fold.
  now rewrite string_of_list_ascii_of_string.
Qed.

(* ------------------------------------------------------------------ *)
(** ** Doubles *)

(** A natural number up to 2^53 is a double: it is read as it is. *)
Lemma round_exact (n : Z) : n <= 2 ^ 53 -> Double.round n = Double.Finite n.
Proof.
  intros Hn. unfold Double.round.
  destruct (Z.ltb_spec n (2 ^ 53)) as [_|Hge]; [reflexivity|].
  assert (n = 2 ^ 53) as -> by lia. vm_compute. reflexivity.
Qed.

(** From 2^53 on, a natural number [n] of 53 + e bits lies between two
    neighbours among the numbers m * 2^e with a significand m of 53 bits
    (2^53 standing for the first number of 54 + e bits): the double read is
    the nearer one, the one with the even significand when [n] is half way,
    and Infinity when that is 2^1024. *)
Lemma round_nearest (n : Z) :
  2 ^ 53 <= n ->
  let e := Z.log2 n - 52 in
  exists m,
    2 ^ 52 <= m <= 2 ^ 53 /\
    2 * Z.abs (m * 2 ^ e - n) <= 2 ^ e /\
    (2 * Z.abs (m * 2 ^ e - n) = 2 ^ e -> Z.even m = true) /\
    Double.round n
    = if 2 ^ 1024 <=? m * 2 ^ e then Double.Infinity
      else Double.Finite (m * 2 ^ e).
Proof.
  intros Hn e. unfold Double.round.
  destruct (Z.ltb_spec n (2 ^ 53)) as [Hlt|_]; [lia|]. cbv zeta. fold e.
  assert (He : 1 <= e).
  { unfold e. assert (Z.log2 (2 ^ 53) <= Z.log2 n) by (apply Z.log2_le_mono; lia).
    rewrite Z.log2_pow2 in H by lia. lia. }
  assert (Hpow : 2 ^ e = 2 * 2 ^ (e - 1)).
  { rewrite <- Z.pow_succ_r by lia. f_equal. lia. }
  assert (Hhalf : 0 < 2 ^ (e - 1)) by (apply Z.pow_pos_nonneg; lia).
  pose proof (Z.div_mod n (2 ^ e) ltac:(lia)) as Hdm.
  pose proof (Z.mod_pos_bound n (2 ^ e) ltac:(lia)) as Hr.
  destruct (Z.log2_spec n ltac:(lia)) as [Hlo Hhi].
  replace (Z.log2 n) with (52 + e) in Hlo by (unfold e; lia).
  replace (Z.succ (Z.log2 n)) with (53 + e) in Hhi by (unfold e; lia).
  rewrite Z.pow_add_r in Hlo, Hhi by lia.
  set (P := 2 ^ e) in *. set (H := 2 ^ (e - 1)) in *.
  set (q := n / P) in *. set (r := n mod P) in *.
  assert (Hq : 2 ^ 52 <= q < 2 ^ 53) by nia.
  destruct (Z.ltb_spec r H) as [Hc|Hc].
  { exists q. split; [lia|]. split; [|split; [|reflexivity]].
    - replace (q * P - n) with (- r) by lia. rewrite Z.abs_opp, Z.abs_eq; lia.
    - replace (q * P - n) with (- r) by lia. rewrite Z.abs_opp, Z.abs_eq; lia. }
  destruct (Z.ltb_spec H r) as [Hc'|Hc'].
  { exists (q + 1). split; [lia|]. split; [|split; [|reflexivity]].
    - replace ((q + 1) * P - n) with (P - r) by lia. rewrite Z.abs_eq; lia.
    - replace ((q + 1) * P - n) with (P - r) by lia. rewrite Z.abs_eq; lia. }
  assert (E : r = H) by lia.
  destruct (Z.even q) eqn:Ev.
  { exists q. split; [lia|]. split; [|split; [trivial | reflexivity]].
    replace (q * P - n) with (- r) by lia. rewrite Z.abs_opp, Z.abs_eq; lia. }
  exists (q + 1). split; [lia|]. split; [|split; [|reflexivity]].
  - replace ((q + 1) * P - n) with (P - r) by lia. rewrite Z.abs_eq; lia.
  - intros _. rewrite Z.even_add, Ev. reflexivity.
Qed.

(** Above 2^53 the nearest double is taken, the even one of two that are as
    near, and Infinity past the largest double. *)
Example round_examples :
  Double.round 9007199254740993 = Double.Finite 9007199254740992 /\
  Double.round 9007199254740995 = Double.Finite 9007199254740996 /\
  Double.round (2 ^ 60 - 129) = Double.Finite (2 ^ 60 - 128) /\
  Double.round (2 ^ 1024 - 2 ^ 970 - 1) = Double.Finite (2 ^ 1024 - 2 ^ 971) /\
  Double.round (2 ^ 1024 - 2 ^ 970) = Double.Infinity /\
  Double.round (10 ^ 309) = Double.Infinity.
Proof. repeat split; vm_compute; reflexivity. Qed.

(** [Double.round] against the rounding of the primitive floats, on numbers
    on both sides of 2^53, on ties, and at the largest double. *)
Example round_primitive :
  Forall (fun n => Double.toFloat (Double.round n) = Double.ofZ n)
    [0; 1; 1758722400; 2 ^ 53 - 1; 2 ^ 53; 2 ^ 53 + 1; 2 ^ 53 + 2; 2 ^ 53 + 3;
     2 ^ 54 + 2; 2 ^ 54 + 6; 2 ^ 60 - 129; 2 ^ 60 - 64; 2 ^ 60 - 63;
     12345678901234567890123; 10 ^ 22 + 1; 10 ^ 23; 3 * 10 ^ 100 + 7;
     2 ^ 1024 - 2 ^ 970 - 1; 2 ^ 1024 - 2 ^ 970; 2 ^ 1024; 10 ^ 309].
Proof. repeat constructor. Qed.

Lemma double_le_refl (a : Double.t) : Double.le a a.
Proof. destruct a; unfold Double.le; simpl; [apply Z.leb_refl | reflexivity]. Qed.

Lemma double_le_trans (a b c : Double.t) :
  Double.le a b -> Double.le b c -> Double.le a c.
Proof.
  unfold Double.le. destruct a, b, c; simpl; try congruence.
  rewrite !Z.leb_le. lia.
Qed.

Lemma double_leb_false (a b : Double.t) : Double.leb a b = false -> Double.le b a.
Proof.
  unfold Double.le. destruct a, b; simpl; try congruence.
  rewrite Z.leb_gt, Z.leb_le. lia.
Qed.


(* ------------------------------------------------------------------ *)
(** ** The timestamp of a key *)

(** A key encodes one timestamp at most. *)
Lemma encodes_functional (imageKey : string) (n n' : Z) :
  encodes imageKey n -> encodes imageKey n' -> n = n'.
Proof.
  intros (seg & d & ext & Hseg & Hfn & ->) (seg' & d' & ext' & Hseg' & Hfn' & ->).
  apply finalSegment_unique in Hseg, Hseg'. subst seg seg'.
  assert (E : timestampMatch (last (Str.split "/" imageKey) "") = Some d)
    by (apply timestampMatch_iff; now exists ext).
  assert (E' : timestampMatch (last (Str.split "/" imageKey) "") = Some d')
    by (apply timestampMatch_iff; now exists ext').
  congruence.
Qed.

(** The timestamp of a key, in the words of the specification. *)
Lemma extractTimestamp_Some (imageKey : string) (v : Double.t) :
  extractTimestampFromImageKey imageKey = Some v <->
  exists n, encodes imageKey n /\ v = Double.round n.
Proof.
  unfold extractTimestampFromImageKey, encodes. split.
  - destruct (timestampMatch _) as [d|] eqn:E; [|discriminate].
    destruct (Str.isEmpty d); [discriminate|]. intros [= <-].
    apply timestampMatch_iff in E as [ext E].
    exists (decimalValue d). split.
    + exists (last (Str.split "/" imageKey) ""), d, ext.
      split; [apply finalSegment_last|]. now split.
    + unfold parseInt. now rewrite digitsValue_decimalValue.
  - intros (n & (seg & d & ext & Hseg & Hfn & ->) & ->).
    apply finalSegment_unique in Hseg. subst seg.
    assert (E : timestampMatch (last (Str.split "/" imageKey) "") = Some d)
      by (apply timestampMatch_iff; now exists ext).
    rewrite E. destruct Hfn as (_ & Hd & _). apply isEmpty_false in Hd.
    rewrite Hd. unfold parseInt. now rewrite digitsValue_decimalValue.
Qed.

(** C10, as the code has it.  [extractTimestampFromImageKey] is a total
    function (it returns for every input string, so it never throws); it
    returns a non-null value exactly when the final '/'-separated segment of
    the key is one or more decimal digits, a single '.', and one or more
    ASCII letters; for every other input it returns null.  The value is the
    double nearest to the decimal integer the digits encode: that integer
    itself when it is at most 2^53, and otherwise a rounded number or
    Infinity. *)
Theorem extractTimestampFromImageKey_spec (imageKey : string) :
  (forall v,
      extractTimestampFromImageKey imageKey = Some v <->
      exists seg digits ext,
        finalSegment imageKey seg /\ timestampFileName seg digits ext /\
        v = Double.round (decimalValue digits)) /\
  (extractTimestampFromImageKey imageKey = None <->
   ~ exists seg digits ext,
       finalSegment imageKey seg /\ timestampFileName seg digits ext) /\
  (forall seg digits ext,
      finalSegment imageKey seg -> timestampFileName seg digits ext ->
      decimalValue digits <= 2 ^ 53 ->
      extractTimestampFromImageKey imageKey
      = Some (Double.Finite (decimalValue digits))).
Proof.
  assert (Hsome : forall v,
            extractTimestampFromImageKey imageKey = Some v <->
            exists seg digits ext,
              finalSegment imageKey seg /\ timestampFileName seg digits ext /\
              v = Double.round (decimalValue digits)).
  { intros v. rewrite extractTimestamp_Some. unfold encodes. split.
    - intros (n & (seg & d & ext & H1 & H2 & ->) & ->). now exists seg, d, ext.
    - intros (seg & d & ext & H1 & H2 & ->).
      exists (decimalValue d). split; [now exists seg, d, ext | reflexivity]. }
  split; [exact Hsome|]. split; [split|].
  - intros HN (seg & d & ext & H1 & H2).
    assert (extractTimestampFromImageKey imageKey
            = Some (Double.round (decimalValue d)))
      by (apply Hsome; now exists seg, d, ext).
    congruence.
  - intros Hno.
    destruct (extractTimestampFromImageKey imageKey) as [v|] eqn:E; [|reflexivity].
    exfalso. apply Hno.
    destruct (proj1 (Hsome v) eq_refl) as (seg & d & ext & H1 & H2 & _).
    now exists seg, d, ext.
  - intros seg d ext H1 H2 Hle. apply Hsome. exists seg, d, ext.
    split; [exact H1|]. split; [exact H2|]. symmetry. now apply round_exact.
Qed.

Lemma extractTimestampFromImageKey_spec_witness :
  extractTimestampFromImageKey "images/romo/webcam1/1609459200.jpg"
  = Some (Double.Finite 1609459200).
Proof.
  destruct (extractTimestampFromImageKey_spec "images/romo/webcam1/1609459200.jpg")
    as (_ & _ & Hexact).
  apply (Hexact "1609459200.jpg" "1609459200" "jpg").
  - split; [reflexivity|]. right. now exists "images/romo/webcam1".
  - repeat split; try reflexivity; discriminate.
  - vm_compute. congruence.
Defined.

(** The claim C10 as the specification words it fails above 2^53: the key
    a/9007199254740993.jpg encodes 2^53 + 1 and the value returned is 2^53;
    a key of 310 digits encodes 10^309 and the value returned is
    Infinity. *)
Lemma extractTimestampFromImageKey_counterexample :
  ~ (forall imageKey v,
       extractTimestampFromImageKey imageKey = Some v <->
       exists n, encodes imageKey n /\ v = Double.Finite n) /\
  encodes "a/9007199254740993.jpg" 9007199254740993 /\
  extractTimestampFromImageKey "a/9007199254740993.jpg"
  = Some (Double.Finite 9007199254740992) /\
  let digits := String "1" (string_of_list_ascii (repeat "0"%char 309)) in
  encodes ("a/" ++ digits ++ ".jpg") (10 ^ 309) /\
  extractTimestampFromImageKey ("a/" ++ digits ++ ".jpg") = Some Double.Infinity.
Proof.
  assert (H1 : encodes "a/9007199254740993.jpg" 9007199254740993).
  { exists "9007199254740993.jpg", "9007199254740993", "jpg".
    split; [split; [reflexivity | right; now exists "a"]|].
    split; [repeat split; try reflexivity; discriminate | reflexivity]. }
  split; [|split; [exact H1|]; split; [vm_compute; reflexivity|]].
  - intros H.
    assert (E : extractTimestampFromImageKey "a/9007199254740993.jpg"
                = Some (Double.Finite 9007199254740992))
      by (vm_compute; reflexivity).
    apply H in E as (n & Hn & E).
    rewrite (encodes_functional _ _ _ Hn H1) in E. discriminate E.
  - intros digits. split; [|vm_compute; reflexivity].
    exists (digits ++ ".jpg"), digits, "jpg".
    split; [split; [vm_compute; reflexivity | right; now exists "a"]|].
    split; [|vm_compute; reflexivity].
    split; [reflexivity|]. split; [discriminate|].
    split; [vm_compute; reflexivity|]. split; [discriminate | reflexivity].
Qed.

Example extractTimestamp_examples :
  extractTimestampFromImageKey "images/romo/webcam1/1609459200.jpg"
  = Some (Double.Finite 1609459200) /\
  extractTimestampFromImageKey "images/romo/cam/0.jpg" = Some (Double.Finite 0) /\
  extractTimestampFromImageKey "1609459200.jpg" = Some (Double.Finite 1609459200) /\
  extractTimestampFromImageKey "" = None /\
  extractTimestampFromImageKey "images/romo/cam/1609459200" = None /\
  extractTimestampFromImageKey "images/romo/cam/notanumber.jpg" = None /\
  extractTimestampFromImageKey "images/romo/cam/.jpg" = None /\
  extractTimestampFromImageKey "images/romo/cam/12.j1" = None.
Proof. repeat split; reflexivity. Qed.

(* ------------------------------------------------------------------ *)
(** ** Parsing and sorting the keys *)

Lemma parseKeys_wellStamped (src : list string) :
  Forall wellStamped (parseKeys src).
Proof.
  induction src as [|k src IH]; simpl; [constructor|].
  destruct (extractTimestampFromImageKey k) eqn:E; [|exact IH].
  constructor; [exact E | exact IH].
Qed.

Lemma parseKeys_keys (src : list string) :
  map key (parseKeys src) = filter parseable src.
Proof.
  induction src as [|k src IH]; simpl; [reflexivity|].
  unfold parseable at 1.
  destruct (extractTimestampFromImageKey k); simpl; now rewrite IH.
Qed.

Lemma insertByTimestamp_perm (x : StampedKey) (l : list StampedKey) :
  Permutation (insertByTimestamp x l) (x :: l).
Proof.
  induction l as [|y l IH]; simpl; [reflexivity|].
  destruct (Double.leb (timestamp x) (timestamp y)); [reflexivity|].
  rewrite IH. apply perm_swap.
Qed.

Lemma sortByTimestamp_perm (l : list StampedKey) :
  Permutation (sortByTimestamp l) l.
Proof.
  induction l as [|x l IH]; simpl; [reflexivity|].
  rewrite insertByTimestamp_perm. now constructor.
Qed.

Lemma insertByTimestamp_sorted (x : StampedKey) (l : list StampedKey) :
  StronglySorted byTimestamp l -> StronglySorted byTimestamp (insertByTimestamp x l).
Proof.
  induction l as [|y l IH]; simpl; intros Hs.
  - repeat constructor.
  - inversion Hs as [|? ? Hl Hy]; subst.
    destruct (Double.leb (timestamp x) (timestamp y)) eqn:E.
    + constructor; [exact Hs|]. constructor; [exact E|].
      eapply Forall_impl; [|exact Hy]. unfold byTimestamp. intros a Ha.
      now apply (double_le_trans _ (timestamp y)).
    + constructor; [now apply IH|].
      eapply Permutation_Forall; [symmetry; apply insertByTimestamp_perm|].
      constructor; [now apply double_leb_false | exact Hy].
Qed.

Lemma sortByTimestamp_sorted (l : list StampedKey) :
  StronglySorted byTimestamp (sortByTimestamp l).
Proof.
  induction l as [|x l IH]; simpl; [constructor|].
  now apply insertByTimestamp_sorted.
Qed.

Lemma sortByTimestamp_length (l : list StampedKey) :
  List.length (sortByTimestamp l) = List.length l.
Proof. apply Permutation_length, sortByTimestamp_perm. Qed.

Lemma sortByTimestamp_wellStamped (src : list string) :
  Forall wellStamped (sortByTimestamp (parseKeys src)).
Proof.
  eapply Permutation_Forall; [symmetry; apply sortByTimestamp_perm|].
  apply parseKeys_wellStamped.
Qed.




Lemma parsed_count (src : list string) :
  List.length (sortByTimestamp (parseKeys src)) = List.length (filter parseable src).
Proof.
  now rewrite sortByTimestamp_length, <- parseKeys_keys, length_map.
Qed.




Lemma sorted_parse_source (src : list string) (s : StampedKey) :
  In s (sortByTimestamp (parseKeys src)) ->
  In (key s) src /\ extractTimestampFromImageKey (key s) = Some (timestamp s).
Proof.
  intros Hs. split.
  - assert (H : In (key s) (filter parseable src)).
    { rewrite <- parseKeys_keys. apply in_map.
      eapply Permutation_in; [apply sortByTimestamp_perm | exact Hs]. }
    now apply filter_In in H.
  - pose proof (sortByTimestamp_wellStamped src) as Hw.
    rewrite Forall_forall in Hw. now apply Hw.
Qed.



(** * The desampler *)

(** The first two exits of [desampleImageKeys]. *)
Lemma desample_empty (src : list string) (n : Z) :
  n <= 0 \/ src = [] -> desampleImageKeys src n = [].
Proof.
  unfold desampleImageKeys. intros [Hn | ->].
  - apply Z.leb_le in Hn. rewrite Hn. now rewrite orb_true_r.
  - reflexivity.
Qed.

Lemma desample_all (src : list string) (n : Z) :
  0 < n -> Z.of_nat (List.length src) <= n -> desampleImageKeys src n = src.
Proof.
  unfold desampleImageKeys. intros Hn Hlen.
  destruct src as [|k src]; [reflexivity|].
  change (List.length (k :: src) =? 0)%nat with false.
  apply Z.leb_gt in Hn. rewrite Hn.
  apply Z.leb_le in Hlen. now rewrite Hlen.
Qed.

(** Past the first two exits the result is computed from the sorted
    parse. *)
Lemma desample_few_parseable (src : list string) (n : Z) :
  n < Z.of_nat (List.length src) ->
  Z.of_nat (List.length (filter parseable src)) <= n ->
  desampleImageKeys src n = map key (sortByTimestamp (parseKeys src)).
Proof.
  intros Hlen Hcnt. unfold desampleImageKeys.
  destruct (Z.leb_spec n 0) as [Hn0|Hn0].
  - rewrite orb_true_r.
    assert (E : filter parseable src = [])
      by (destruct (filter parseable src); simpl in *; [reflexivity | lia]).
    rewrite <- parseKeys_keys in E. apply map_eq_nil in E. now rewrite E.
  - destruct src as [|k src]; [simpl in Hlen; lia|].
    change (List.length (k :: src) =? 0)%nat with false.
    apply Z.leb_gt in Hlen. rewrite Hlen.
    rewrite <- parsed_count in Hcnt.
    cbn [orb]. cbv zeta.
    destruct (parseKeys (k :: src)) as [|s l] eqn:E; [reflexivity|].
    change (List.length (s :: l) =? 0)%nat with false. cbv iota.
    destruct (sortByTimestamp (s :: l)) as [|f r] eqn:Es; [reflexivity|].
    apply Z.leb_le in Hcnt. now rewrite Hcnt.
Qed.









(* ------------------------------------------------------------------ *)
(** ** The selection loop *)

Lemma Qltb_lt (a b : Q) : Qltb a b = true <-> (a < b)%Q.
Proof.
  unfold Qltb. rewrite negb_true_iff. split.
  - intros H. apply Qnot_le_lt. intros Hle.
    apply Qle_bool_iff in Hle. congruence.
  - intros H. destruct (Qle_bool b a) eqn:E; [|reflexivity].
    apply Qle_bool_iff in E. now apply Qlt_not_le in H.
Qed.

Lemma Qltb_ge (a b : Q) : Qltb a b = false <-> (b <= a)%Q.
Proof.
  unfold Qltb. rewrite negb_false_iff. apply Qle_bool_iff.
Qed.

Lemma includes_In (l : list string) (k : string) :
  includes l k = true <-> In k l.
Proof.
  unfold includes. rewrite existsb_exists. split.
  - intros [x [Hx E]]. apply String.eqb_eq in E. now subst.
  - intros H. exists k. split; [exact H | apply String.eqb_refl].
Qed.

Lemma includes_not_In (l : list string) (k : string) :
  includes l k = false <-> ~ In k l.
Proof.
  rewrite <- includes_In. destruct (includes l k); split; congruence.
Qed.


Lemma sorted_ge_head (first x : StampedKey) (rest : list StampedKey) :
  StronglySorted byTimestamp (first :: rest) -> In x (first :: rest) ->
  Double.le (timestamp first) (timestamp x).
Proof.
  intros Hs [<- | Hx]; [apply double_le_refl|].
  inversion Hs as [|? ? _ Ha]; subst.
  rewrite Forall_forall in Ha. now apply Ha.
Qed.

Lemma last_In {A} (l : list A) (d : A) : l <> [] -> In (last l d) l.
Proof.
  induction l as [|a l IH]; [congruence|]. intros _.
  destruct l as [|b l]; [now left|].
  right. apply IH. discriminate.
Qed.


(** The inner loop leaves in [closestImage] the image it starts from or an
    image of the list, whatever the doubles compare to. *)
Lemma closestImage_In (imgs : list StampedKey) (first : StampedKey)
    (target : PrimFloat.float) :
  In (closestImage imgs first target) (first :: imgs).
Proof.
  unfold closestImage.
  assert (H : forall l acc,
            In (fst acc) (first :: imgs) ->
            (forall x, In x l -> In x (first :: imgs)) ->
            In (fst (fold_left (closestStep target) l acc)) (first :: imgs)).
  { induction l as [|x l IH]; intros [c d] Hc Hl; [exact Hc|].
    cbn [fold_left]. apply IH; [|intros y Hy; apply Hl; now right].
    unfold closestStep.
    destruct (PrimFloat.ltb (difference x target) d); [|exact Hc].
    apply Hl. now left. }
  apply H; [now left | intros x Hx; now right].
Qed.

(** The outer loop only appends to the selected keys, keys of the images
    and none that is selected already, one at most in a turn. *)
Lemma selectAtIntervals_spec (imgs : list StampedKey) (first : StampedKey)
    (interval : PrimFloat.float) (count : nat) :
  forall i sel,
    let result := selectAtIntervals imgs first interval count i sel in
    (exists tl, result = (sel ++ tl)%list) /\
    (NoDup sel -> NoDup result) /\
    (forall k, In k result -> In k sel \/ In k (map key (first :: imgs))) /\
    (List.length result <= List.length sel + count)%nat.
Proof.
  induction count as [|count IH]; intros i sel; cbn [selectAtIntervals].
  - split; [exists []; now rewrite app_nil_r|].
    split; [trivial|]. split; [now left | lia].
  - cbv zeta.
    set (closest := closestImage imgs first
                      (targetTimestamp (timestamp first) interval i)).
    assert (Hc : In (key closest) (map key (first :: imgs)))
      by (apply in_map, closestImage_In).
    destruct (includes sel (key closest)) eqn:E.
    + destruct (IH (i + 1) sel) as (Htl & Hnd & Hin & Hlen).
      split; [exact Htl|]. split; [exact Hnd|]. split; [exact Hin | lia].
    + destruct (IH (i + 1) (sel ++ [key closest])%list) as ((tl & Htl) & Hnd & Hin & Hlen).
      split; [exists (key closest :: tl); now rewrite Htl, <- app_assoc|].
      split.
      * intros Hsel. apply Hnd. apply includes_not_In in E.
        apply NoDup_app; [exact Hsel | repeat constructor; intros [] |].
        intros k Hk [<- | []]. now apply E.
      * split.
        -- intros k Hk. apply Hin in Hk as [Hk | Hk]; [|now right].
           apply in_app_or in Hk as [Hk | [<- | []]]; [now left | now right].
        -- rewrite length_app in Hlen. simpl in Hlen. lia.
Qed.

Lemma appendLast_spec (sel : list string) (lastKey : string) :
  (exists tl, appendLast sel lastKey = (sel ++ tl)%list) /\
  (NoDup sel -> NoDup (appendLast sel lastKey)) /\
  (forall k, In k (appendLast sel lastKey) -> In k sel \/ k = lastKey) /\
  In lastKey (appendLast sel lastKey) /\
  (List.length (appendLast sel lastKey) <= List.length sel + 1)%nat.
Proof.
  unfold appendLast. destruct (includes sel lastKey) eqn:E.
  - split; [exists []; now rewrite app_nil_r|]. split; [trivial|].
    split; [now left|]. split; [now apply includes_In | lia].
  - apply includes_not_In in E.
    split; [now exists [lastKey]|]. split.
    + intros Hsel. apply NoDup_app; [exact Hsel | repeat constructor; intros [] |].
      intros k Hk [<- | []]. now apply E.
    + split.
      * intros k Hk. apply in_app_or in Hk as [Hk | [<- | []]]; [now left | now right].
      * split; [apply in_or_app; right; now left|].
        rewrite length_app. simpl. lia.
Qed.

(* ------------------------------------------------------------------ *)
(** ** All the exits of [desampleImageKeys] *)

Lemma StronglySorted_app_l {A} (R : A -> A -> Prop) (l m : list A) :
  StronglySorted R (l ++ m) -> StronglySorted R l.
Proof.
  induction l as [|a l IH]; simpl; intros H; [constructor|].
  inversion H as [|? ? Hs Ha]; subst. constructor; [now apply IH|].
  rewrite Forall_forall in *. intros x Hx. apply Ha. apply in_or_app. now left.
Qed.

Lemma firstn_sorted {A} (R : A -> A -> Prop) (k : nat) (l : list A) :
  StronglySorted R l -> StronglySorted R (firstn k l).
Proof.
  intros H. rewrite <- (firstn_skipn k l) in H.
  now apply StronglySorted_app_l in H.
Qed.

Lemma firstn_NoDup {A} (k : nat) (l : list A) : NoDup l -> NoDup (firstn k l).
Proof.
  intros H. rewrite <- (firstn_skipn k l) in H.
  now apply NoDup_app_remove_r in H.
Qed.

Lemma firstn_In {A} (k : nat) (l : list A) (x : A) : In x (firstn k l) -> In x l.
Proof.
  intros H. rewrite <- (firstn_skipn k l). apply in_or_app. now left.
Qed.

(** Keys of images are the keys of a list of these images. *)
Lemma keys_images (imgs : list StampedKey) (keys : list string) :
  (forall k, In k keys -> In k (map key imgs)) ->
  exists sel, keys = map key sel /\ forall s, In s sel -> In s imgs.
Proof.
  induction keys as [|k keys IH]; intros H.
  - exists []. split; [reflexivity | intros s []].
  - destruct IH as (sel & -> & Hsel); [intros k' Hk'; apply H; now right|].
    destruct (proj1 (in_map_iff key imgs k) (H k ltac:(now left)))
      as (s & <- & Hs).
    exists (s :: sel). split; [reflexivity|].
    intros s' [<- | Hs']; [exact Hs | now apply Hsel].
Qed.

Lemma desample_long (src : list string) (n : Z)
    (first : StampedKey) (rest : list StampedKey) :
  0 < n -> n < Z.of_nat (List.length src) ->
  sortByTimestamp (parseKeys src) = first :: rest ->
  n < Z.of_nat (List.length (first :: rest)) ->
  desampleImageKeys src n =
    let imgs := first :: rest in
    let lastImage := last imgs first in
    let timeSpan := timeSpanOf first lastImage in
    if PrimFloat.eqb timeSpan PrimFloat.zero
    then map key (firstn (Z.to_nat n) imgs)
    else if n =? 1 then [key first]
    else if n =? 2 then [key first; key lastImage]
    else appendLast
           (selectAtIntervals imgs first
              (PrimFloat.div timeSpan (Double.ofZ (n - 1)))
              (Z.to_nat (n - 2)) 1 [key first])
           (key lastImage).
Proof.
  intros Hn Hlen Hsort Hcnt. unfold desampleImageKeys.
  destruct src as [|k src]; [simpl in Hlen; lia|].
  change (List.length (k :: src) =? 0)%nat with false.
  apply Z.leb_gt in Hn, Hlen. rewrite Hn, Hlen. cbn [orb]. cbv zeta.
  assert (Hp : (List.length (parseKeys (k :: src)) =? 0)%nat = false).
  { rewrite <- sortByTimestamp_length, Hsort. reflexivity. }
  rewrite Hp, Hsort. apply Z.leb_gt in Hcnt. rewrite Hcnt. reflexivity.
Qed.

(** The first and the last of a list of two images or more with distinct
    keys have distinct keys. *)
Lemma first_last_keys (first : StampedKey) (rest : list StampedKey) :
  rest <> [] -> NoDup (map key (first :: rest)) ->
  key first <> key (last (first :: rest) first).
Proof.
  intros Hr Hnd E. inversion Hnd as [|? ? Hnot _]; subst. apply Hnot.
  destruct rest as [|b rest]; [congruence|].
  change (last (first :: b :: rest) first) with (last (b :: rest) first) in E.
  rewrite E. apply in_map. apply last_In. discriminate.
Qed.

(** The images behind the result, when the sorted parse is longer than the
    number of images wanted. *)
Lemma desample_long_images (src : list string) (n : Z)
    (first : StampedKey) (rest : list StampedKey) :
  0 < n -> n < Z.of_nat (List.length src) ->
  sortByTimestamp (parseKeys src) = first :: rest ->
  n < Z.of_nat (List.length (first :: rest)) ->
  let lastImage := last (first :: rest) first in
  let zeroSpan := PrimFloat.eqb (timeSpanOf first lastImage) PrimFloat.zero in
  exists sel tl,
    desampleImageKeys src n = map key sel /\
    sel = first :: tl /\
    (forall s, In s sel -> In s (first :: rest)) /\
    (NoDup (map key (first :: rest)) -> NoDup (map key sel)) /\
    Z.of_nat (List.length sel) <= n /\
    (zeroSpan = true \/ n <= 2 -> StronglySorted byTimestamp sel) /\
    (zeroSpan = false ->
     (n = 1 -> sel = [first]) /\
     (n = 2 -> sel = [first; lastImage]) /\
     (2 <= n -> In (key lastImage) (map key sel))).
Proof.
  intros Hn Hlen Hsort Hcnt lastImage zeroSpan.
  rewrite (desample_long src n first rest Hn Hlen Hsort Hcnt). cbv zeta.
  pose proof (sortByTimestamp_sorted (parseKeys src)) as Hsorted.
  rewrite Hsort in Hsorted.
  set (imgs := first :: rest) in *. fold lastImage. fold zeroSpan.
  assert (Hlast : In lastImage imgs) by (apply last_In; discriminate).
  assert (Hle : Double.le (timestamp first) (timestamp lastImage)).
  { apply (sorted_ge_head first lastImage rest); assumption. }
  destruct zeroSpan eqn:Hspan.
  { destruct (Z.to_nat n) as [|m] eqn:Em; [lia|].
    exists (firstn (S m) imgs), (firstn m rest).
    split; [reflexivity|]. split; [reflexivity|].
    split; [intros s; apply firstn_In|].
    split; [intros Hnd; rewrite <- firstn_map; now apply firstn_NoDup|].
    split; [pose proof (firstn_le_length (S m) imgs); lia|].
    split; [intros _; now apply firstn_sorted | discriminate]. }
  destruct (Z.eqb_spec n 1) as [->|Hn1].
  { exists [first], []. split; [reflexivity|]. split; [reflexivity|].
    split; [intros s [<- | []]; now left|].
    split; [intros _; repeat constructor; intros []|].
    split; [simpl; lia|].
    split; [intros _; repeat constructor|].
    intros _. split; [reflexivity|]. split; lia. }
  destruct (Z.eqb_spec n 2) as [->|Hn2].
  { exists [first; lastImage], [lastImage].
    split; [reflexivity|]. split; [reflexivity|].
    split; [intros s [<- | [<- | []]]; [now left | assumption]|].
    split.
    { intros Hnd. constructor; [|repeat constructor; intros []].
      intros [E | []]. revert E. apply not_eq_sym.
      apply first_last_keys; [|exact Hnd].
      destruct rest; [simpl in Hcnt; lia | discriminate]. }
    split; [simpl; lia|].
    split; [intros _; repeat constructor; exact Hle|].
    intros _. split; [lia|]. split; [reflexivity|].
    intros _. right. now left. }
  set (interval := PrimFloat.div (timeSpanOf first lastImage) (Double.ofZ (n - 1))).
  destruct (selectAtIntervals_spec imgs first interval (Z.to_nat (n - 2)) 1 [key first])
    as ((tl & Htl) & Hnd & Hin & Hl).
  set (selected := selectAtIntervals imgs first interval (Z.to_nat (n - 2)) 1
                     [key first]) in *.
  destruct (appendLast_spec selected (key lastImage))
    as ((tl' & Htl') & Hnd' & Hin' & Hlast' & Hl').
  assert (Hkeys : forall k, In k (appendLast selected (key lastImage)) ->
                            In k (map key imgs)).
  { intros k Hk. apply Hin' in Hk as [Hk | ->]; [|now apply in_map].
    apply Hin in Hk as [[<- | []] | Hk].
    - apply in_map. now left.
    - destruct Hk as [<- | Hk]; [apply in_map; now left | exact Hk]. }
  assert (Hhd : appendLast selected (key lastImage)
                = key first :: (tl ++ tl')%list)
    by (rewrite Htl', Htl; reflexivity).
  destruct (keys_images imgs (tl ++ tl')%list) as (sel & Esel & Hsel).
  { intros k Hk. apply Hkeys. rewrite Hhd. now right. }
  exists (first :: sel), sel.
  split; [rewrite Hhd, Esel; reflexivity|]. split; [reflexivity|].
  split; [intros s [<- | Hs]; [now left | now apply Hsel]|].
  split.
  { intros _. change (map key (first :: sel)) with (key first :: map key sel).
    rewrite <- Esel, <- Hhd. apply Hnd', Hnd. repeat constructor. intros []. }
  split.
  { assert (Hlen' : List.length (first :: sel)
                    = List.length (appendLast selected (key lastImage))).
    { rewrite Hhd, Esel. simpl. now rewrite length_map. }
    rewrite Hlen'. simpl in Hl. lia. }
  split; [intros [H | H]; [discriminate | lia]|].
  intros _. split; [lia|]. split; [lia|].
  intros _. change (map key (first :: sel)) with (key first :: map key sel).
  now rewrite <- Esel, <- Hhd.
Qed.

(* ------------------------------------------------------------------ *)
(** ** The first and the last key *)

Section Ends.

Variables (src : list string) (first : StampedKey) (rest : list StampedKey).
Hypothesis sorted_parse : sortByTimestamp (parseKeys src) = first :: rest.



End Ends.

(* ------------------------------------------------------------------ *)
(** ** C3 *)






Example desample_unsorted_source :
  desampleImageKeys ["cam/20.jpg"; "cam/10.jpg"] 2 = ["cam/20.jpg"; "cam/10.jpg"].
Proof. reflexivity. Qed.

Example desample_duplicate_source :
  desampleImageKeys ["cam/10.jpg"; "cam/10.jpg"] 2 = ["cam/10.jpg"; "cam/10.jpg"].
Proof. reflexivity. Qed.

Example desample_negative_wanted :
  desampleImageKeys ["cam/10.jpg"] (-1) = [].
Proof. reflexivity. Qed.

(** The cases of the test suite (test/logic/desample-image-keys.test.ts). *)
Example desample_eleven_keys :
  let imageKey t := "images/romo/test-cam/" ++ Str.ofZ t ++ ".jpg" in
  desampleImageKeys
    (map (fun i => imageKey (1609459200 + 60 * Z.of_nat i)) (seq 0 11)) 5
  = map imageKey [1609459200; 1609459320; 1609459500; 1609459620; 1609459800].
Proof. vm_compute. reflexivity. Qed.

Example desample_same_timestamp :
  desampleImageKeys
    ["r/cam1/1609459200.jpg"; "r/cam2/1609459200.jpg";
     "r/cam3/1609459200.jpg"; "r/cam4/1609459200.jpg"] 2
  = ["r/cam1/1609459200.jpg"; "r/cam2/1609459200.jpg"].
Proof. vm_compute. reflexivity. Qed.

Example desample_mixed_keys :
  desampleImageKeys
    ["r/c/1609459200.jpg"; "invalid-key-1"; "r/c/1609459260.jpg";
     "invalid-key-2"; "r/c/1609459320.jpg"] 2
  = ["r/c/1609459200.jpg"; "r/c/1609459320.jpg"].
Proof. vm_compute. reflexivity. Qed.

Example desample_no_timestamps :
  desampleImageKeys ["invalid-key-1"; "invalid-key-2"; "invalid-key-3"] 2 = [].
Proof. reflexivity. Qed.

(** Where the doubles of the interval show: of sixteen keys a minute apart,
    fifteen wanted, the eighth target is 450.00000000000006 (the interval,
    900 / 14, is rounded up), nearer to 480 than to 420; in exact arithmetic
    the target is 450 and the scan keeps 420. *)
Example desample_sixteen_keys :
  let imageKey t := "c/" ++ Str.ofZ t ++ ".jpg" in
  desampleImageKeys (map (fun i => imageKey (60 * Z.of_nat i)) (seq 0 16)) 15
  = map imageKey [0; 60; 120; 180; 240; 300; 360; 480; 540; 600; 660; 720;
                  780; 840; 900].
Proof. vm_compute. reflexivity. Qed.

(* ================================================================== *)
(** * The queue *)
(* ================================================================== *)

Lemma insertOn_perm {A} (f : A -> Z) (x : A) (l : list A) :
  Permutation (insertOn f x l) (x :: l).
Proof.
  induction l as [|y l IH]; simpl; [reflexivity|].
  destruct (f x <=? f y); [reflexivity|].
  rewrite IH. apply perm_swap.
Qed.

Lemma orderBy_perm {A} (f : A -> Z) (l : list A) : Permutation (orderBy f l) l.
Proof.
  induction l as [|x l IH]; simpl; [reflexivity|].
  rewrite insertOn_perm. now constructor.
Qed.

Lemma getWaitingAnimations_In (now : Instant) (queue : Queue) (r : GifCreationQueue) :
  In r (getWaitingAnimations now queue) <-> In r queue /\ isWaiting now r = true.
Proof.
  unfold getWaitingAnimations. rewrite <- filter_In. split; intros H.
  - eapply Permutation_in; [apply orderBy_perm | exact H].
  - eapply Permutation_in; [symmetry; apply orderBy_perm | exact H].
Qed.

(** Rows with a primary key: equal ids, equal rows. *)
Lemma same_id_same_row (queue : Queue) (a b : GifCreationQueue) :
  NoDup (map Row.id queue) -> In a queue -> In b queue ->
  Row.id a = Row.id b -> a = b.
Proof.
  induction queue as [|r queue IH]; intros Hnd Ha Hb E; [destruct Ha|].
  simpl in Hnd. inversion Hnd as [|? ? Hnot Hnd']; subst.
  destruct Ha as [-> | Ha], Hb as [-> | Hb].
  - reflexivity.
  - exfalso. apply Hnot. rewrite E. now apply in_map.
  - exfalso. apply Hnot. rewrite <- E. now apply in_map.
  - now apply IH.
Qed.

Lemma getWaitingAnimations_NoDup (now : Instant) (queue : Queue) :
  NoDup (map Row.id queue) ->
  NoDup (map Row.id (getWaitingAnimations now queue)).
Proof.
  intros Hnd. unfold getWaitingAnimations.
  eapply Permutation_NoDup.
  - apply Permutation_map. symmetry. apply orderBy_perm.
  - induction queue as [|r queue IH]; simpl; [constructor|].
    simpl in Hnd. inversion Hnd as [|? ? Hnot Hnd']; subst.
    destruct (isWaiting now r); [|now apply IH].
    simpl. constructor; [|now apply IH].
    intros Hin. apply Hnot. apply in_map_iff in Hin as [x [E Hx]].
    apply filter_In in Hx as [Hx _]. rewrite <- E. now apply in_map.
Qed.

Section Batch.

(** A loop body that updates the row with the id of the batch member, and
    leaves the id alone. *)
Variable process : Queue -> GifCreationQueue -> Queue.
Hypothesis process_update :
  forall a, exists set,
    (forall r, Row.id (set r) = Row.id r) /\
    forall queue, process queue a = updateWhereId (Row.id a) set queue.

Lemma fold_batch (batch : list GifCreationQueue) :
  forall queue,
    NoDup (map Row.id batch) ->
    fold_left process batch queue = map (applyBatch process batch) queue.
Proof.
  induction batch as [|a batch IH]; intros queue Hnd; simpl.
  - now rewrite map_id.
  - simpl in Hnd. inversion Hnd as [|? ? Hnot Hnd']; subst.
    rewrite (IH _ Hnd').
    destruct (process_update a) as (set & Hid & Hset).
    rewrite Hset. unfold updateWhereId. rewrite map_map.
    apply map_ext. intros r. unfold applyBatch at 2. simpl.
    rewrite (Z.eqb_sym (Row.id a) (Row.id r)).
    destruct (Z.eqb_spec (Row.id r) (Row.id a)) as [E|E].
    + rewrite Hset. unfold updateWhereId. simpl.
      rewrite (proj2 (Z.eqb_eq _ _) E). simpl.
      unfold applyBatch.
      destruct (find (fun a0 => Row.id a0 =? Row.id (set r)) batch) as [b|] eqn:F;
        [|reflexivity].
      exfalso. apply find_some in F as [Hb Eb]. apply Z.eqb_eq in Eb.
      apply Hnot. rewrite <- E, <- (Hid r), <- Eb. now apply in_map.
    + reflexivity.
Qed.

End Batch.

Section FinalizationFacts.

Variable webcams : list WebcamDto.
Variable getImagesForTimeRange : WebcamDto -> Z -> Z -> Attempt (list Image).
Variable clock : Instant.

Let process := processAnimation webcams getImagesForTimeRange clock.
Let alone := processedAlone webcams getImagesForTimeRange clock.

Lemma setImages_id st keys err r :
  Row.id (setImages clock st keys err r) = Row.id r.
Proof. reflexivity. Qed.

(** A turn of the loop is one update of the row of the animation. *)
Lemma processAnimation_update (a : GifCreationQueue) :
  exists set,
    (forall r, Row.id (set r) = Row.id r) /\
    forall queue, process queue a = updateWhereId (Row.id a) set queue.
Proof.
  unfold process, processAnimation, tryProcess.
  destruct (getWebcamById webcams (Row.webcamId a)) as [w|].
  2: { eexists. split; [|intros queue; reflexivity]. apply setImages_id. }
  destruct ((Row.startTime a =? 0) || (Row.endTime a =? 0)).
  { eexists. split; [|intros queue; reflexivity]. apply setImages_id. }
  destruct (getImagesForTimeRange w (Row.startTime a) (Row.endTime a)) as [images|e].
  2: { eexists. split; [|intros queue; reflexivity]. apply setImages_id. }
  cbv zeta. destruct (hasMinimumImages _ _);
    (eexists; split; [|intros queue; reflexivity]; apply setImages_id).
Qed.

(** The whole pass: every waiting row whose time has come is replaced by
    what its own turn of the loop makes of it, every other row is kept. *)
Lemma prepare_rows (queue : Queue) (now : Instant) :
  NoDup (map Row.id queue) ->
  prepareAnimationsForPendingQueue webcams getImagesForTimeRange clock queue now
  = map (fun r => if isWaiting now r then alone r else r) queue.
Proof.
  intros Hnd. unfold prepareAnimationsForPendingQueue. fold process.
  rewrite (fold_batch process processAnimation_update)
    by now apply getWaitingAnimations_NoDup.
  apply map_ext_in. intros r Hr. unfold applyBatch.
  destruct (find _ _) as [a|] eqn:F.
  - apply find_some in F as [Ha E]. apply Z.eqb_eq in E.
    apply getWaitingAnimations_In in Ha as [Ha Hw].
    assert (a = r) by now apply (same_id_same_row queue). subst a.
    now rewrite Hw.
  - destruct (isWaiting now r) eqn:Hw; [|reflexivity].
    exfalso. assert (Hin : In r (getWaitingAnimations now queue))
      by now apply getWaitingAnimations_In.
    pose proof (find_none _ _ F r Hin) as Hf. simpl in Hf.
    rewrite Z.eqb_refl in Hf. discriminate.
Qed.

Lemma processedAlone_update (r : GifCreationQueue) st keys err :
  (forall queue,
     process queue r = updateAnimationWithImages clock (Row.id r) st keys err queue) ->
  alone r = setImages clock st keys err r.
Proof.
  intros H. unfold alone, processedAlone. fold process. rewrite H.
  unfold updateAnimationWithImages, updateWhereId. simpl.
  now rewrite Z.eqb_refl.
Qed.

Lemma alone_webcam_missing (r : GifCreationQueue) :
  getWebcamById webcams (Row.webcamId r) = None ->
  alone r = setImages clock failed [] (Some "Webcam not found") r.
Proof.
  intros H. apply processedAlone_update. intros queue.
  unfold process, processAnimation, tryProcess. now rewrite H.
Qed.

Lemma alone_thrown (r : GifCreationQueue) (queue : Queue) (e : string) :
  tryProcess webcams getImagesForTimeRange clock r queue = Thrown e ->
  alone r = setImages clock failed [] (Some ("Processing error: " ++ e)) r.
Proof.
  intros H. apply processedAlone_update. intros queue'.
  unfold process, processAnimation.
  assert (E : tryProcess webcams getImagesForTimeRange clock r queue' = Thrown e).
  { revert H. unfold tryProcess.
    destruct (getWebcamById webcams (Row.webcamId r)); [|discriminate].
    destruct ((Row.startTime r =? 0) || (Row.endTime r =? 0)); [trivial|].
    destruct (getImagesForTimeRange _ _ _); [|trivial].
    cbv zeta. destruct (hasMinimumImages _ _); discriminate. }
  now rewrite E.
Qed.

Lemma alone_images (r : GifCreationQueue) (w : WebcamDto) (images : list Image) :
  getWebcamById webcams (Row.webcamId r) = Some w ->
  Row.startTime r <> 0 -> Row.endTime r <> 0 ->
  getImagesForTimeRange w (Row.startTime r) (Row.endTime r) = Returned images ->
  let imageKeys := map Image.objectName images in
  let selected :=
    desampleImageKeys imageKeys (totalImagesFor (Row.gifType r) imageKeys) in
  alone r =
    if hasMinimumImages (Row.gifType r) (Z.of_nat (List.length selected))
    then setImages clock pending selected None r
    else setImages clock failed []
           (Some (insufficientImages (Z.of_nat (List.length selected))
                    (Z.of_nat (List.length imageKeys)) (Row.gifType r))) r.
Proof.
  intros Hw Hs He Hi imageKeys selected.
  assert (Ht : (Row.startTime r =? 0) || (Row.endTime r =? 0) = false).
  { apply orb_false_iff. split; now apply Z.eqb_neq. }
  destruct (hasMinimumImages (Row.gifType r) (Z.of_nat (List.length selected))) eqn:Hm;
    apply processedAlone_update; intros queue;
    unfold process, processAnimation, tryProcess;
    rewrite Hw, Ht, Hi; cbv zeta; fold imageKeys; fold selected; now rewrite Hm.
Qed.

(** A processed row is ready for the encoder or failed. *)
Lemma alone_status (r : GifCreationQueue) :
  Row.status (alone r) = pending \/ Row.status (alone r) = failed.
Proof.
  destruct (processAnimation_update r) as (set & _ & _).
  unfold alone, processedAlone, processAnimation, tryProcess.
  destruct (getWebcamById webcams (Row.webcamId r)) as [w|].
  2: { simpl. rewrite Z.eqb_refl. now right. }
  destruct ((Row.startTime r =? 0) || (Row.endTime r =? 0)).
  { simpl. rewrite Z.eqb_refl. now right. }
  destruct (getImagesForTimeRange w (Row.startTime r) (Row.endTime r)) as [images|e].
  2: { simpl. rewrite Z.eqb_refl. now right. }
  cbv zeta. destruct (hasMinimumImages _ _); simpl; rewrite Z.eqb_refl;
    [now left | now right].
Qed.

End FinalizationFacts.

(* ------------------------------------------------------------------ *)
(** ** C4 and C5: advancing the waiting jobs *)

(** C4.  When a waiting entry is advanced (its webcam exists, it has a
    capture window and the image query returns), the entry moves to ready
    (status pending) with the desampled key list as its image list if the
    number of desampled keys meets the minimum of its type (hourly 5,
    sunrise 3, sunset 3, full_day 10, on_demand 3); otherwise it moves to
    failed with a message that carries the desampled and the raw image
    count.  hasMinimumImages('hourly', 4) is false and
    hasMinimumImages('hourly', 5) is true. *)
Theorem advancement_checks_minimum
    (webcams : list WebcamDto)
    (getImagesForTimeRange : WebcamDto -> Z -> Z -> Attempt (list Image))
    (clock now : Instant) (queue : Queue)
    (r : GifCreationQueue) (w : WebcamDto) (images : list Image) :
  NoDup (map Row.id queue) ->
  In r queue -> isWaiting now r = true ->
  getWebcamById webcams (Row.webcamId r) = Some w ->
  Row.startTime r <> 0 -> Row.endTime r <> 0 ->
  getImagesForTimeRange w (Row.startTime r) (Row.endTime r) = Returned images ->
  let imageKeys := map Image.objectName images in
  let selected :=
    desampleImageKeys imageKeys (totalImagesFor (Row.gifType r) imageKeys) in
  let selectedCount := Z.of_nat (List.length selected) in
  let rawCount := Z.of_nat (List.length imageKeys) in
  let queue' :=
    prepareAnimationsForPendingQueue webcams getImagesForTimeRange clock queue now in
  (minimums hourly = 5 /\ minimums sunrise = 3 /\ minimums sunset = 3 /\
   minimums full_day = 10 /\ minimums on_demand = 3) /\
  (minimums (Row.gifType r) <= selectedCount ->
   exists r', In r' queue' /\ Row.id r' = Row.id r /\
     Row.status r' = pending /\ Row.imageList r' = selected) /\
  (selectedCount < minimums (Row.gifType r) ->
   exists r', In r' queue' /\ Row.id r' = Row.id r /\
     Row.status r' = failed /\
     Row.errorMessage r' =
       Some ("Insufficient images: found " ++ Str.ofZ selectedCount
             ++ " after desampling from " ++ Str.ofZ rawCount
             ++ ", required minimum for " ++ typeName (Row.gifType r))) /\
  hasMinimumImages hourly 4 = false /\ hasMinimumImages hourly 5 = true.
Proof.
  intros Hnd Hin Hw Hcam Hs He Himg imageKeys selected selectedCount rawCount queue'.
  split; [repeat split; reflexivity|].
  assert (Hq : In (processedAlone webcams getImagesForTimeRange clock r) queue').
  { unfold queue'. rewrite prepare_rows by assumption.
    apply in_map_iff. exists r. now rewrite Hw. }
  rewrite (alone_images webcams getImagesForTimeRange clock r w images
             Hcam Hs He Himg) in Hq.
  fold imageKeys selected selectedCount rawCount in Hq.
  unfold hasMinimumImages in Hq.
  split; [|split; [|split; reflexivity]].
  - intros Hmin. destruct (Z.geb_spec selectedCount (minimums (Row.gifType r))); [|lia].
    eexists. split; [exact Hq|]. repeat split; reflexivity.
  - intros Hmin. destruct (Z.geb_spec selectedCount (minimums (Row.gifType r))); [lia|].
    eexists. split; [exact Hq|]. repeat split; reflexivity.
Qed.

Lemma advancement_checks_minimum_witness :
  let queue' :=
    prepareAnimationsForPendingQueue [Sample.denverCam] Sample.imageQuery
      Sample.clock Sample.queue Sample.now in
  (exists r', In r' queue' /\ Row.id r' = 1 /\ Row.status r' = pending /\
     List.length (Row.imageList r') = 6%nat) /\
  (exists r', In r' queue' /\ Row.id r' = 2 /\ Row.status r' = failed /\
     Row.errorMessage r' =
       Some "Insufficient images: found 6 after desampling from 6, required minimum for full_day").
Proof.
  intros queue'. split.
  - destruct (advancement_checks_minimum [Sample.denverCam] Sample.imageQuery
                Sample.clock Sample.now Sample.queue Sample.hourlyJob
                Sample.denverCam (imagesForTimeRange Sample.images Sample.denverCam
                                    1758722400 1758726000))
      as (_ & Hready & _).
    + repeat constructor; simpl; intuition discriminate.
    + simpl. auto.
    + reflexivity.
    + reflexivity.
    + discriminate.
    + discriminate.
    + reflexivity.
    + destruct Hready as (r' & Hin & Hid & Hst & Hl); [vm_compute; discriminate|].
      exists r'. repeat split; try assumption. rewrite Hl. reflexivity.
  - destruct (advancement_checks_minimum [Sample.denverCam] Sample.imageQuery
                Sample.clock Sample.now Sample.queue Sample.fullDayJob
                Sample.denverCam (imagesForTimeRange Sample.images Sample.denverCam
                                    1758722400 1758726000))
      as (_ & _ & Hfail & _).
    + repeat constructor; simpl; intuition discriminate.
    + simpl. auto.
    + reflexivity.
    + reflexivity.
    + discriminate.
    + discriminate.
    + reflexivity.
    + destruct Hfail as (r' & Hin & Hid & Hst & Hm); [vm_compute; reflexivity|].
      exists r'. repeat split; try assumption.
Defined.

(** C5.  Queue advancement isolates the failures of single entries: after
    the pass every candidate of the batch is what its own processing makes
    of it, whatever happens to the others, and every other row is
    untouched; a candidate whose webcam is missing is failed with the
    message "Webcam not found", a candidate whose processing throws is
    failed with the message of the exception, and every candidate has been
    processed (it is pending or failed). *)
Theorem advancement_isolates_failures
    (webcams : list WebcamDto)
    (getImagesForTimeRange : WebcamDto -> Z -> Z -> Attempt (list Image))
    (clock now : Instant) (queue : Queue) :
  NoDup (map Row.id queue) ->
  let queue' :=
    prepareAnimationsForPendingQueue webcams getImagesForTimeRange clock queue now in
  queue' =
    map (fun r => if isWaiting now r
                  then processedAlone webcams getImagesForTimeRange clock r
                  else r) queue /\
  forall r, In r queue -> isWaiting now r = true ->
    (exists r', In r' queue' /\ Row.id r' = Row.id r /\
       (Row.status r' = pending \/ Row.status r' = failed)) /\
    (getWebcamById webcams (Row.webcamId r) = None ->
     exists r', In r' queue' /\ Row.id r' = Row.id r /\
       Row.status r' = failed /\ Row.imageList r' = [] /\
       Row.errorMessage r' = Some "Webcam not found") /\
    (forall q e,
       tryProcess webcams getImagesForTimeRange clock r q = Thrown e ->
       exists r', In r' queue' /\ Row.id r' = Row.id r /\
         Row.status r' = failed /\ Row.imageList r' = [] /\
         Row.errorMessage r' = Some ("Processing error: " ++ e)).
Proof.
  intros Hnd queue'.
  assert (Hrows := prepare_rows webcams getImagesForTimeRange clock queue now Hnd).
  fold queue' in Hrows. split; [exact Hrows|].
  intros r Hin Hw.
  assert (Hq : In (processedAlone webcams getImagesForTimeRange clock r) queue').
  { rewrite Hrows. apply in_map_iff. exists r. now rewrite Hw. }
  split; [|split].
  - eexists. split; [exact Hq|]. split.
    + unfold processedAlone.
      destruct (processAnimation_update webcams getImagesForTimeRange clock r)
        as (set & Hid & Hset).
      rewrite Hset. unfold updateWhereId. simpl. rewrite Z.eqb_refl. apply Hid.
    + apply alone_status.
  - intros Hcam. rewrite alone_webcam_missing in Hq by assumption.
    eexists. split; [exact Hq|]. repeat split; reflexivity.
  - intros q e He. rewrite (alone_thrown _ _ _ r q e He) in Hq.
    eexists. split; [exact Hq|]. repeat split; reflexivity.
Qed.

Lemma advancement_isolates_failures_witness :
  prepareAnimationsForPendingQueue [Sample.denverCam] Sample.imageQuery
    Sample.clock Sample.queue Sample.now
  = map (fun r => if isWaiting Sample.now r
                  then processedAlone [Sample.denverCam] Sample.imageQuery
                         Sample.clock r
                  else r) Sample.queue.
Proof.
  apply (advancement_isolates_failures [Sample.denverCam] Sample.imageQuery
           Sample.clock Sample.now Sample.queue).
  repeat constructor; simpl; intuition discriminate.
Defined.

(** The pass over the sample table: one job ready, one short of images, one
    without its webcam, one that throws, and the pending job untouched. *)
Example advancement_sample :
  map (fun r => (Row.id r, Row.status r, Row.errorMessage r))
    (prepareAnimationsForPendingQueue [Sample.denverCam] Sample.imageQuery
       Sample.clock Sample.queue Sample.now)
  = [(1, pending, None);
     (2, failed, Some "Insufficient images: found 6 after desampling from 6, required minimum for full_day");
     (3, failed, Some "Webcam not found");
     (4, failed, Some "Processing error: start or end time not defined");
     (5, pending, None)].
Proof. vm_compute. reflexivity. Qed.

(** With an image query that throws for every job, every job with a webcam
    and a window fails on its own and the pass still reaches the last one. *)
Example advancement_broken_query :
  map (fun r => (Row.id r, Row.status r, Row.errorMessage r))
    (prepareAnimationsForPendingQueue [Sample.denverCam] Sample.brokenQuery
       Sample.clock Sample.queue Sample.now)
  = [(1, failed, Some "Processing error: D1_ERROR");
     (2, failed, Some "Processing error: D1_ERROR");
     (3, failed, Some "Webcam not found");
     (4, failed, Some "Processing error: start or end time not defined");
     (5, pending, None)].
Proof. vm_compute. reflexivity. Qed.

(* ------------------------------------------------------------------ *)
(** ** C6: marking a job complete *)

Lemma find_id_In (queue : Queue) (entry : GifCreationQueue) :
  NoDup (map Row.id queue) -> In entry queue ->
  find (fun r => Row.id r =? Row.id entry) queue = Some entry.
Proof.
  intros Hnd Hin.
  destruct (find _ queue) as [r|] eqn:F.
  - apply find_some in F as [Hr E]. apply Z.eqb_eq in E.
    f_equal. now apply (same_id_same_row queue).
  - pose proof (find_none _ _ F entry Hin) as Hf. simpl in Hf.
    rewrite Z.eqb_refl in Hf. discriminate.
Qed.

Lemma find_id_absent (queue : Queue) (id : Z) :
  (forall r, In r queue -> Row.id r <> id) ->
  find (fun r => Row.id r =? id) queue = None.
Proof.
  intros H. destruct (find _ queue) as [r|] eqn:F; [|reflexivity].
  apply find_some in F as [Hr E]. apply Z.eqb_eq in E. now apply H in Hr.
Qed.

(** C6.  Marking a job complete: with no entry of that id the operation
    fails with the not-found message and changes nothing; with an entry
    that is not in the pending state it fails with a message that names the
    status the entry has, different from the not-found message, and changes
    nothing; with a pending entry it succeeds, and that entry, and no
    other, becomes completed with its processed timestamp set. *)
Theorem markAnimationCompleted_spec (clock : Instant) (id : Z) (queue : Queue) :
  NoDup (map Row.id queue) ->
  let result := fst (markAnimationCompleted clock id queue) in
  let queue' := snd (markAnimationCompleted clock id queue) in
  ((forall r, In r queue -> Row.id r <> id) ->
   success result = false /\
   message result = "Animation queue entry with ID " ++ Str.ofZ id ++ " not found" /\
   queue' = queue) /\
  (forall entry, In entry queue -> Row.id entry = id ->
     (Row.status entry <> pending ->
      success result = false /\
      message result = "Animation is not in pending status. Current status: "
                       ++ statusName (Row.status entry) /\
      message result <> "Animation queue entry with ID " ++ Str.ofZ id ++ " not found" /\
      queue' = queue) /\
     (Row.status entry = pending ->
      success result = true /\
      queue' = map (fun r => if Row.id r =? id then setCompleted clock r else r) queue /\
      (exists r', In r' queue' /\ Row.id r' = id /\
         Row.status r' = completed /\ Row.processedAt r' = Some clock) /\
      (forall r, In r queue -> Row.id r <> id -> In r queue'))).
Proof.
  intros Hnd result queue'. unfold result, queue', markAnimationCompleted.
  split.
  - intros Habs. rewrite (find_id_absent queue id Habs). simpl. auto.
  - intros entry Hin <-. rewrite (find_id_In queue entry Hnd Hin). split.
    + intros Hst.
      assert (E : AnimationStatus_eqb (Row.status entry) pending = false)
        by (destruct (Row.status entry); simpl; congruence).
      rewrite E. simpl. repeat split; try reflexivity. discriminate.
    + intros Hst. rewrite Hst. simpl.
      split; [reflexivity|]. split; [reflexivity|]. split.
      * exists (setCompleted clock entry). split; [|repeat split].
        unfold updateWhereId. apply in_map_iff. exists entry.
        now rewrite Z.eqb_refl.
      * intros r Hr Hne. unfold updateWhereId. apply in_map_iff. exists r.
        apply Z.eqb_neq in Hne. now rewrite Hne.
Qed.

Lemma markAnimationCompleted_spec_witness :
  (let result := fst (markAnimationCompleted Sample.clock 42 Sample.queue) in
   success result = false /\
   message result = "Animation queue entry with ID 42 not found") /\
  (let result := fst (markAnimationCompleted Sample.clock 1 Sample.queue) in
   success result = false /\
   message result =
     "Animation is not in pending status. Current status: waiting_for_images" /\
   snd (markAnimationCompleted Sample.clock 1 Sample.queue) = Sample.queue) /\
  (let result := fst (markAnimationCompleted Sample.clock 5 Sample.queue) in
   success result = true /\
   exists r', In r' (snd (markAnimationCompleted Sample.clock 5 Sample.queue)) /\
     Row.id r' = 5 /\ Row.status r' = completed /\
     Row.processedAt r' = Some Sample.clock).
Proof.
  assert (Hnd : NoDup (map Row.id Sample.queue))
    by (repeat constructor; simpl; intuition discriminate).
  split; [|split].
  - destruct (markAnimationCompleted_spec Sample.clock 42 Sample.queue Hnd)
      as [Habs _].
    destruct Habs as (Hs & Hm & _).
    + intros r Hr. simpl in Hr.
      repeat (destruct Hr as [<- | Hr]; [discriminate|]). destruct Hr.
    + split; [exact Hs | exact Hm].
  - destruct (markAnimationCompleted_spec Sample.clock 1 Sample.queue Hnd)
      as [_ Hent].
    destruct (Hent Sample.hourlyJob) as [Hconf _]; [simpl; auto | reflexivity|].
    destruct Hconf as (Hs & Hm & _ & Hq); [discriminate|].
    split; [exact Hs|]. split; [exact Hm | exact Hq].
  - destruct (markAnimationCompleted_spec Sample.clock 5 Sample.queue Hnd)
      as [_ Hent].
    destruct (Hent Sample.pendingJob) as [_ Hok]; [simpl; auto 6 | reflexivity|].
    destruct Hok as (Hs & _ & Hr & _); [reflexivity|].
    split; [exact Hs | exact Hr].
Defined.

(* ================================================================== *)
(** * The scheduler *)
(* ================================================================== *)

Section SchedulerFacts.

Context {E : Environment}.

(** The loop over the hours leaves by its condition: more fuel changes
    nothing. *)
Lemma hourlyLoop_fuel (clock : Instant) (webcam : WebcamDto) (fuel : nat) :
  forall currentHour lightEndHour,
    (hourlyFuel currentHour lightEndHour <= fuel)%nat ->
    hourlyLoop clock webcam fuel currentHour lightEndHour
    = hourlyLoop clock webcam (hourlyFuel currentHour lightEndHour)
        currentHour lightEndHour.
Proof.
  assert (Hh : 0 < hourMillis) by reflexivity.
  induction fuel as [|fuel IH]; intros c e Hf.
  - replace (hourlyFuel c e) with 0%nat by lia. reflexivity.
  - destruct (Z.ltb_spec c e) as [Hlt|Hge].
    + assert (Hs : hourlyFuel c e = S (hourlyFuel (c + hourMillis) e)).
      { unfold hourlyFuel.
        replace (e - c) with ((e - (c + hourMillis)) + 1 * hourMillis) by ring.
        rewrite Z.div_add by lia.
        assert (-1 <= (e - (c + hourMillis)) / hourMillis)
          by (apply Z.div_le_lower_bound; lia).
        lia. }
      rewrite Hs. cbn [hourlyLoop].
      destruct (c <? e); [|reflexivity].
      f_equal. apply IH. lia.
    + cbn [hourlyLoop].
      assert (Hc : (c <? e) = false) by now apply Z.ltb_ge.
      rewrite Hc. destruct (hourlyFuel c e); [reflexivity|].
      cbn [hourlyLoop]. now rewrite Hc.
Qed.

(** Every animation of the scheduler is an entry made for the webcam. *)
Lemma hourlyLoop_entries (clock : Instant) (webcam : WebcamDto) (fuel : nat) :
  forall currentHour lightEndHour a,
    In a (hourlyLoop clock webcam fuel currentHour lightEndHour) ->
    exists scheduledTime startTime endTime,
      a = createAnimationEntry clock webcam hourly scheduledTime startTime endTime.
Proof.
  induction fuel as [|fuel IH]; intros c e a Hin; [destruct Hin|].
  cbn [hourlyLoop] in Hin. destruct (c <? e); [|destruct Hin].
  apply in_app_or in Hin as [Hin | Hin]; [|now apply IH in Hin].
  destruct (c + hourMillis <=? e); [|destruct Hin].
  destruct Hin as [<- | []]. now eexists _, _, _.
Qed.

Lemma animationsForWebcam_entries (clock : Instant) (dateString : string)
    (webcam : WebcamDto) (a : AnimationQueueEntry) :
  In a (animationsForWebcam clock dateString webcam) ->
  exists animationType scheduledTime startTime endTime,
    a = createAnimationEntry clock webcam animationType scheduledTime
          startTime endTime.
Proof.
  unfold animationsForWebcam.
  destruct (negb (truthy (Webcam.latLon webcam))); [intros []|].
  destruct (negb (truthy (Webcam.timezone webcam))); [intros []|].
  destruct (calculateWebcamSolarTimes _ _) as [t|]; [|intros []].
  cbv zeta. intros Hin.
  repeat (apply in_app_or in Hin as [Hin | Hin]).
  - destruct (_ && _); [|destruct Hin].
    destruct (Num.sub _ _) as [ls|]; [|destruct Hin].
    destruct (Num.add _ _) as [se|]; [|destruct Hin].
    destruct Hin as [<- | []]. now eexists _, _, _, _.
  - destruct (_ && _); [|destruct Hin].
    destruct (Num.sub _ _) as [ss|]; [|destruct Hin].
    destruct (Num.add _ _) as [le|]; [|destruct Hin].
    destruct Hin as [<- | []]. now eexists _, _, _, _.
  - destruct (_ && _); [|destruct Hin].
    destruct (Num.sub _ _) as [ls|]; [|destruct Hin].
    destruct (Num.add _ _) as [le|]; [|destruct Hin].
    destruct Hin as [<- | []]. now eexists _, _, _, _.
  - destruct (_ && _); [|destruct Hin].
    destruct (Num.sub _ _) as [ls|]; [|destruct Hin].
    destruct (Num.add _ _) as [le|]; [|destruct Hin].
    destruct (Solar.firstLight t) as [fl|]; [|destruct Hin].
    apply hourlyLoop_entries in Hin as (s & st & en & ->).
    now eexists _, _, _, _.
Qed.

End SchedulerFacts.

Section SchedulerClaims.

Context {E : Environment}.

(** What the condition of the sunrise block lets through: with lightStart
    and lightEnd both numbers, the sunrise job over [lightStart, sunriseEnd],
    scheduled one minute after sunriseEnd. *)
Lemma sunrise_job_emitted (clock : Instant) (dateString : string)
    (webcam : WebcamDto) (t : SolarTimes) (ls se le : Q) :
  truthy (Webcam.latLon webcam) = true ->
  truthy (Webcam.timezone webcam) = true ->
  calculateWebcamSolarTimes (Webcam.latLon webcam) (anchorOfDay dateString) = Some t ->
  Window.lightStart t = Some ls -> Window.sunriseEnd t = Some se ->
  Window.lightEnd t = Some le ->
  In (createAnimationEntry clock webcam sunrise
        (Num.truncate (se + inject_Z 60000))
        (Qfloor (ls / 1000)) (Qfloor (se / 1000)))
     (animationsForWebcam clock dateString webcam).
Proof.
  intros Hl Hz Ht Hls Hse Hle. unfold animationsForWebcam.
  rewrite Hl, Hz, Ht. cbv zeta. cbn [negb].
  unfold Window.lightStart, Window.sunriseEnd, Window.lightEnd,
    Window.sunriseDuration, Window.sunsetDuration in Hls, Hse, Hle.
  unfold quarter. rewrite Hls, Hse, Hle. cbn [Num.isNaN negb andb].
  apply in_or_app. left. now left.
Qed.

(** lightStart is a number only if sunriseEnd is one. *)
Lemma lightStart_sunriseEnd (t : SolarTimes) :
  Num.isNaN (Window.lightStart t) = false ->
  Num.isNaN (Window.sunriseEnd t) = false.
Proof.
  unfold Window.lightStart, Window.sunriseEnd, Window.sunriseDuration.
  destruct (Solar.sunrise t), (Solar.firstLight t); simpl; congruence.
Qed.

(** When the day has its sunset and last light exactly when it has its
    sunrise and first light, lightEnd is a number exactly when lightStart
    is, and the condition of the sunrise block lets the job through. *)
Lemma lightEnd_of_symmetric_times (t : SolarTimes) :
  Num.isNaN (Solar.sunset t) = Num.isNaN (Solar.sunrise t) ->
  Num.isNaN (Solar.lastLight t) = Num.isNaN (Solar.firstLight t) ->
  Num.isNaN (Window.lightEnd t) = Num.isNaN (Window.lightStart t).
Proof.
  unfold Window.lightEnd, Window.lightStart, Window.sunriseDuration,
    Window.sunsetDuration.
  destruct (Solar.sunrise t), (Solar.sunset t), (Solar.firstLight t),
    (Solar.lastLight t); simpl; congruence.
Qed.

Lemma createAnimationEntry_storage_key (clock : Instant) (webcam : WebcamDto)
    (animationType : AnimationType) (scheduledTime : Instant) (startTime endTime : Z) :
  animationType <> hourly ->
  Entry.gif_storage_key
    (createAnimationEntry clock webcam animationType scheduledTime startTime endTime)
  = Some ("gifs/" ++ orElse (Webcam.nationalPark webcam) "unknown" ++ "/"
          ++ Webcam.name webcam ++ "/" ++ typeName animationType ++ "/"
          ++ Str.ofZ scheduledTime ++ ".mp4").
Proof.
  intros Hne. unfold createAnimationEntry, generateAnimationStorageKey. simpl.
  destruct animationType; simpl; congruence.
Qed.

(** What the scheduler puts into the storage key of a job, the hourly jobs
    apart: gifs/{nationalPark}/{webcamName}/{type}/{scheduledTime}.mp4,
    where {nationalPark} is "unknown" for a webcam without a park and
    {scheduledTime} is the scheduled time of the job in milliseconds since
    the epoch, in decimal. *)
Lemma scheduled_job_storage_key (clock : Instant) (dateString : string)
    (webcam : WebcamDto) (a : AnimationQueueEntry) :
  In a (animationsForWebcam clock dateString webcam) ->
  Entry.gif_type a <> hourly ->
  Entry.gif_storage_key a
  = Some ("gifs/" ++ orElse (Webcam.nationalPark webcam) "unknown" ++ "/"
          ++ Webcam.name webcam ++ "/" ++ typeName (Entry.gif_type a) ++ "/"
          ++ Str.ofZ (Entry.scheduled_time a) ++ ".mp4").
Proof.
  intros Hin Hne.
  apply animationsForWebcam_entries in Hin as (ty & s & st & en & ->).
  now apply createAnimationEntry_storage_key.
Qed.

(* ------------------------------------------------------------------ *)
(** ** Scheduling twice *)

Lemma hourlyLoop_keys (c1 c2 : Instant) (webcam : WebcamDto) (fuel : nat) :
  forall currentHour lightEndHour,
    map Entry.reference_id (hourlyLoop c1 webcam fuel currentHour lightEndHour)
    = map Entry.reference_id (hourlyLoop c2 webcam fuel currentHour lightEndHour).
Proof.
  induction fuel as [|fuel IH]; intros c e; [reflexivity|].
  cbn [hourlyLoop]. destruct (c <? e); [|reflexivity].
  rewrite !map_app, IH. destruct (c + hourMillis <=? e); reflexivity.
Qed.

(** The reference keys do not depend on the clock of the run. *)
Lemma animationsForWebcam_keys (c1 c2 : Instant) (dateString : string)
    (webcam : WebcamDto) :
  map Entry.reference_id (animationsForWebcam c1 dateString webcam)
  = map Entry.reference_id (animationsForWebcam c2 dateString webcam).
Proof.
  unfold animationsForWebcam.
  destruct (negb (truthy (Webcam.latLon webcam))); [reflexivity|].
  destruct (negb (truthy (Webcam.timezone webcam))); [reflexivity|].
  destruct (calculateWebcamSolarTimes _ _) as [t|]; [|reflexivity].
  cbv zeta.
  generalize (Num.sub (Solar.firstLight t)
                (Num.mul quarter (Num.sub (Solar.sunrise t) (Solar.firstLight t)))).
  generalize (Num.add (Solar.sunrise t)
                (Num.mul quarter (Num.sub (Solar.sunrise t) (Solar.firstLight t)))).
  generalize (Num.sub (Solar.sunset t)
                (Num.mul quarter (Num.sub (Solar.lastLight t) (Solar.sunset t)))).
  generalize (Num.add (Solar.lastLight t)
                (Num.mul quarter (Num.sub (Solar.lastLight t) (Solar.sunset t)))).
  intros le ss se ls.
  destruct ls, se, ss, le, (Solar.firstLight t);
    cbn [Num.isNaN negb andb app map]; try reflexivity;
    rewrite (hourlyLoop_keys c1 c2); reflexivity.
Qed.

Lemma animationsToCreate_keys (c1 c2 : Instant) (webcams : list WebcamDto)
    (dateString : string) :
  map Entry.reference_id (animationsToCreate c1 webcams dateString)
  = map Entry.reference_id (animationsToCreate c2 webcams dateString).
Proof.
  unfold animationsToCreate.
  induction (getEnabledWebcams webcams) as [|w l IH]; [reflexivity|].
  simpl. rewrite !map_app, IH. f_equal. apply animationsForWebcam_keys.
Qed.

Lemma persist_keys (animations : list AnimationQueueEntry) :
  forall queue,
    map Row.referenceId (persist animations queue)
    = (map Row.referenceId queue ++ map Entry.reference_id animations)%list.
Proof.
  unfold persist.
  induction animations as [|a l IH]; intros queue; simpl.
  - now rewrite app_nil_r.
  - rewrite IH. unfold insertRow. rewrite map_app, <- app_assoc. reflexivity.
Qed.

(** C1, as the code has it.  Scheduling is deterministic in its reference
    keys and does not deduplicate: persisting a generated job appends one
    queue row with its reference key whatever the queue holds, so a second
    run of createTodaysAnimations for the same date and webcams generates
    the same reference keys and adds every one of them a second time. *)
Theorem scheduling_twice_adds_rows (clock1 clock2 : Instant)
    (webcams : list WebcamDto) (queue queue1 queue2 : Queue) (dateString : string) :
  createTodaysAnimations clock1 webcams queue dateString = Returned queue1 ->
  createTodaysAnimations clock2 webcams queue1 dateString = Returned queue2 ->
  let keys :=
    map Entry.reference_id (animationsToCreate clock1 webcams dateString) in
  map Entry.reference_id (animationsToCreate clock2 webcams dateString) = keys /\
  (forall animation q,
     snd (addAnimationsToQueue [animation] q)
     = (q ++ [toInsert (nextId q) animation])%list) /\
  map Row.referenceId queue1 = (map Row.referenceId queue ++ keys)%list /\
  map Row.referenceId queue2 = (map Row.referenceId queue ++ keys ++ keys)%list.
Proof.
  unfold createTodaysAnimations.
  destruct (negb (dateRegex dateString)); [discriminate|].
  intros [= <-] [= <-].
  split; [apply animationsToCreate_keys|].
  split; [reflexivity|].
  rewrite !persist_keys. split; [reflexivity|].
  rewrite <- app_assoc. f_equal. f_equal. apply animationsToCreate_keys.
Qed.

End SchedulerClaims.

(** C8.  [generateAnimationStorageKey] builds
    gifs/{nationalPark}/{webcamName}/{type}/{dateStamp}[_{hourStr}].mp4, the
    form of the claim when it is handed the local date and hour, but
    [createAnimationEntry] hands it the scheduled time in milliseconds as
    the date stamp and no hour: the sunrise job of the Denver webcam for the
    local day 20250924 has the key .../sunrise/1758719070000.mp4 and the
    hourly job of hour 06 the key .../hourly/1758719100000_undefined.mp4,
    neither of the form of the claim, whatever the extension. *)
Theorem storage_key_of_scheduled_jobs :
  let jobs :=
    @animationsForWebcam SampleEnv.env Sample.clock "2025-09-24" Sample.denverCam in
  generateAnimationStorageKey "Rocky Mountain" "Denver Cam" hourly "20250924"
    (Some "06")
  = specStorageKey "Rocky Mountain" "Denver Cam" hourly "20250924" (Some "06") "mp4" /\
  exists a h,
    In a jobs /\ In h jobs /\
    Entry.gif_type a = sunrise /\ Entry.gif_type h = hourly /\
    @zoneDate SampleEnv.env (Entry.start_time a) "America/Denver" = "20250924" /\
    @zoneDate SampleEnv.env (Entry.start_time h) "America/Denver" = "20250924" /\
    @zoneHour SampleEnv.env (Entry.start_time h) "America/Denver" = "06" /\
    Entry.gif_storage_key a
    = Some "gifs/Rocky Mountain/Denver Cam/sunrise/1758719070000.mp4" /\
    Entry.gif_storage_key h
    = Some "gifs/Rocky Mountain/Denver Cam/hourly/1758719100000_undefined.mp4" /\
    (forall ext,
       Entry.gif_storage_key a
       <> Some (specStorageKey "Rocky Mountain" "Denver Cam" sunrise
                  "20250924" None ext)) /\
    (forall ext,
       Entry.gif_storage_key h
       <> Some (specStorageKey "Rocky Mountain" "Denver Cam" hourly
                  "20250924" (Some "06") ext)).
Proof.
  intros jobs. split; [reflexivity|].
  eexists. eexists.
  split; [left; reflexivity|].
  split; [do 3 right; left; reflexivity|].
  repeat (split; [reflexivity|]).
  split; intros ext; vm_compute; discriminate.
Qed.

Lemma scheduling_twice_adds_rows_witness :
  exists queue1 queue2,
    @createTodaysAnimations SampleEnv.env Sample.clock [Sample.denverCam] []
      "2025-09-24" = Returned queue1 /\
    @createTodaysAnimations SampleEnv.env Sample.now [Sample.denverCam] queue1
      "2025-09-24" = Returned queue2 /\
    List.length queue1 = 17%nat /\ List.length queue2 = 34%nat /\
    map Row.referenceId queue2
    = (map Row.referenceId queue1 ++ map Row.referenceId queue1)%list.
Proof.
  pose (queue1 :=
          persist (@animationsToCreate SampleEnv.env Sample.clock
                     [Sample.denverCam] "2025-09-24") []).
  pose (queue2 :=
          persist (@animationsToCreate SampleEnv.env Sample.now
                     [Sample.denverCam] "2025-09-24") queue1).
  exists queue1, queue2.
  split; [reflexivity|]. split; [reflexivity|].
  split; [vm_compute; reflexivity|]. split; [vm_compute; reflexivity|].
  destruct (@scheduling_twice_adds_rows SampleEnv.env Sample.clock Sample.now
              [Sample.denverCam] [] queue1 queue2 "2025-09-24" eq_refl eq_refl)
    as (_ & _ & H1 & H2).
  rewrite H2, H1. reflexivity.
Defined.

(** The claim C1 as the specification words it fails: after a second run
    for the same date the queue holds two rows with the reference key
    1_sunrise_20250924. *)
Lemma scheduling_twice_counterexample :
  exists queue1 queue2,
    @createTodaysAnimations SampleEnv.env Sample.clock [Sample.denverCam] []
      "2025-09-24" = Returned queue1 /\
    @createTodaysAnimations SampleEnv.env Sample.now [Sample.denverCam] queue1
      "2025-09-24" = Returned queue2 /\
    rowsWithKey "1_sunrise_20250924" queue1 = 1%nat /\
    rowsWithKey "1_sunrise_20250924" queue2 = 2%nat.
Proof.
  eexists. eexists.
  split; [vm_compute; reflexivity|]. split; [vm_compute; reflexivity|].
  split; vm_compute; reflexivity.
Qed.

(* ================================================================== *)
(** * The retention policies *)
(* ================================================================== *)

Lemma fold_no_days {A} (run : RetentionRun) (webcams : list A)
    (day : A -> RetentionRun -> Instant -> RetentionRun)
    (days : A -> list Instant) :
  (forall w, days w = []) ->
  fold_left (fun r w => fold_left (day w) (days w) r) webcams run = run.
Proof.
  intros Hd. induction webcams as [|w l IH]; simpl; [reflexivity|].
  now rewrite Hd.
Qed.

(** C9.  The solar noon and the sunset policy enumerate no day at all: for
    every set of webcams, every images table and every range [start, end]
    they compute no solar times, select no image and write nothing, where
    the claim asks for one selection for each webcam and local day of the
    range. *)
Theorem solar_noon_and_sunset_policies_select_nothing `{Environment}
    (webcams : list WebcamDto) (images : list Image) (startTime endTime : Z) :
  SolarNoonRetentionPolicy webcams images startTime endTime
  = {| table := images; selections := [] |} /\
  SunsetRetentionPolicy webcams images startTime endTime
  = {| table := images; selections := [] |}.
Proof.
  unfold SolarNoonRetentionPolicy, SunsetRetentionPolicy.
  split; apply fold_no_days; reflexivity.
Qed.

(** Three days of Denver images: nothing is selected. *)
Example retention_three_days :
  selections
    (@SolarNoonRetentionPolicy SampleEnv.env [Sample.denverCam] Sample.images
       1758672000 1758931199) = [] /\
  selections
    (@SunsetRetentionPolicy SampleEnv.env [Sample.denverCam] Sample.images
       1758672000 1758931199) = [].
Proof. split; reflexivity. Qed.

(** Marking complete is refused from the processing state too: pending is
    the only state it is accepted from. *)
Example markAnimationCompleted_processing :
  let queue := [Sample.job 6 1 sunset processing 1758760710 1758765930] in
  markAnimationCompleted Sample.clock 6 queue
  = ({| success := false;
        message := "Animation is not in pending status. Current status: processing";
        queue_entry_id := None; resultStatus := None |}, queue).
Proof. reflexivity. Qed.

(* ================================================================== *)
(** * Further properties of the code *)
(* ================================================================== *)

(* ------------------------------------------------------------------ *)
(** ** Printing and parsing numbers *)

Lemma string_of_uint_digits (d : Decimal.uint) :
  Str.all Str.isDigit (NilEmpty.string_of_uint d) = true.
Proof. induction d; simpl; auto. Qed.

Lemma string_of_uint_fold (d : Decimal.uint) (acc : Z) :
  fold_left (fun a c => 10 * a + Str.digitValue c)
    (list_ascii_of_string (NilEmpty.string_of_uint d)) acc
  = uintValue d acc.
Proof.
  revert acc. induction d; intros acc; cbn [NilEmpty.string_of_uint
    list_ascii_of_string fold_left uintValue]; [reflexivity | rewrite IHd; reflexivity ..].
Qed.

Lemma uintValue_pos (d : Decimal.uint) (p : positive) :
  uintValue d (Z.pos p) = Z.pos (Pos.of_uint_acc d p).
Proof.
  revert p. induction d; intros p; cbn [uintValue Pos.of_uint_acc];
    [reflexivity | rewrite <- IHd; f_equal; lia ..].
Qed.

Lemma uintValue_zero (d : Decimal.uint) :
  uintValue d 0 = Z.of_N (Pos.of_uint d).
Proof.
  induction d; cbn [uintValue Pos.of_uint]; [reflexivity | exact IHd | ..];
    match goal with
    | |- uintValue _ ?z = _ =>
        let v := eval compute in z in change z with v
    end; apply uintValue_pos.
Qed.

Lemma string_of_uint_not_empty (d : Decimal.uint) :
  d <> Decimal.Nil -> NilEmpty.string_of_uint d <> "".
Proof. destruct d; simpl; congruence. Qed.

(** A non-negative integer prints as a non-empty string of digits, which
    stand for it. *)
Lemma ofZ_nonneg (z : Z) :
  0 <= z ->
  Str.all Str.isDigit (Str.ofZ z) = true /\ Str.ofZ z <> "" /\
  Str.digitsValue (Str.ofZ z) = z.
Proof.
  intros Hz. unfold Str.ofZ. destruct z as [|p|p]; [now repeat split | | lia].
  cbn [Z.to_int NilZero.string_of_int].
  pose proof (DecimalPos.Unsigned.to_uint_nonnil p) as Hn.
  assert (E : NilZero.string_of_uint (Pos.to_uint p)
              = NilEmpty.string_of_uint (Pos.to_uint p))
    by (destruct (Pos.to_uint p); [congruence | reflexivity ..]).
  rewrite E. split; [apply string_of_uint_digits|].
  split; [now apply string_of_uint_not_empty|].
  unfold Str.digitsValue.
  now rewrite string_of_uint_fold, uintValue_zero, DecimalPos.Unsigned.of_to.
Qed.

Lemma all_impl (p q : ascii -> bool) (s : string) :
  (forall c, p c = true -> q c = true) ->
  Str.all p s = true -> Str.all q s = true.
Proof.
  intros Hpq. induction s as [|c s IH]; simpl; [trivial|].
  intros H. apply andb_true_iff in H as [Hc Hs].
  now rewrite (Hpq c Hc), IH.
Qed.

Lemma digit_not_slash (c : ascii) :
  Str.isDigit c = true -> negb (Ascii.eqb c "/") = true.
Proof.
  destruct c as [[] [] [] [] [] [] [] []]; vm_compute; intros H;
    first [reflexivity | discriminate H].
Qed.

Lemma span_whole (p : ascii -> bool) (s : string) :
  Str.all p s = true -> Str.span p s = (s, "").
Proof.
  induction s as [|c s IH]; simpl; [reflexivity|].
  intros H. apply andb_true_iff in H as [Hc Hs]. now rewrite Hc, IH.
Qed.

(** The timestamp of a key is read off its final segment. *)
Lemma extract_of_segment (imageKey seg : string) :
  finalSegment imageKey seg ->
  extractTimestampFromImageKey imageKey =
    match timestampMatch seg with
    | Some digits =>
        if Str.isEmpty digits then None else Some (parseInt digits)
    | None => None
    end.
Proof.
  intros H. apply finalSegment_unique in H. unfold extractTimestampFromImageKey.
  now rewrite <- H.
Qed.

(* ------------------------------------------------------------------ *)
(** ** The keys of captured images *)

Lemma guessExt_cases (contentType : string) :
  guessExt contentType = "" \/
  exists letters,
    guessExt contentType = "." ++ letters /\ letters <> "" /\
    Str.all Str.isLetter letters = true /\
    Str.all (fun c => negb (Ascii.eqb c "/")) ("." ++ letters) = true.
Proof.
  unfold guessExt.
  destruct (strIncludes contentType "jpeg");
    [right; exists "jpg"; repeat split; discriminate|].
  destruct (strIncludes contentType "png");
    [right; exists "png"; repeat split; discriminate|].
  destruct (strIncludes contentType "gif");
    [right; exists "gif"; repeat split; discriminate|].
  destruct (strIncludes contentType "webp");
    [right; exists "webp"; repeat split; discriminate|].
  now left.
Qed.

Lemma historyKey_segment (webcamName : string) (ts : Z) (contentType : string) :
  0 <= ts ->
  finalSegment (historyKey webcamName ts contentType)
    (Str.ofZ ts ++ guessExt contentType).
Proof.
  intros Hts. destruct (ofZ_nonneg ts Hts) as (Hd & _ & _). split.
  - rewrite all_append. apply andb_true_iff. split.
    + exact (all_impl _ _ _ digit_not_slash Hd).
    + destruct (guessExt_cases contentType) as [-> | (l & -> & _ & _ & H)];
        [reflexivity | exact H].
  - right. exists ("images/romo/" ++ webcamName). unfold historyKey.
    now rewrite append_assoc.
Qed.

(** X1.  The key under which [captureWebCamImage] stores an image,
    images/romo/{name}/{unixTimestamp}{guessExt(contentType)}, gives its
    timestamp back to [extractTimestampFromImageKey] when the content type
    names jpeg, png, gif or webp, whatever the name of the webcam; for any
    other content type the key has no extension and the timestamp is not
    found.  What is given back is the double nearest to the timestamp: the
    timestamp itself up to 2^53, as are the seconds of the clock the code
    takes for it. *)
Theorem captured_key_timestamp (webcamName : string) (unixTimestamp : Z)
    (contentType : string) :
  0 <= unixTimestamp ->
  let known :=
    strIncludes contentType "jpeg" || strIncludes contentType "png"
    || strIncludes contentType "gif" || strIncludes contentType "webp" in
  extractTimestampFromImageKey (historyKey webcamName unixTimestamp contentType)
  = (if known then Some (Double.round unixTimestamp) else None) /\
  (unixTimestamp <= 2 ^ 53 ->
   extractTimestampFromImageKey (historyKey webcamName unixTimestamp contentType)
   = if known then Some (Double.Finite unixTimestamp) else None).
Proof.
  intros Hts known.
  assert (Hround : extractTimestampFromImageKey
                     (historyKey webcamName unixTimestamp contentType)
                   = if known then Some (Double.round unixTimestamp) else None).
  { unfold known.
    rewrite (extract_of_segment _ _ (historyKey_segment webcamName _ contentType Hts)).
    destruct (ofZ_nonneg unixTimestamp Hts) as (Hd & Hne & Hp).
    apply isEmpty_false in Hne.
    assert (Hext : forall letters,
               letters <> "" -> Str.all Str.isLetter letters = true ->
               timestampMatch (Str.ofZ unixTimestamp ++ String "." letters)
               = Some (Str.ofZ unixTimestamp)).
    { intros letters Hl Hall. apply timestampMatch_iff. exists letters.
      change ("." ++ letters) with (String "." letters).
      repeat split; try assumption. now apply isEmpty_false. }
    unfold guessExt, parseInt.
    destruct (strIncludes contentType "jpeg");
      [cbn [orb]; rewrite Hext by (discriminate || reflexivity);
       now rewrite Hne, Hp|].
    destruct (strIncludes contentType "png");
      [cbn [orb]; rewrite Hext by (discriminate || reflexivity);
       now rewrite Hne, Hp|].
    destruct (strIncludes contentType "gif");
      [cbn [orb]; rewrite Hext by (discriminate || reflexivity);
       now rewrite Hne, Hp|].
    destruct (strIncludes contentType "webp");
      [cbn [orb]; rewrite Hext by (discriminate || reflexivity);
       now rewrite Hne, Hp|].
    cbn [orb]. rewrite append_nil_r. unfold timestampMatch.
    now rewrite (span_whole _ _ Hd). }
  split; [exact Hround|].
  intros Hle. rewrite Hround. now rewrite round_exact.
Qed.

Lemma captured_key_timestamp_witness :
  extractTimestampFromImageKey
    (historyKey "Denver Cam" 1758722400 "image/jpeg; charset=binary")
  = Some (Double.Finite 1758722400) /\
  extractTimestampFromImageKey
    (historyKey "Bear Lake / North" 1758722400 "application/octet-stream")
  = None.
Proof.
  split.
  - apply (captured_key_timestamp "Denver Cam" 1758722400
             "image/jpeg; charset=binary"); [lia | vm_compute; congruence].
  - apply (proj1 (captured_key_timestamp "Bear Lake / North" 1758722400
                    "application/octet-stream" ltac:(lia))).
Defined.

(* ------------------------------------------------------------------ *)
(** ** More on the desampler *)

(** The exits of [desampleImageKeys], with what each returns. *)
Lemma desample_shape (src : list string) (n : Z) :
  (n <= 0 /\ desampleImageKeys src n = []) \/
  (0 < n /\ Z.of_nat (List.length src) <= n /\ desampleImageKeys src n = src) \/
  (0 < n /\ n < Z.of_nat (List.length src) /\
   Z.of_nat (List.length (filter parseable src)) <= n /\
   desampleImageKeys src n = sortedKeys src) \/
  (0 < n /\ n < Z.of_nat (List.length src) /\
   exists sel,
     desampleImageKeys src n = map key sel /\
     (forall s, In s sel -> In s (sortByTimestamp (parseKeys src))) /\
     Z.of_nat (List.length sel) <= n).
Proof.
  destruct (Z_le_gt_dec n 0) as [Hn|Hn];
    [left; split; [lia | apply desample_empty; now left]|].
  destruct (Z_le_gt_dec (Z.of_nat (List.length src)) n) as [Hlen|Hlen];
    [right; left; split; [lia|]; split; [lia | apply desample_all; lia]|].
  destruct (Z_le_gt_dec (Z.of_nat (List.length (filter parseable src))) n)
    as [Hcnt|Hcnt].
  { right; right; left. repeat split; try lia.
    apply desample_few_parseable; lia. }
  right; right; right. split; [lia|]. split; [lia|].
  destruct (sortByTimestamp (parseKeys src)) as [|first rest] eqn:Hsort.
  { rewrite <- parsed_count, Hsort in Hcnt. simpl in Hcnt. lia. }
  assert (Hc : n < Z.of_nat (List.length (first :: rest)))
    by (rewrite <- Hsort, parsed_count; lia).
  destruct (desample_long_images src n first rest ltac:(lia) ltac:(lia) Hsort Hc)
    as (sel & tl & E & _ & Hin & _ & Hl & _).
  exists sel. split; [exact E|]. split; [exact Hin | exact Hl].
Qed.

(** X2.  [desampleImageKeys] selects: every key it returns is a key of the
    source, and it returns at most [totalImages] of them, so that
    desampling its own result with the same [totalImages] changes
    nothing. *)
Theorem desample_selects (sourceImages : list string) (totalImages : Z) :
  (forall k, In k (desampleImageKeys sourceImages totalImages) ->
             In k sourceImages) /\
  desampleImageKeys (desampleImageKeys sourceImages totalImages) totalImages
  = desampleImageKeys sourceImages totalImages.
Proof.
  set (src := sourceImages). set (n := totalImages).
  destruct (desample_shape src n)
    as [[Hn E] | [(Hn & Hlen & E) | [(Hn & Hlen & Hcnt & E) | (Hn & Hlen & sel & E & Hin & Hl)]]];
    rewrite E.
  - split; [intros k []|]. apply desample_empty. now left.
  - split; [trivial|]. exact E.
  - split.
    + intros k Hk. unfold sortedKeys in Hk. apply in_map_iff in Hk as (s & <- & Hs).
      now apply sorted_parse_source in Hs.
    + apply desample_all; [lia|]. unfold sortedKeys.
      now rewrite length_map, parsed_count.
  - split.
    + intros k Hk. apply in_map_iff in Hk as (s & <- & Hs).
      apply Hin in Hs. now apply sorted_parse_source in Hs.
    + apply desample_all; [lia|]. now rewrite length_map.
Qed.

(* ------------------------------------------------------------------ *)
(** ** What the queue advancement desamples *)

(** With the number of images of the window as the number wanted, the
    desampler returns the images as they are. *)
Lemma desample_all_wanted (imageKeys : list string) :
  desampleImageKeys imageKeys (Z.of_nat (List.length imageKeys)) = imageKeys.
Proof.
  destruct imageKeys as [|k l]; [reflexivity|].
  apply desample_all; [simpl; lia | lia].
Qed.

Lemma totalImagesFor_all (gifType : AnimationType) (imageKeys : list string) :
  gifType <> full_day \/ Z.of_nat (List.length imageKeys) <= 150 ->
  totalImagesFor gifType imageKeys = Z.of_nat (List.length imageKeys).
Proof.
  intros H. unfold totalImagesFor.
  destruct gifType; try reflexivity.
  destruct H as [H|H]; [congruence|]. change (10 * 15) with 150. lia.
Qed.

(** X3.  In the queue advancement only a full-day entry with more than 150
    images is desampled.  Every other entry that is advanced (its webcam
    exists, it has a window, the image query returns) gets the object names
    of all the images of its window, in the order of the query, and is
    ready exactly when their number reaches the minimum of its type;
    otherwise it is failed with an empty image list. *)
Theorem advancement_keeps_all_images
    (webcams : list WebcamDto)
    (getImagesForTimeRange : WebcamDto -> Z -> Z -> Attempt (list Image))
    (clock now : Instant) (queue : Queue)
    (r : GifCreationQueue) (w : WebcamDto) (images : list Image) :
  NoDup (map Row.id queue) ->
  In r queue -> isWaiting now r = true ->
  getWebcamById webcams (Row.webcamId r) = Some w ->
  Row.startTime r <> 0 -> Row.endTime r <> 0 ->
  getImagesForTimeRange w (Row.startTime r) (Row.endTime r) = Returned images ->
  Row.gifType r <> full_day \/ Z.of_nat (List.length images) <= 150 ->
  exists r',
    In r' (prepareAnimationsForPendingQueue webcams getImagesForTimeRange clock
             queue now) /\
    Row.id r' = Row.id r /\
    if minimums (Row.gifType r) <=? Z.of_nat (List.length images)
    then Row.status r' = pending /\
         Row.imageList r' = map Image.objectName images
    else Row.status r' = failed /\ Row.imageList r' = [].
Proof.
  intros Hnd Hin Hw Hcam Hs He Himg Hty.
  exists (processedAlone webcams getImagesForTimeRange clock r). split.
  { rewrite prepare_rows by assumption. apply in_map_iff. exists r. now rewrite Hw. }
  rewrite (alone_images webcams getImagesForTimeRange clock r w images
             Hcam Hs He Himg).
  rewrite totalImagesFor_all by (now rewrite length_map).
  rewrite desample_all_wanted, length_map. unfold hasMinimumImages.
  rewrite Z.geb_leb.
  destruct (minimums (Row.gifType r) <=? Z.of_nat (List.length images));
    repeat split.
Qed.

Lemma advancement_keeps_all_images_witness :
  exists r',
    In r' (prepareAnimationsForPendingQueue [Sample.denverCam] Sample.imageQuery
             Sample.clock Sample.queue Sample.now) /\
    Row.id r' = 1 /\ Row.status r' = pending /\
    Row.imageList r'
    = map Image.objectName
        (imagesForTimeRange Sample.images Sample.denverCam 1758722400 1758726000).
Proof.
  destruct (advancement_keeps_all_images [Sample.denverCam] Sample.imageQuery
              Sample.clock Sample.now Sample.queue Sample.hourlyJob
              Sample.denverCam
              (imagesForTimeRange Sample.images Sample.denverCam
                 1758722400 1758726000))
    as (r' & Hin & Hid & H).
  - repeat constructor; simpl; intuition discriminate.
  - simpl. auto.
  - reflexivity.
  - reflexivity.
  - discriminate.
  - discriminate.
  - reflexivity.
  - left. discriminate.
  - exists r'. split; [exact Hin|]. split; [exact Hid|].
    change (minimums (Row.gifType Sample.hourlyJob)
            <=? Z.of_nat (List.length
                  (imagesForTimeRange Sample.images Sample.denverCam
                     1758722400 1758726000))) with true in H.
    exact H.
Defined.

(* ------------------------------------------------------------------ *)
(** ** The queue table: inserts, reads, completion, deletion *)

Lemma nextId_above (queue : Queue) (r : GifCreationQueue) :
  In r queue -> Row.id r < nextId queue.
Proof.
  unfold nextId. induction queue as [|x queue IH]; intros Hin; [destruct Hin|].
  cbn [map fold_right]. destruct Hin as [-> | Hin]; [lia|]. apply IH in Hin. lia.
Qed.

Lemma insertRow_NoDup (queue : Queue) (a : AnimationQueueEntry) :
  NoDup (map Row.id queue) -> NoDup (map Row.id (insertRow queue a)).
Proof.
  intros Hnd. unfold insertRow. rewrite map_app. simpl.
  apply NoDup_app; [exact Hnd | repeat constructor; intros [] |].
  intros i Hi [<- | []]. apply in_map_iff in Hi as (r & E & Hr).
  apply nextId_above in Hr. lia.
Qed.

(** A run of inserts appends its rows, one for each animation. *)
Lemma inserted_rows (animations : list AnimationQueueEntry) :
  forall queue,
  exists rows,
    fold_left insertRow animations queue = (queue ++ rows)%list /\
    Forall2 (fun a r => r = toInsert (Row.id r) a) animations rows /\
    (NoDup (map Row.id queue) -> NoDup (map Row.id (queue ++ rows))).
Proof.
  induction animations as [|a l IH]; intros queue.
  - exists []. rewrite app_nil_r. split; [reflexivity|]. split; [constructor | trivial].
  - simpl. destruct (IH (insertRow queue a)) as (rows & Eq & HF & Hnd').
    exists (toInsert (nextId queue) a :: rows). unfold insertRow in Eq, Hnd'.
    rewrite <- app_assoc in Eq, Hnd'. simpl in Eq, Hnd'.
    split; [exact Eq|]. split; [constructor; [reflexivity | exact HF]|].
    intros Hnd. apply Hnd'. now apply (insertRow_NoDup queue a).
Qed.

(** X4.  [addAnimationsToQueue] answers [true] and appends to the table one
    row for each animation, in their order, with the fields of the
    animation and an id of its own; the rows the table held stay as they
    were and in place.  The ids of the table stay unique, so that every
    row, old or new, is the row its id selects. *)
Theorem inserts_append_rows (animations : list AnimationQueueEntry) (queue : Queue) :
  NoDup (map Row.id queue) ->
  exists rows,
    addAnimationsToQueue animations queue = (true, (queue ++ rows)%list) /\
    Forall2 (fun a r => r = toInsert (Row.id r) a) animations rows /\
    NoDup (map Row.id (queue ++ rows)) /\
    forall r, In r (queue ++ rows) ->
      find (fun x => Row.id x =? Row.id r) (queue ++ rows) = Some r.
Proof.
  intros Hnd. destruct (inserted_rows animations queue) as (rows & Eq & HF & Hnd').
  exists rows. unfold addAnimationsToQueue. rewrite Eq.
  split; [reflexivity|]. split; [exact HF|]. split; [now apply Hnd'|].
  intros r Hr. apply find_id_In; [now apply Hnd' | exact Hr].
Qed.

Lemma insertOn_sorted {A} (f : A -> Z) (x : A) (l : list A) :
  StronglySorted (fun a b => f a <= f b) l ->
  StronglySorted (fun a b => f a <= f b) (insertOn f x l).
Proof.
  induction l as [|y l IH]; intros Hs; simpl.
  - repeat constructor.
  - inversion Hs as [|? ? Hs' Hall]; subst.
    destruct (Z.leb_spec (f x) (f y)) as [Hle|Hgt].
    + constructor; [exact Hs|]. constructor; [exact Hle|].
      eapply Forall_impl; [|exact Hall]. simpl; intros; lia.
    + constructor; [now apply IH|].
      apply Forall_forall. intros z Hz.
      eapply Permutation_in in Hz; [|apply insertOn_perm].
      destruct Hz as [<- | Hz]; [lia|].
      rewrite Forall_forall in Hall. now apply Hall.
Qed.

Lemma orderBy_sorted {A} (f : A -> Z) (l : list A) :
  StronglySorted (fun a b => f a <= f b) (orderBy f l).
Proof.
  induction l as [|x l IH]; simpl; [constructor | now apply insertOn_sorted].
Qed.

Lemma sorted_firstn_skipn {A} (R : A -> A -> Prop) (n : nat) :
  forall l a b,
    StronglySorted R l -> In a (firstn n l) -> In b (skipn n l) -> R a b.
Proof.
  induction n as [|n IH]; intros l a b Hs Ha Hb; [destruct Ha|].
  destruct l as [|x l]; [destruct Ha|]. simpl in Ha, Hb.
  inversion Hs as [|? ? Hs' Hall]; subst.
  destruct Ha as [<- | Ha]; [|now apply (IH l)].
  rewrite Forall_forall in Hall. apply Hall.
  rewrite <- (firstn_skipn n l). apply in_or_app. now right.
Qed.

(** X5.  The two reads of the queue.  [getWaitingAnimations] returns the
    rows that wait for images and are due at the given time, and no others;
    [getPendingAnimations] returns at most ten rows, all of them pending,
    all the pending rows when there are no more than ten, and never passes
    over a pending row for one scheduled later.  Both return their rows by
    ascending scheduled time. *)
Theorem queue_reads (currentTime : Instant) (queue : Queue) :
  let byTime := fun a b => Row.scheduledTime a <= Row.scheduledTime b in
  let waiting := getWaitingAnimations currentTime queue in
  let offered := getPendingAnimations queue in
  (forall r, In r waiting <->
             In r queue /\ Row.status r = waiting_for_images
             /\ Row.scheduledTime r <= currentTime) /\
  StronglySorted byTime waiting /\
  (List.length offered <= 10)%nat /\
  (forall r, In r offered -> In r queue /\ Row.status r = pending) /\
  StronglySorted byTime offered /\
  (forall r r', In r queue -> Row.status r = pending -> ~ In r offered ->
                In r' offered -> Row.scheduledTime r' <= Row.scheduledTime r) /\
  ((List.length (filter (fun r => AnimationStatus_eqb (Row.status r) pending) queue)
    <= 10)%nat ->
   forall r, In r queue -> Row.status r = pending -> In r offered).
Proof.
  intros byTime waiting offered.
  assert (Hst : forall r s, AnimationStatus_eqb (Row.status r) s = true
                            <-> Row.status r = s).
  { intros r s. destruct (Row.status r), s; simpl; split; congruence. }
  assert (Hsorted : forall r, In r queue -> Row.status r = pending ->
            In r (orderBy Row.scheduledTime
                    (filter (fun r => AnimationStatus_eqb (Row.status r) pending)
                       queue))).
  { intros r Hr Hp. eapply Permutation_in; [symmetry; apply orderBy_perm|].
    apply filter_In. split; [exact Hr | now apply Hst]. }
  split.
  { intros r. unfold waiting. rewrite getWaitingAnimations_In. unfold isWaiting.
    rewrite andb_true_iff, Hst, Z.leb_le. tauto. }
  split; [apply orderBy_sorted|].
  split; [apply firstn_le_length|].
  split.
  { intros r Hr. apply firstn_In in Hr.
    eapply Permutation_in in Hr; [|apply orderBy_perm].
    apply filter_In in Hr as [Hr Hp]. split; [exact Hr | now apply Hst]. }
  split; [apply firstn_sorted, orderBy_sorted|].
  split.
  { intros r r' Hr Hp Hnot Hr'. specialize (Hsorted r Hr Hp).
    rewrite <- (firstn_skipn 10) in Hsorted.
    apply in_app_or in Hsorted as [Hin | Hin]; [now elim Hnot|].
    exact (sorted_firstn_skipn byTime 10 _ r' r (orderBy_sorted _ _) Hr' Hin). }
  intros Hlen r Hr Hp. unfold offered, getPendingAnimations.
  rewrite firstn_all2; [now apply Hsorted|].
  rewrite (Permutation_length (orderBy_perm _ _)). exact Hlen.
Qed.

Lemma find_updateWhereId (id : Z) (set : GifCreationQueue -> GifCreationQueue)
    (queue : Queue) :
  (forall r, Row.id (set r) = Row.id r) ->
  forall id',
    find (fun r => Row.id r =? id') (updateWhereId id set queue)
    = option_map (fun r => if Row.id r =? id then set r else r)
        (find (fun r => Row.id r =? id') queue).
Proof.
  intros Hid id'. unfold updateWhereId.
  induction queue as [|x queue IH]; simpl; [reflexivity|].
  assert (E : Row.id (if Row.id x =? id then set x else x) = Row.id x)
    by (destruct (Row.id x =? id); [apply Hid | reflexivity]).
  rewrite E. destruct (Row.id x =? id'); [reflexivity | exact IH].
Qed.

(** X6.  A completion is final: when [markAnimationCompleted] has succeeded
    for an id, a second call for that id fails, reporting that the entry is
    completed, and leaves the table as the first call left it. *)
Theorem completion_is_final (clock clock' : Instant) (id : Z) (queue : Queue) :
  success (fst (markAnimationCompleted clock id queue)) = true ->
  let queue1 := snd (markAnimationCompleted clock id queue) in
  markAnimationCompleted clock' id queue1
  = ({| success := false;
        message := "Animation is not in pending status. Current status: completed";
        queue_entry_id := None; resultStatus := None |},
     queue1).
Proof.
  unfold markAnimationCompleted at 1 2.
  destruct (find (fun r => Row.id r =? id) queue) as [entry|] eqn:F;
    [|discriminate].
  destruct (negb (AnimationStatus_eqb (Row.status entry) pending)); [discriminate|].
  intros _. cbn [snd]. unfold markAnimationCompleted.
  rewrite (find_updateWhereId id (setCompleted clock) queue) by reflexivity.
  rewrite F. cbn [option_map].
  apply find_some in F as [_ E]. rewrite E. reflexivity.
Qed.

Lemma completion_is_final_witness :
  success (fst (markAnimationCompleted Sample.clock 5 Sample.queue)) = true /\
  markAnimationCompleted (Sample.clock + 60000) 5
    (snd (markAnimationCompleted Sample.clock 5 Sample.queue))
  = ({| success := false;
        message := "Animation is not in pending status. Current status: completed";
        queue_entry_id := None; resultStatus := None |},
     snd (markAnimationCompleted Sample.clock 5 Sample.queue)).
Proof.
  split; [reflexivity|].
  apply (completion_is_final Sample.clock (Sample.clock + 60000) 5 Sample.queue).
  reflexivity.
Defined.

Lemma find_deleteAnimation (id id' : Z) (queue : Queue) :
  find (fun r => Row.id r =? id') (deleteAnimation id queue)
  = if id' =? id then None else find (fun r => Row.id r =? id') queue.
Proof.
  unfold deleteAnimation. induction queue as [|x queue IH]; simpl.
  - now destruct (id' =? id).
  - destruct (Z.eqb_spec (Row.id x) id) as [E|E]; simpl.
    + rewrite IH. destruct (Z.eqb_spec id' id) as [E'|E']; [reflexivity|].
      destruct (Z.eqb_spec (Row.id x) id'); [congruence | reflexivity].
    + destruct (Z.eqb_spec (Row.id x) id') as [E'|E']; [|exact IH].
      destruct (Z.eqb_spec id' id); [congruence | reflexivity].
Qed.

(** X7.  [deleteAnimation] removes the rows with the id and only them, the
    rows that stay keeping their order; a lookup by another id finds what
    it found before; deleting again changes nothing; and
    [markAnimationCompleted] for the deleted id then fails with the
    not-found message. *)
Theorem deleteAnimation_spec (id : Z) (queue : Queue) :
  let queue' := deleteAnimation id queue in
  (forall r, In r queue' <-> In r queue /\ Row.id r <> id) /\
  (exists gone, Permutation queue (gone ++ queue')
                /\ Forall (fun r => Row.id r = id) gone) /\
  (forall id', id' <> id ->
     find (fun r => Row.id r =? id') queue'
     = find (fun r => Row.id r =? id') queue) /\
  deleteAnimation id queue' = queue' /\
  forall clock,
    markAnimationCompleted clock id queue'
    = ({| success := false;
          message := "Animation queue entry with ID " ++ Str.ofZ id ++ " not found";
          queue_entry_id := None; resultStatus := None |},
       queue').
Proof.
  intros queue'. split.
  { intros r. unfold queue', deleteAnimation. rewrite filter_In, negb_true_iff, Z.eqb_neq.
    tauto. }
  split.
  { exists (filter (fun r => Row.id r =? id) queue). split.
    - unfold queue', deleteAnimation.
      induction queue as [|x queue IH]; simpl; [constructor|].
      destruct (Row.id x =? id); simpl; [now constructor|].
      rewrite IH at 1. apply Permutation_middle.
    - apply Forall_forall. intros r Hr. apply filter_In in Hr as [_ Hr].
      now apply Z.eqb_eq. }
  split.
  { intros id' Hne. unfold queue'. rewrite find_deleteAnimation.
    now rewrite (proj2 (Z.eqb_neq id' id) Hne). }
  split.
  { unfold queue', deleteAnimation.
    induction queue as [|x queue IH]; simpl; [reflexivity|].
    destruct (negb (Row.id x =? id)) eqn:E; simpl; [|exact IH].
    now rewrite E, IH. }
  intros clock. unfold markAnimationCompleted, queue'.
  now rewrite find_deleteAnimation, Z.eqb_refl.
Qed.

Lemma inserts_append_rows_witness :
  exists rows,
    addAnimationsToQueue
      [@createAnimationEntry SampleEnv.env Sample.clock Sample.denverCam sunrise
         1758719070000 1758713790 1758719010;
       @createAnimationEntry SampleEnv.env Sample.clock Sample.denverCam hourly
         1758722700000 1758718800 1758722400]
      Sample.queue
    = (true, (Sample.queue ++ rows)%list) /\
    map Row.id rows = [6; 7].
Proof.
  destruct (inserts_append_rows
              [@createAnimationEntry SampleEnv.env Sample.clock Sample.denverCam
                 sunrise 1758719070000 1758713790 1758719010;
               @createAnimationEntry SampleEnv.env Sample.clock Sample.denverCam
                 hourly 1758722700000 1758718800 1758722400]
              Sample.queue)
    as (rows & Eq & _ & _ & _).
  - repeat constructor; simpl; intuition discriminate.
  - exists rows. split; [exact Eq|].
    injection Eq as Eq. now subst rows.
Defined.

(* ------------------------------------------------------------------ *)
(** ** What a pass of the advancement leaves behind *)

Lemma alone_setImages (webcams : list WebcamDto)
    (getImagesForTimeRange : WebcamDto -> Z -> Z -> Attempt (list Image))
    (clock : Instant) (r : GifCreationQueue) :
  exists st keys err,
    processedAlone webcams getImagesForTimeRange clock r
    = setImages clock st keys err r /\ (st = pending \/ st = failed).
Proof.
  unfold processedAlone, processAnimation, tryProcess.
  destruct (getWebcamById webcams (Row.webcamId r)) as [w|].
  2: { simpl. rewrite Z.eqb_refl. eexists _, _, _. split; [reflexivity | now right]. }
  destruct ((Row.startTime r =? 0) || (Row.endTime r =? 0)).
  { simpl. rewrite Z.eqb_refl. eexists _, _, _. split; [reflexivity | now right]. }
  destruct (getImagesForTimeRange w (Row.startTime r) (Row.endTime r)) as [images|e].
  2: { simpl. rewrite Z.eqb_refl. eexists _, _, _. split; [reflexivity | now right]. }
  cbv zeta. destruct (hasMinimumImages _ _); simpl; rewrite Z.eqb_refl;
    eexists _, _, _; (split; [reflexivity|]); [now left | now right].
Qed.

Lemma Forall2_map_self {A} (P : A -> A -> Prop) (f : A -> A) (l : list A) :
  (forall x, P x (f x)) -> Forall2 P l (map f l).
Proof. intros H. induction l; simpl; constructor; auto. Qed.

Lemma filter_none {A} (p : A -> bool) (l : list A) :
  (forall x, In x l -> p x = false) -> filter p l = [].
Proof.
  induction l as [|x l IH]; intros H; simpl; [reflexivity|].
  rewrite (H x (or_introl eq_refl)). apply IH. intros y Hy. apply H. now right.
Qed.

(** X8.  A pass of [prepareAnimationsForPendingQueue] settles every entry
    that was due: each of them is pending or failed afterwards, so that no
    entry is left waiting that is due at the time of the pass or before,
    and a second pass for such a time changes nothing, whatever the webcams
    and images are by then.  The pass keeps the rows of the table in place
    and changes none of the entries that were not due; of the others it
    changes only the status, the image list, the processing time and the
    error message. *)
Theorem advancement_settles
    (webcams webcams' : list WebcamDto)
    (getImagesForTimeRange getImagesForTimeRange'
       : WebcamDto -> Z -> Z -> Attempt (list Image))
    (clock clock' now now' : Instant) (queue : Queue) :
  NoDup (map Row.id queue) -> now' <= now ->
  let queue' :=
    prepareAnimationsForPendingQueue webcams getImagesForTimeRange clock queue now in
  getWaitingAnimations now' queue' = [] /\
  prepareAnimationsForPendingQueue webcams' getImagesForTimeRange' clock' queue' now'
  = queue' /\
  Forall2
    (fun r r' =>
       Row.id r' = Row.id r /\ Row.webcamId r' = Row.webcamId r /\
       Row.referenceId r' = Row.referenceId r /\ Row.gifType r' = Row.gifType r /\
       Row.scheduledTime r' = Row.scheduledTime r /\
       Row.createdAt r' = Row.createdAt r /\
       Row.startTime r' = Row.startTime r /\ Row.endTime r' = Row.endTime r /\
       Row.gifStorageKey r' = Row.gifStorageKey r /\ Row.dateKey r' = Row.dateKey r /\
       (isWaiting now r = false -> r' = r) /\
       (isWaiting now r = true -> Row.status r' = pending \/ Row.status r' = failed))
    queue queue'.
Proof.
  intros Hnd Hle queue'.
  assert (Hq : queue' = map (fun r => if isWaiting now r
                                      then processedAlone webcams
                                             getImagesForTimeRange clock r
                                      else r) queue)
    by now apply prepare_rows.
  assert (Hnone : getWaitingAnimations now' queue' = []).
  { unfold getWaitingAnimations. rewrite filter_none; [reflexivity|].
    intros r' Hr'. rewrite Hq in Hr'. apply in_map_iff in Hr' as (r & <- & _).
    destruct (isWaiting now r) eqn:Hw.
    - destruct (alone_status webcams getImagesForTimeRange clock r) as [E|E];
        unfold isWaiting; now rewrite E.
    - unfold isWaiting in *. destruct (AnimationStatus_eqb _ _); [|reflexivity].
      simpl in *. apply Z.leb_gt in Hw. apply Z.leb_gt. lia. }
  split; [exact Hnone|]. split.
  { unfold prepareAnimationsForPendingQueue. now rewrite Hnone. }
  rewrite Hq. apply Forall2_map_self. intros r.
  destruct (isWaiting now r) eqn:Hw.
  - destruct (alone_setImages webcams getImagesForTimeRange clock r)
      as (st & keys & err & -> & Hst).
    repeat split; try reflexivity; [discriminate|].
    intros _. exact Hst.
  - repeat split; try reflexivity. discriminate.
Qed.

Lemma advancement_settles_witness :
  let queue' :=
    prepareAnimationsForPendingQueue [Sample.denverCam] Sample.imageQuery
      Sample.clock Sample.queue Sample.now in
  getWaitingAnimations Sample.now queue' = [] /\
  prepareAnimationsForPendingQueue [] Sample.brokenQuery (Sample.clock + 60000)
    queue' Sample.now = queue'.
Proof.
  destruct (advancement_settles [Sample.denverCam] [] Sample.imageQuery
              Sample.brokenQuery Sample.clock (Sample.clock + 60000)
              Sample.now Sample.now Sample.queue)
    as (H1 & H2 & _).
  - repeat constructor; simpl; intuition discriminate.
  - reflexivity.
  - split; [exact H1 | exact H2].
Defined.

(* ------------------------------------------------------------------ *)
(** ** The jobs the scheduler writes *)

Lemma floor_lub (z : Z) (x : Q) : (inject_Z z <= x)%Q -> z <= Qfloor x.
Proof. intros H. rewrite <- (Qfloor_Z z). now apply Qfloor_resp_le. Qed.

Lemma floorSeconds_le (x : Q) : (inject_Z (Num.floorSeconds x * 1000) <= x)%Q.
Proof.
  unfold Num.floorSeconds. rewrite inject_Z_mult.
  pose proof (Qfloor_le (x / 1000)) as H.
  assert (E : (x == (x / 1000) * inject_Z 1000)%Q)
    by (change (inject_Z 1000) with (1000 # 1)%Q; field).
  rewrite E at 2. apply Qmult_le_compat_r; [exact H | discriminate].
Qed.

Lemma truncate_ge_floor (x : Q) : Qfloor x <= Num.truncate x.
Proof.
  unfold Num.truncate. destruct (Qle_bool 0 x); [lia|].
  rewrite Zle_Qle. apply Qle_floor_ceiling.
Qed.

(** A job scheduled a minute after an instant is scheduled a minute or more
    after the whole second the window ends with. *)
Lemma minute_after_window (x : Q) :
  Num.floorSeconds x * 1000 + 60000 <= Num.truncate (x + minute).
Proof.
  etransitivity; [|apply truncate_ge_floor].
  apply floor_lub. rewrite inject_Z_plus.
  apply Qplus_le_compat; [apply floorSeconds_le | apply Qle_refl].
Qed.

Lemma insertByName_In (w x : WebcamDto) (l : list WebcamDto) :
  In x (insertByName w l) -> x = w \/ In x l.
Proof.
  induction l as [|y l IH]; simpl.
  - intros [<- | []]. now left.
  - destruct (String.leb _ _); simpl.
    + intros [<- | H]; [now left | now right].
    + intros [<- | H]; [right; now left|].
      apply IH in H as [-> | H]; [now left | right; now right].
Qed.

Lemma getEnabledWebcams_In (webcams : list WebcamDto) (w : WebcamDto) :
  In w (getEnabledWebcams webcams) -> In w webcams /\ Webcam.enabled w = true.
Proof.
  unfold getEnabledWebcams. rewrite <- filter_In.
  induction (filter Webcam.enabled webcams) as [|y l IH]; simpl; [trivial|].
  intros H. apply insertByName_In in H as [-> | H]; [now left | right; auto].
Qed.

Lemma Forall2_Forall {A B} (R : A -> B -> Prop) (P : B -> Prop)
    (l : list A) (rows : list B) :
  Forall2 R l rows -> (forall a r, In a l -> R a r -> P r) -> Forall P rows.
Proof.
  induction 1 as [|a r l rows Hr HF IH]; intros H; constructor.
  - apply (H a r); [now left | exact Hr].
  - apply IH. intros a' r' Ha'. apply H. now right.
Qed.

Section SchedulerTiming.

Context {E : Environment}.

(** The hourly jobs of the loop: each is scheduled five minutes after the
    end of its hour, of which the window keeps the whole seconds. *)
Lemma hourlyLoop_timing (clock : Instant) (webcam : WebcamDto) (fuel : nat) :
  forall currentHour lightEndHour a,
    In a (hourlyLoop clock webcam fuel currentHour lightEndHour) ->
    exists scheduledTime startTime endTime,
      a = createAnimationEntry clock webcam hourly scheduledTime startTime endTime /\
      endTime * 1000 + 300000 <= scheduledTime < endTime * 1000 + 301000.
Proof.
  induction fuel as [|fuel IH]; intros c e a Hin; [destruct Hin|].
  cbn [hourlyLoop] in Hin. destruct (c <? e); [|destruct Hin].
  apply in_app_or in Hin as [Hin | Hin].
  - destruct (c + hourMillis <=? e); [|destruct Hin].
    destruct Hin as [<- | []]. eexists _, _, _. split; [reflexivity|].
    pose proof (Z.div_mod (c + hourMillis) 1000 ltac:(lia)).
    pose proof (Z.mod_pos_bound (c + hourMillis) 1000 ltac:(lia)). lia.
  - now apply (IH (c + hourMillis) e a).
Qed.

(** The jobs of one webcam: who gets them, and when they are scheduled. *)
Lemma animationsForWebcam_timing (clock : Instant) (dateString : string)
    (webcam : WebcamDto) (a : AnimationQueueEntry) :
  In a (animationsForWebcam clock dateString webcam) ->
  truthy (Webcam.latLon webcam) = true /\
  truthy (Webcam.timezone webcam) = true /\
  exists animationType scheduledTime startTime endTime,
    a = createAnimationEntry clock webcam animationType scheduledTime
          startTime endTime /\
    endTime * 1000 + 60000 <= scheduledTime /\
    (animationType = hourly ->
       endTime * 1000 + 300000 <= scheduledTime < endTime * 1000 + 301000).
Proof.
  unfold animationsForWebcam.
  destruct (truthy (Webcam.latLon webcam)); [|intros []].
  destruct (truthy (Webcam.timezone webcam)); [|intros []].
  cbn [negb].
  destruct (calculateWebcamSolarTimes _ _) as [t|]; [|intros []].
  cbv zeta. intros Hin. split; [reflexivity|]. split; [reflexivity|].
  repeat (apply in_app_or in Hin as [Hin | Hin]).
  - destruct (_ && _); [|destruct Hin].
    destruct (Num.sub _ _) as [ls|]; [|destruct Hin].
    destruct (Num.add _ _) as [se|]; [|destruct Hin].
    destruct Hin as [<- | []]. eexists _, _, _, _.
    split; [reflexivity|]. split; [apply minute_after_window | discriminate].
  - destruct (_ && _); [|destruct Hin].
    destruct (Num.sub _ _) as [ss|]; [|destruct Hin].
    destruct (Num.add _ _) as [le|]; [|destruct Hin].
    destruct Hin as [<- | []]. eexists _, _, _, _.
    split; [reflexivity|]. split; [apply minute_after_window | discriminate].
  - destruct (_ && _); [|destruct Hin].
    destruct (Num.sub _ _) as [ls|]; [|destruct Hin].
    destruct (Num.add _ _) as [le|]; [|destruct Hin].
    destruct Hin as [<- | []]. eexists _, _, _, _.
    split; [reflexivity|]. split; [apply minute_after_window | discriminate].
  - destruct (_ && _); [|destruct Hin].
    destruct (Num.sub _ _) as [ls|]; [|destruct Hin].
    destruct (Num.add _ _) as [le|]; [|destruct Hin].
    destruct (Solar.firstLight t) as [fl|]; [|destruct Hin].
    apply hourlyLoop_timing in Hin as (s & st & en & -> & H1).
    eexists _, _, _, _. split; [reflexivity|]. split; [lia | auto].
Qed.

(** X9.  A run of [createTodaysAnimations] that returns has appended rows to
    the table and changed nothing else.  Every row it adds belongs to an
    enabled webcam of the webcams table that has a location and a time
    zone, waits for images, has no images, no processing time and no error
    message, and is scheduled a minute or more after the end of its window;
    an hourly row is scheduled five minutes after the end of its hour, that
    is five minutes and less than a second more after the end of its
    window, which is in whole seconds.  Nothing is said of where the hours
    begin: the code sets them by the clock of the host. *)
Theorem scheduler_adds_waiting_jobs (clock : Instant) (webcams : list WebcamDto)
    (queue : Queue) (dateString : string) (queue' : Queue) :
  createTodaysAnimations clock webcams queue dateString = Returned queue' ->
  exists rows,
    queue' = (queue ++ rows)%list /\
    Forall
      (fun r =>
         (exists w, In w webcams /\ Webcam.enabled w = true /\
                    truthy (Webcam.latLon w) = true /\
                    truthy (Webcam.timezone w) = true /\
                    Row.webcamId r = Webcam.id w) /\
         Row.status r = waiting_for_images /\ Row.imageList r = [] /\
         Row.processedAt r = None /\ Row.errorMessage r = None /\
         Row.createdAt r = clock /\
         Row.endTime r * 1000 + 60000 <= Row.scheduledTime r /\
         (Row.gifType r = hourly ->
            Row.endTime r * 1000 + 300000 <= Row.scheduledTime r
            < Row.endTime r * 1000 + 301000))
      rows.
Proof.
  unfold createTodaysAnimations.
  destruct (negb (dateRegex dateString)); [discriminate|].
  intros [= <-].
  destruct (inserted_rows (animationsToCreate clock webcams dateString) queue)
    as (rows & Eq & HF & _).
  exists rows. split; [exact Eq|].
  apply (Forall2_Forall _ _ _ _ HF). intros a r Hin Hr.
  unfold animationsToCreate in Hin. apply in_flat_map in Hin as (w & Hw & Hin).
  apply getEnabledWebcams_In in Hw as [Hw Hen].
  apply animationsForWebcam_timing in Hin
    as (Hl & Hz & ty & s & st & en & -> & Hs & Hh).
  rewrite Hr. cbn. split; [now exists w|]. repeat split; try exact Hs; now apply Hh.
Qed.

End SchedulerTiming.

Lemma scheduler_adds_waiting_jobs_witness :
  exists rows,
    @createTodaysAnimations SampleEnv.env Sample.clock
      [Sample.denverCam; SampleEnv.northCam] Sample.queue "2025-09-24"
    = Returned (Sample.queue ++ rows)%list /\
    List.length rows = 17%nat /\
    Forall (fun r => Row.status r = waiting_for_images /\
                     Row.endTime r * 1000 + 60000 <= Row.scheduledTime r) rows.
Proof.
  pose (queue' :=
          persist (@animationsToCreate SampleEnv.env Sample.clock
                     [Sample.denverCam; SampleEnv.northCam] "2025-09-24")
            Sample.queue).
  destruct (@scheduler_adds_waiting_jobs SampleEnv.env Sample.clock
              [Sample.denverCam; SampleEnv.northCam] Sample.queue "2025-09-24"
              queue' eq_refl)
    as (rows & Eq & HF).
  exists rows. split; [change (Returned queue' = Returned (Sample.queue ++ rows)%list);
                       now rewrite Eq|].
  split.
  - assert (L : List.length queue' = 22%nat) by (vm_compute; reflexivity).
    rewrite Eq, length_app in L.
    change (List.length Sample.queue) with 5%nat in L. lia.
  - eapply Forall_impl; [|exact HF]. cbn beta. intros r H.
    split; [apply H | apply H].
Defined.

(* ------------------------------------------------------------------ *)
(** ** The sunrise job *)

Lemma insertByName_intro (w x : WebcamDto) (l : list WebcamDto) :
  x = w \/ In x l -> In x (insertByName w l).
Proof.
  induction l as [|y l IH]; simpl.
  - intros [-> | []]. now left.
  - destruct (String.leb _ _); simpl.
    + intros [-> | H]; [now left | now right].
    + intros [-> | [-> | H]]; [right; apply IH; now left | now left |].
      right. apply IH. now right.
Qed.

Lemma getEnabledWebcams_intro (webcams : list WebcamDto) (w : WebcamDto) :
  In w webcams -> Webcam.enabled w = true -> In w (getEnabledWebcams webcams).
Proof.
  intros Hin Hen. assert (Hf : In w (filter Webcam.enabled webcams))
    by (apply filter_In; now split).
  unfold getEnabledWebcams. revert Hf.
  induction (filter Webcam.enabled webcams) as [|y l IH]; simpl; [trivial|].
  intros [-> | H]; apply insertByName_intro; [now left | right; auto].
Qed.

Lemma Forall2_In_left {A B} (R : A -> B -> Prop) (l : list A) (rows : list B)
    (a : A) :
  Forall2 R l rows -> In a l -> exists r, In r rows /\ R a r.
Proof.
  induction 1 as [|a' r l rows Hr HF IH]; intros Hin; [destruct Hin|].
  destruct Hin as [-> | Hin].
  - exists r. split; [now left | exact Hr].
  - destruct (IH Hin) as (r' & Hr' & HR). exists r'. split; [now right | exact HR].
Qed.

(** C7.  For every enabled webcam that has a location and a time zone and
    whose solar times of the day are computed: whenever lightStart and
    sunriseEnd are numbers, the scheduler makes a sunrise job of the webcam
    whose window is [lightStart, sunriseEnd] in whole seconds and which is
    scheduled one minute after sunriseEnd, and a run for a well-formed date
    adds the row of this job to the queue.  The solar times are those
    SunCalc computes: it places each rise as long before solar noon as the
    set is after it, so that sunset is NaN exactly when sunrise is, and
    nautical dusk (last light) exactly when nautical dawn (first light) is.
    The condition of the sunrise block reads lightEnd where the claim reads
    sunriseEnd; on such times the two are numbers together. *)
Theorem sunrise_job_of_finite_window {E : Environment} (clock : Instant)
    (webcams : list WebcamDto) (queue : Queue) (dateString : string)
    (webcam : WebcamDto) (t : SolarTimes) (ls se : Q) :
  In webcam webcams -> Webcam.enabled webcam = true ->
  truthy (Webcam.latLon webcam) = true ->
  truthy (Webcam.timezone webcam) = true ->
  calculateWebcamSolarTimes (Webcam.latLon webcam) (anchorOfDay dateString) = Some t ->
  Num.isNaN (Solar.sunset t) = Num.isNaN (Solar.sunrise t) ->
  Num.isNaN (Solar.lastLight t) = Num.isNaN (Solar.firstLight t) ->
  Window.lightStart t = Some ls -> Window.sunriseEnd t = Some se ->
  let job :=
    createAnimationEntry clock webcam sunrise
      (Num.truncate (se + inject_Z 60000))
      (Qfloor (ls / 1000)) (Qfloor (se / 1000)) in
  In job (animationsToCreate clock webcams dateString) /\
  Entry.webcam_id job = Webcam.id webcam /\
  Entry.gif_type job = sunrise /\
  Entry.start_time job = Qfloor (ls / 1000) /\
  Entry.end_time job = Qfloor (se / 1000) /\
  Entry.scheduled_time job = Num.truncate (se + inject_Z 60000) /\
  (dateRegex dateString = true ->
   exists queue' r,
     createTodaysAnimations clock webcams queue dateString = Returned queue' /\
     In r queue' /\ r = toInsert (Row.id r) job).
Proof.
  intros Hin Hen Hl Hz Ht Hset Hlast Hls Hse job.
  assert (Hle : exists le, Window.lightEnd t = Some le).
  { pose proof (lightEnd_of_symmetric_times t Hset Hlast) as Hsym.
    rewrite Hls in Hsym. destruct (Window.lightEnd t) as [le|];
      [now exists le | discriminate]. }
  destruct Hle as (le & Hle).
  assert (Hjob : In job (animationsToCreate clock webcams dateString)).
  { unfold animationsToCreate. apply in_flat_map. exists webcam.
    split; [now apply getEnabledWebcams_intro|].
    now apply (sunrise_job_emitted clock dateString webcam t ls se le). }
  split; [exact Hjob|]. repeat (split; [reflexivity|]).
  intros Hdate. unfold createTodaysAnimations. rewrite Hdate. cbn [negb].
  destruct (inserted_rows (animationsToCreate clock webcams dateString) queue)
    as (rows & Eq & HF & _).
  destruct (Forall2_In_left _ _ _ job HF Hjob) as (r & Hr & HR).
  exists (queue ++ rows)%list, r. split; [f_equal; exact Eq|].
  split; [apply in_or_app; now right | exact HR].
Qed.

Lemma sunrise_job_of_finite_window_witness :
  let job :=
    @createAnimationEntry SampleEnv.env Sample.clock Sample.denverCam sunrise
      1758719070000 1758713790 1758719010 in
  Num.isNaN (Window.lightStart SampleEnv.denverTimes) = false /\
  Num.isNaN (Window.sunriseEnd SampleEnv.denverTimes) = false /\
  In job
    (@animationsToCreate SampleEnv.env Sample.clock
       [Sample.denverCam; SampleEnv.northCam] "2025-09-24") /\
  exists queue' r,
    @createTodaysAnimations SampleEnv.env Sample.clock
      [Sample.denverCam; SampleEnv.northCam] Sample.queue "2025-09-24"
    = Returned queue' /\
    In r queue' /\ r = toInsert (Row.id r) job.
Proof.
  intros job. split; [reflexivity|]. split; [reflexivity|].
  destruct (@sunrise_job_of_finite_window SampleEnv.env Sample.clock
              [Sample.denverCam; SampleEnv.northCam] Sample.queue "2025-09-24"
              Sample.denverCam SampleEnv.denverTimes
              (inject_Z 1758714660000
               - (1 # 4) * (inject_Z 1758718140000 - inject_Z 1758714660000))%Q
              (inject_Z 1758718140000
               + (1 # 4) * (inject_Z 1758718140000 - inject_Z 1758714660000))%Q)
    as (Hjob & _ & _ & _ & _ & _ & Hrow);
    try reflexivity; [now left|].
  split; [exact Hjob | exact (Hrow eq_refl)].
Defined.

(* ------------------------------------------------------------------ *)
(** ** The storage keys of the scheduler and the check of the repository *)

Lemma prefix_append (s t : string) : String.prefix s (s ++ t) = true.
Proof.
  induction s as [|c s IH]; simpl; [now destruct t|].
  destruct (ascii_dec c c); [exact IH | congruence].
Qed.

Lemma prefix_common (s t u : string) :
  String.prefix (s ++ t) (s ++ u) = String.prefix t u.
Proof.
  induction s as [|c s IH]; simpl; [reflexivity|].
  destruct (ascii_dec c c); [exact IH | congruence].
Qed.

Lemma hd_error_filter {A} (p : A -> bool) (l : list A) :
  hd_error (filter p l) = find p l.
Proof.
  induction l as [|x l IH]; simpl; [reflexivity|].
  destruct (p x); [reflexivity | exact IH].
Qed.

Lemma entryWithWebcam_found (webcams : list WebcamDto) (id : Z) (queue : Queue)
    (r : GifCreationQueue) (w : WebcamDto) :
  find (fun x => Row.id x =? id) queue = Some r ->
  getWebcamById webcams (Row.webcamId r) = Some w ->
  entryWithWebcam webcams id queue = Some (r, w).
Proof.
  unfold entryWithWebcam, getWebcamById. intros Hr Hw.
  rewrite <- hd_error_filter in Hr. rewrite <- hd_error_filter in Hw.
  destruct (filter (fun x => Row.id x =? id) queue) as [|r' l]; [discriminate|].
  injection Hr as ->. simpl.
  destruct (filter (fun w0 => Webcam.id w0 =? Row.webcamId r) webcams) as [|w' l'];
    [discriminate|].
  injection Hw as ->. reflexivity.
Qed.

(** The file name of a key: what follows its last slash. *)
Lemma last_segment (pre seg : string) :
  Str.all (fun c => negb (Ascii.eqb c "/")) seg = true ->
  last (Str.split "/" (pre ++ "/" ++ seg)) "" = seg.
Proof.
  intros H. symmetry. apply finalSegment_unique. split; [exact H|].
  right. now exists pre.
Qed.

Lemma mp4Match_timestamp (digits : string) :
  Str.all Str.isDigit digits = true -> digits <> "" ->
  mp4Match (digits ++ ".mp4") = true /\
  mp4Match (digits ++ "_undefined.mp4") = false.
Proof.
  intros Hd Hne. unfold mp4Match.
  change (digits ++ ".mp4") with (digits ++ String "." "mp4").
  change (digits ++ "_undefined.mp4") with (digits ++ String "_" "undefined.mp4").
  rewrite !span_stop by (exact Hd || reflexivity).
  destruct digits; [congruence|]. split; reflexivity.
Qed.

(** X10.  The check of [updateAnimationStorageKey] against the storage keys
    the scheduler writes.  For the row of a job that [createAnimationEntry]
    made for its webcam, with a scheduled time that is not negative, the
    job's own storage key is accepted only when the webcam has a national
    park and the job is not hourly: for a webcam without a park the
    scheduler writes "unknown" where the check expects the printed column,
    and the file name of an hourly key ends with "_undefined.mp4". *)
Theorem own_storage_key_check {E : Environment} (clock : Instant)
    (webcams : list WebcamDto) (queue : Queue) (webcam : WebcamDto)
    (animationType : AnimationType) (scheduledTime : Instant)
    (startTime endTime id : Z) (storageKey : string) :
  let entry :=
    toInsert id (createAnimationEntry clock webcam animationType scheduledTime
                   startTime endTime) in
  getWebcamById webcams (Webcam.id webcam) = Some webcam ->
  find (fun x => Row.id x =? id) queue = Some entry ->
  0 <= scheduledTime ->
  Row.gifStorageKey entry = Some storageKey ->
  fst (updateAnimationStorageKey webcams id storageKey queue)
  = if negb (truthy (Webcam.nationalPark webcam)) then
      {| Update.success := false;
         Update.message :=
           "Invalid storage key format. Expected pattern: gifs/"
           ++ printNullable (Webcam.nationalPark webcam) ++ "/"
           ++ Webcam.name webcam ++ "/" ++ typeName animationType
           ++ "/timestamp.mp4" |}
    else if AnimationType_eqb animationType hourly then
      {| Update.success := false;
         Update.message := "Invalid filename format. Expected: timestamp.mp4" |}
    else
      {| Update.success := true;
         Update.message := "Storage key updated successfully" |}.
Proof.
  intros entry Hw Hr Hs Hkey.
  destruct (ofZ_nonneg scheduledTime Hs) as (Hd & Hne & _).
  assert (Hns : forall tail,
            Str.all (fun c => negb (Ascii.eqb c "/")) tail = true ->
            Str.all (fun c => negb (Ascii.eqb c "/"))
              (Str.ofZ scheduledTime ++ tail) = true).
  { intros tail Ht. rewrite all_append, Ht, andb_true_r.
    apply (all_impl Str.isDigit); [apply digit_not_slash | exact Hd]. }
  unfold updateAnimationStorageKey.
  rewrite (entryWithWebcam_found webcams id queue entry webcam Hr Hw).
  cbv zeta. change (Row.gifType entry) with animationType.
  assert (Hk : storageKey
               = generateAnimationStorageKey
                   (orElse (Webcam.nationalPark webcam) "unknown")
                   (Webcam.name webcam) animationType (Str.ofZ scheduledTime) None)
    by (cbn in Hkey; congruence).
  set (pattern := "gifs/" ++ printNullable (Webcam.nationalPark webcam) ++ "/"
                  ++ Webcam.name webcam ++ "/" ++ typeName animationType ++ "/").
  assert (Hmsg : "Invalid storage key format. Expected pattern: " ++ pattern
                 ++ "timestamp.mp4"
                 = "Invalid storage key format. Expected pattern: gifs/"
                   ++ printNullable (Webcam.nationalPark webcam) ++ "/"
                   ++ Webcam.name webcam ++ "/" ++ typeName animationType
                   ++ "/timestamp.mp4").
  { unfold pattern. repeat (progress (cbn [append]; rewrite ?append_assoc)).
    reflexivity. }
  destruct (Webcam.nationalPark webcam) as [[|c park]|] eqn:Hpark; cbn [truthy negb].
  - (* an empty park *)
    assert (Hp : String.prefix pattern storageKey = false).
    { rewrite Hk. unfold pattern, generateAnimationStorageKey.
      destruct (AnimationType_eqb animationType hourly); reflexivity. }
    rewrite Hp. cbn [negb fst]. now rewrite Hmsg.
  - (* a park *)
    set (dir := "gifs/" ++ String c park ++ "/" ++ Webcam.name webcam ++ "/"
                ++ typeName animationType).
    assert (Hpat : pattern = dir ++ "/").
    { unfold pattern, dir. cbn [printNullable].
      repeat (progress (cbn [append]; rewrite ?append_assoc)). reflexivity. }
    destruct (mp4Match_timestamp (Str.ofZ scheduledTime) Hd Hne) as [Hyes Hno].
    destruct (AnimationType_eqb animationType hourly) eqn:Hty.
    + assert (Hk' : storageKey
                    = dir ++ "/" ++ (Str.ofZ scheduledTime ++ "_undefined.mp4")).
      { rewrite Hk. unfold generateAnimationStorageKey, dir. rewrite Hty.
        cbn [orElse]. repeat (progress (cbn [append]; rewrite ?append_assoc)).
        reflexivity. }
      assert (Hpre : String.prefix pattern storageKey = true)
        by (rewrite Hk', Hpat, <- append_assoc; apply prefix_append).
      assert (Hlast : last (Str.split "/" storageKey) ""
                      = Str.ofZ scheduledTime ++ "_undefined.mp4")
        by (rewrite Hk'; apply last_segment; now apply Hns).
      rewrite Hpre, Hlast, Hno. cbn [negb]. rewrite orb_true_r. reflexivity.
    + assert (Hk' : storageKey = dir ++ "/" ++ (Str.ofZ scheduledTime ++ ".mp4")).
      { rewrite Hk. unfold generateAnimationStorageKey, dir. rewrite Hty.
        cbn [orElse]. repeat (progress (cbn [append]; rewrite ?append_assoc)).
        reflexivity. }
      assert (Hpre : String.prefix pattern storageKey = true)
        by (rewrite Hk', Hpat, <- append_assoc; apply prefix_append).
      assert (Hlast : last (Str.split "/" storageKey) ""
                      = Str.ofZ scheduledTime ++ ".mp4")
        by (rewrite Hk'; apply last_segment; now apply Hns).
      rewrite Hpre, Hlast, Hyes. cbn [negb]. rewrite orb_false_r.
      destruct (Str.ofZ scheduledTime); [congruence | reflexivity].
  - (* no park *)
    assert (Hp : String.prefix pattern storageKey = false).
    { rewrite Hk. unfold pattern, generateAnimationStorageKey.
      destruct (AnimationType_eqb animationType hourly); reflexivity. }
    rewrite Hp. cbn [negb fst]. now rewrite Hmsg.
Qed.

Lemma own_storage_key_check_witness :
  let sunriseRow :=
    toInsert 6 (@createAnimationEntry SampleEnv.env Sample.clock Sample.denverCam
                  sunrise 1758719070000 1758713790 1758719010) in
  let hourlyRow :=
    toInsert 7 (@createAnimationEntry SampleEnv.env Sample.clock Sample.denverCam
                  hourly 1758722700000 1758718800 1758722400) in
  let northRow :=
    toInsert 8 (@createAnimationEntry SampleEnv.env Sample.clock SampleEnv.northCam
                  sunrise 1758719070000 1758713790 1758719010) in
  let webcams := [Sample.denverCam; SampleEnv.northCam] in
  let queue := [sunriseRow; hourlyRow; northRow] in
  Update.success
    (fst (updateAnimationStorageKey webcams 6
            "gifs/Rocky Mountain/Denver Cam/sunrise/1758719070000.mp4" queue))
  = true /\
  Update.message
    (fst (updateAnimationStorageKey webcams 7
            "gifs/Rocky Mountain/Denver Cam/hourly/1758722700000_undefined.mp4"
            queue))
  = "Invalid filename format. Expected: timestamp.mp4" /\
  Update.message
    (fst (updateAnimationStorageKey webcams 8
            "gifs/unknown/North Cam/sunrise/1758719070000.mp4" queue))
  = "Invalid storage key format. Expected pattern: gifs/null/North Cam/sunrise/timestamp.mp4".
Proof.
  intros sunriseRow hourlyRow northRow webcams queue.
  split; [|split].
  - rewrite (@own_storage_key_check SampleEnv.env Sample.clock webcams queue
               Sample.denverCam sunrise 1758719070000 1758713790 1758719010 6
               "gifs/Rocky Mountain/Denver Cam/sunrise/1758719070000.mp4"
               eq_refl eq_refl ltac:(lia) eq_refl).
    reflexivity.
  - rewrite (@own_storage_key_check SampleEnv.env Sample.clock webcams queue
               Sample.denverCam hourly 1758722700000 1758718800 1758722400 7
               "gifs/Rocky Mountain/Denver Cam/hourly/1758722700000_undefined.mp4"
               eq_refl eq_refl ltac:(lia) eq_refl).
    reflexivity.
  - rewrite (@own_storage_key_check SampleEnv.env Sample.clock webcams queue
               SampleEnv.northCam sunrise 1758719070000 1758713790 1758719010 8
               "gifs/unknown/North Cam/sunrise/1758719070000.mp4"
               eq_refl eq_refl ltac:(lia) eq_refl).
    reflexivity.
Defined.

(* ------------------------------------------------------------------ *)
(** ** The completion endpoint *)


(** On a database without faults nothing is caught. *)
Lemma markAnimationCompletedOn_noFaults (clock : Instant) (id : Z) (queue : Queue) :
  markAnimationCompletedOn noFaults clock id queue
  = markAnimationCompleted clock id queue.
Proof. reflexivity. Qed.




(* ------------------------------------------------------------------ *)
(** ** The date strings of the callers of the scheduler *)

(** The decimal string of a year of four digits. *)
Lemma year_digits (fullYear : Z) :
  1000 <= fullYear <= 9999 ->
  exists y1 y2 y3 y4,
    Str.ofZ fullYear = String y1 (String y2 (String y3 (String y4 ""))) /\
    Str.isDigit y1 && Str.isDigit y2 && Str.isDigit y3 && Str.isDigit y4 = true.
Proof.
  intros Hy.
  pose (check := fun n : nat =>
          match Str.ofZ (1000 + Z.of_nat n) with
          | String y1 (String y2 (String y3 (String y4 EmptyString))) =>
              Str.isDigit y1 && Str.isDigit y2 && Str.isDigit y3 && Str.isDigit y4
          | _ => false
          end).
  assert (Hall : forallb check (seq 0 (Z.to_nat 9000)) = true)
    by (vm_compute; reflexivity).
  rewrite forallb_forall in Hall.
  specialize (Hall (Z.to_nat (fullYear - 1000)) ltac:(apply in_seq; lia)).
  unfold check in Hall.
  replace (1000 + Z.of_nat (Z.to_nat (fullYear - 1000))) with fullYear in Hall by lia.
  destruct (Str.ofZ fullYear) as [|y1 [|y2 [|y3 [|y4 [|y5 rest]]]]];
    try discriminate Hall.
  now exists y1, y2, y3, y4.
Qed.

(** What the pattern makes of a string that starts with four digits. *)
Lemma dateRegex_after_year (y1 y2 y3 y4 : ascii) (rest : string) :
  Str.isDigit y1 && Str.isDigit y2 && Str.isDigit y3 && Str.isDigit y4 = true ->
  dateRegex (String y1 (String y2 (String y3 (String y4 rest))))
  = match list_ascii_of_string rest with
    | [d1; m1; m2; d2; a1; a2] =>
        Ascii.eqb d1 "-" && Str.isDigit m1 && Str.isDigit m2
        && Ascii.eqb d2 "-" && Str.isDigit a1 && Str.isDigit a2
    | _ => false
    end.
Proof.
  intros H. unfold dateRegex. cbn [list_ascii_of_string].
  destruct (list_ascii_of_string rest)
    as [|d1 [|m1 [|m2 [|d2 [|a1 [|a2 [|x l]]]]]]]; try reflexivity.
  now rewrite H.
Qed.

(** X12.  The scheduled handler calls [createTodaysAnimations] with the
    year, the month as [getUTCMonth] counts it (from 0) and the day of the
    month, none of them padded.  For a year of four digits the call throws
    the invalid-date error unless the month number and the day are both 10
    or more, that is, on every day from January to October and on the first
    nine days of November and December. *)
Theorem cron_date_string (E : Environment) (clock : Instant)
    (webcams : list WebcamDto) (queue : Queue) (fullYear month date : Z) :
  1000 <= fullYear <= 9999 -> 0 <= month <= 11 -> 1 <= date <= 31 ->
  createTodaysAnimations clock webcams queue (cronDateString fullYear month date)
  = if (10 <=? month) && (10 <=? date)
    then Returned (persist (animationsToCreate clock webcams
                              (cronDateString fullYear month date)) queue)
    else Thrown "invalid date must be (YYYY-MM-DD)".
Proof.
  intros Hy Hm Hd.
  assert (Hre : dateRegex (cronDateString fullYear month date)
                = (10 <=? month) && (10 <=? date)).
  { destruct (year_digits fullYear Hy) as (y1 & y2 & y3 & y4 & Ey & Hdig).
    unfold cronDateString. rewrite Ey. cbn [append].
    rewrite (dateRegex_after_year y1 y2 y3 y4 _ Hdig).
    pose (check := fun m d : nat =>
            Bool.eqb
              match list_ascii_of_string
                      (String "-" (Str.ofZ (Z.of_nat m) ++ "-" ++ Str.ofZ (Z.of_nat d)))
              with
              | [d1; m1; m2; d2; a1; a2] =>
                  Ascii.eqb d1 "-" && Str.isDigit m1 && Str.isDigit m2
                  && Ascii.eqb d2 "-" && Str.isDigit a1 && Str.isDigit a2
              | _ => false
              end
              ((10 <=? Z.of_nat m) && (10 <=? Z.of_nat d))).
    assert (Hall : forallb (fun m => forallb (check m) (seq 1 31)) (seq 0 12) = true)
      by (vm_compute; reflexivity).
    rewrite forallb_forall in Hall.
    specialize (Hall (Z.to_nat month) ltac:(apply in_seq; lia)).
    rewrite forallb_forall in Hall.
    specialize (Hall (Z.to_nat date) ltac:(apply in_seq; lia)).
    unfold check in Hall. rewrite !Z2Nat.id in Hall by lia.
    now apply Bool.eqb_prop in Hall. }
  unfold createTodaysAnimations. rewrite Hre.
  now destruct ((10 <=? month) && (10 <=? date)).
Qed.

Lemma cron_date_string_witness :
  cronDateString 2025 8 24 = "2025-8-24" /\
  @createTodaysAnimations SampleEnv.env Sample.clock [Sample.denverCam]
    Sample.queue (cronDateString 2025 8 24)
  = Thrown "invalid date must be (YYYY-MM-DD)" /\
  exists queue',
    @createTodaysAnimations SampleEnv.env Sample.clock [Sample.denverCam]
      Sample.queue (cronDateString 2025 10 24)
    = Returned queue'.
Proof.
  split; [reflexivity|]. split.
  - rewrite (cron_date_string SampleEnv.env Sample.clock [Sample.denverCam]
               Sample.queue 2025 8 24) by lia.
    reflexivity.
  - rewrite (cron_date_string SampleEnv.env Sample.clock [Sample.denverCam]
               Sample.queue 2025 10 24) by lia.
    eexists. reflexivity.
Defined.

Lemma padStart_two_digits (n : Z) :
  0 <= n <= 99 ->
  exists a b, padStart 2 "0" (Str.ofZ n) = String a (String b "")
              /\ Str.isDigit a && Str.isDigit b = true.
Proof.
  intros Hn.
  pose (check := fun k : nat =>
          match padStart 2 "0" (Str.ofZ (Z.of_nat k)) with
          | String a (String b EmptyString) => Str.isDigit a && Str.isDigit b
          | _ => false
          end).
  assert (Hall : forallb check (seq 0 100) = true) by (vm_compute; reflexivity).
  rewrite forallb_forall in Hall.
  specialize (Hall (Z.to_nat n) ltac:(apply in_seq; lia)).
  unfold check in Hall. rewrite Z2Nat.id in Hall by lia.
  destruct (padStart 2 "0" (Str.ofZ n)) as [|a [|b [|c rest]]]; try discriminate Hall.
  now exists a, b.
Qed.

(** X13.  The date [GET gifs/schedule] takes when the request names none
    always passes the check of [createTodaysAnimations], for a year of four
    digits: the run does not throw the invalid-date error, and schedules
    for the string made of the year, the padded month number counted from
    0, and the padded day after the day of the month (up to 32). *)
Theorem default_schedule_date (E : Environment) (clock : Instant)
    (webcams : list WebcamDto) (queue : Queue) (fullYear month date : Z) :
  1000 <= fullYear <= 9999 -> 0 <= month <= 11 -> 1 <= date <= 31 ->
  createTodaysAnimations clock webcams queue
    (defaultScheduleDate fullYear month date)
  = Returned (persist (animationsToCreate clock webcams
                         (defaultScheduleDate fullYear month date)) queue).
Proof.
  intros Hy Hm Hd.
  assert (Hre : dateRegex (defaultScheduleDate fullYear month date) = true).
  { destruct (year_digits fullYear Hy) as (y1 & y2 & y3 & y4 & Ey & Hdig).
    destruct (padStart_two_digits month ltac:(lia)) as (m1 & m2 & Em & Hmd).
    destruct (padStart_two_digits (date + 1) ltac:(lia)) as (a1 & a2 & Ea & Had).
    unfold defaultScheduleDate. rewrite Ey, Em, Ea. cbn [append].
    rewrite (dateRegex_after_year y1 y2 y3 y4 _ Hdig).
    cbn [list_ascii_of_string].
    apply andb_true_iff in Hmd as [-> ->]. apply andb_true_iff in Had as [-> ->].
    reflexivity. }
  unfold createTodaysAnimations. now rewrite Hre.
Qed.

Lemma default_schedule_date_witness :
  defaultScheduleDate 2025 0 31 = "2025-00-32" /\
  exists queue',
    @createTodaysAnimations SampleEnv.env Sample.clock [Sample.denverCam]
      Sample.queue (defaultScheduleDate 2025 0 31)
    = Returned queue'.
Proof.
  split; [reflexivity|].
  rewrite (default_schedule_date SampleEnv.env Sample.clock [Sample.denverCam]
             Sample.queue 2025 0 31) by lia.
  eexists. reflexivity.
Defined.

(* ------------------------------------------------------------------ *)
(** ** Daylight and the windows of the scheduler *)

Lemma floorSeconds_mono (x y : Q) :
  (x <= y)%Q -> Num.floorSeconds x <= Num.floorSeconds y.
Proof.
  intros H. unfold Num.floorSeconds. apply Qfloor_resp_le.
  unfold Qdiv. apply Qmult_le_compat_r; [exact H | discriminate].
Qed.

Lemma floorSeconds_inject (z : Z) : Num.floorSeconds (inject_Z z) = z / 1000.
Proof. unfold Num.floorSeconds. now rewrite Zdiv_Qdiv. Qed.

Section Daylight.

Context {E : Environment}.

(** X14.  Daylight, as [isDaylight] decides it for the capture of images,
    lies within the window of the full-day job: on a day with a sunrise, a
    sunset, a first and a last light, when [isDaylight] holds at an instant
    for the solar times the scheduler used, the scheduler has made a
    full-day job for the webcam, and the second of that instant, which is
    the timestamp of an image captured then, is within the window of the
    job. *)
Theorem daylight_within_full_day_window (clock : Instant) (dateString : string)
    (webcam : WebcamDto) (solarTimes : SolarTimes) (currentTimestamp : Z) :
  truthy (Webcam.latLon webcam) = true ->
  truthy (Webcam.timezone webcam) = true ->
  calculateWebcamSolarTimes (Webcam.latLon webcam) (anchorOfDay dateString)
  = Some solarTimes ->
  calculateWebcamSolarTimes (Webcam.latLon webcam) (Num.ofZ currentTimestamp)
  = Some solarTimes ->
  Num.isNaN (Solar.sunrise solarTimes) = false ->
  Num.isNaN (Solar.sunset solarTimes) = false ->
  Num.isNaN (Solar.firstLight solarTimes) = false ->
  Num.isNaN (Solar.lastLight solarTimes) = false ->
  isDaylight (Webcam.latLon webcam) (Num.ofZ currentTimestamp) = true ->
  exists a,
    In a (animationsForWebcam clock dateString webcam) /\
    Entry.gif_type a = full_day /\
    Entry.start_time a <= currentTimestamp / 1000 <= Entry.end_time a.
Proof.
  intros Hl Hz Ha Hn Hsr Hss Hfl Hll Hday.
  unfold isDaylight in Hday. rewrite Hn, Hfl, Hll in Hday. cbv zeta in Hday.
  unfold animationsForWebcam. rewrite Hl, Hz, Ha. cbv zeta. cbn [negb].
  destruct (Solar.sunrise solarTimes) as [sr|]; [|discriminate].
  destruct (Solar.sunset solarTimes) as [ss|]; [|discriminate].
  destruct (Solar.firstLight solarTimes) as [fl|]; [|discriminate].
  destruct (Solar.lastLight solarTimes) as [ll|]; [|discriminate].
  unfold quarter in *.
  cbn [Num.sub Num.add Num.mul Num.lift2 Num.isNaN negb andb orb] in *.
  unfold Num.ofZ, numGe, numLe in Hday.
  apply andb_true_iff in Hday as [H1 H2].
  apply Qle_bool_iff in H1, H2.
  eexists. split.
  - apply in_or_app. right. apply in_or_app. right. apply in_or_app. left.
    left. reflexivity.
  - split; [reflexivity|]. cbn [Entry.start_time Entry.end_time createAnimationEntry].
    rewrite <- floorSeconds_inject. split; now apply floorSeconds_mono.
Qed.

(** X15.  Days without a sunrise, a sunset or a twilight.  Without a first
    or a last light [isDaylight] holds at every instant, the default of the
    code; with both but without a sunrise or a sunset it holds at none, the
    comparisons with NaN being false.  The scheduler makes no job at all
    for a webcam on a day without a sunset or without a last light. *)
Theorem days_without_solar_times (clock : Instant) (dateString : string)
    (webcam : WebcamDto) (solarTimes : SolarTimes) (currentTimestamp : number) :
  calculateWebcamSolarTimes (Webcam.latLon webcam) (anchorOfDay dateString)
  = Some solarTimes ->
  calculateWebcamSolarTimes (Webcam.latLon webcam) currentTimestamp
  = Some solarTimes ->
  (Num.isNaN (Solar.firstLight solarTimes) = true
   \/ Num.isNaN (Solar.lastLight solarTimes) = true ->
   isDaylight (Webcam.latLon webcam) currentTimestamp = true) /\
  (Num.isNaN (Solar.firstLight solarTimes) = false ->
   Num.isNaN (Solar.lastLight solarTimes) = false ->
   Num.isNaN (Solar.sunrise solarTimes) = true
   \/ Num.isNaN (Solar.sunset solarTimes) = true ->
   isDaylight (Webcam.latLon webcam) currentTimestamp = false) /\
  (Num.isNaN (Solar.sunset solarTimes) = true
   \/ Num.isNaN (Solar.lastLight solarTimes) = true ->
   animationsForWebcam clock dateString webcam = []).
Proof.
  intros Ha Hn. unfold isDaylight. rewrite Hn. cbv zeta.
  split; [|split].
  - intros [-> | ->]; [reflexivity | now rewrite orb_true_r].
  - intros Hfl Hll. rewrite Hfl, Hll. cbn [orb].
    destruct (Solar.sunrise solarTimes), (Solar.sunset solarTimes),
      (Solar.firstLight solarTimes), (Solar.lastLight solarTimes),
      currentTimestamp; cbn in *; intros [H | H]; try congruence;
      apply andb_false_r.
  - intros Hnan. unfold animationsForWebcam. rewrite Ha.
    destruct (negb (truthy (Webcam.latLon webcam))); [reflexivity|].
    destruct (negb (truthy (Webcam.timezone webcam))); [reflexivity|].
    cbv zeta.
    assert (Hle : Num.add (Solar.lastLight solarTimes)
                    (Num.mul quarter
                       (Num.sub (Solar.lastLight solarTimes)
                          (Solar.sunset solarTimes))) = None).
    { destruct (Solar.sunset solarTimes), (Solar.lastLight solarTimes);
        cbn in *; destruct Hnan; congruence. }
    rewrite Hle. cbn [Num.isNaN negb andb]. rewrite !andb_false_r. reflexivity.
Qed.

End Daylight.

Lemma daylight_within_full_day_window_witness :
  exists a,
    In a (@animationsForWebcam SampleEnv.env Sample.clock "2025-09-24"
            Sample.denverCam) /\
    Entry.gif_type a = full_day /\
    Entry.start_time a <= 1758722400 <= Entry.end_time a.
Proof.
  destruct (@daylight_within_full_day_window SampleEnv.env Sample.clock
              "2025-09-24" Sample.denverCam SampleEnv.denverTimes 1758722400123)
    as (a & Hin & Hty & Hw); try reflexivity.
  exists a. split; [exact Hin|]. split; [exact Hty | exact Hw].
Defined.

Lemma days_without_solar_times_witness :
  @isDaylight SampleEnv.env (Webcam.latLon SampleEnv.northCam)
    (Num.ofZ 1758722400123) = true /\
  @animationsForWebcam SampleEnv.env Sample.clock "2025-09-24" SampleEnv.northCam
  = [].
Proof.
  destruct (@days_without_solar_times SampleEnv.env Sample.clock "2025-09-24"
              SampleEnv.northCam SampleEnv.poleTimes (Num.ofZ 1758722400123)
              eq_refl eq_refl)
    as (H1 & _ & H3).
  split; [apply H1 | apply H3]; now right.
Defined.

(* ------------------------------------------------------------------ *)
(** ** The days of the sunrise policy *)

Lemma fold_left_None {A B} (f : option A -> B -> option A) (l : list B) :
  (forall b, f None b = None) -> fold_left f l None = None.
Proof. intros Hf. induction l as [|b l IH]; simpl; [reflexivity | now rewrite Hf]. Qed.

(** On a host on UTC or west of it the loop steps from a local midnight to
    the next one. *)
Lemma daysLoop_midnights (timezoneOffset : Z) (fuel : nat) :
  0 <= timezoneOffset < dayMillis ->
  forall k endDay,
    (Z.to_nat ((endDay - timezoneOffset) / dayMillis - k + 1)%Z < fuel)%nat ->
    @daysLoop (hostAt timezoneOffset) fuel (k * dayMillis + timezoneOffset) endDay
    = Some (map (fun i => (k + Z.of_nat i) * dayMillis + timezoneOffset)
              (seq 0 (Z.to_nat ((endDay - timezoneOffset) / dayMillis - k + 1)))).
Proof.
  intros Htz. assert (HD : 0 < dayMillis) by reflexivity.
  induction fuel as [|fuel IH]; intros k e Hf; [lia|].
  cbn [daysLoop]. destruct (Z.leb_spec (k * dayMillis + timezoneOffset) e) as [Hle|Hgt].
  - assert (Hk : k <= (e - timezoneOffset) / dayMillis)
      by (apply Z.div_le_lower_bound; lia).
    unfold nextMidnight. cbn [localMidnight hostAt].
    rewrite Z.div_add_l, (Z.div_small timezoneOffset), Z.add_0_r by lia.
    replace (Z.to_nat ((e - timezoneOffset) / dayMillis - k + 1))
      with (S (Z.to_nat ((e - timezoneOffset) / dayMillis - (k + 1) + 1))) in *
      by lia.
    rewrite IH by lia. cbn [option_map seq map]. f_equal. f_equal; [f_equal; lia|].
    rewrite <- seq_shift, map_map. apply map_ext. intros i. f_equal. f_equal. lia.
  - assert (Hk : (e - timezoneOffset) / dayMillis < k)
      by (apply Z.div_lt_upper_bound; lia).
    replace (Z.to_nat ((e - timezoneOffset) / dayMillis - k + 1)) with 0%nat by lia.
    reflexivity.
Qed.

Lemma div_sub_le (a b d : Z) : 0 < d -> b / d - a / d <= (b - a) / d + 1.
Proof.
  intros Hd. assert (b / d - a / d - 1 <= (b - a) / d); [|lia].
  apply Z.div_le_lower_bound; [lia|].
  pose proof (Z.div_mod a d ltac:(lia)). pose proof (Z.div_mod b d ltac:(lia)).
  pose proof (Z.mod_pos_bound a d Hd). pose proof (Z.mod_pos_bound b d Hd). nia.
Qed.

(** The days of a range on a host on UTC or west of it. *)
Lemma daysLoop_west (timezoneOffset startDay endDay : Z) (fuel : nat) :
  0 <= timezoneOffset < dayMillis ->
  (daysFuel startDay endDay <= fuel)%nat ->
  @daysLoop (hostAt timezoneOffset) fuel startDay endDay
  = Some (if startDay <=? endDay then
            startDay
            :: map (fun i => (startDay / dayMillis + 1 + Z.of_nat i) * dayMillis
                             + timezoneOffset)
                 (seq 0 (Z.to_nat ((endDay - timezoneOffset) / dayMillis
                                   - startDay / dayMillis)))
          else []).
Proof.
  intros Htz Hf. assert (HD : 0 < dayMillis) by reflexivity.
  unfold daysFuel in Hf.
  destruct fuel as [|fuel]; [lia|].
  cbn [daysLoop]. destruct (Z.leb_spec startDay endDay) as [Hle|Hgt]; [|reflexivity].
  unfold nextMidnight. cbn [localMidnight hostAt].
  pose proof (div_sub_le startDay endDay dayMillis HD) as Hb.
  assert (Hoff : (endDay - timezoneOffset) / dayMillis <= endDay / dayMillis)
    by (apply Z.div_le_mono; lia).
  assert (0 <= (endDay - startDay) / dayMillis) by (apply Z.div_pos; lia).
  rewrite daysLoop_midnights by (try exact Htz; lia).
  cbn [option_map].
  replace ((endDay - timezoneOffset) / dayMillis - (startDay / dayMillis + 1) + 1)
    with ((endDay - timezoneOffset) / dayMillis - startDay / dayMillis) by ring.
  reflexivity.
Qed.

(** A day from which the next midnight of the host is no later: the loop
    does not leave it. *)
Lemma daysLoop_stuck {host : Host} (fuel : nat) (currentDay endDay : Instant) :
  nextMidnight currentDay = currentDay -> currentDay <= endDay ->
  daysLoop fuel currentDay endDay = None.
Proof.
  intros Hfix Hle. induction fuel as [|fuel IH]; [reflexivity|].
  cbn [daysLoop]. rewrite Hfix, IH.
  apply Z.leb_le in Hle. now rewrite Hle.
Qed.

(** East of Greenwich the local midnight of the day after a UTC date is
    still of this UTC date: the step of the loop comes back to it. *)
Lemma nextMidnight_east (timezoneOffset currentDay : Z) :
  - dayMillis <= timezoneOffset < 0 ->
  @nextMidnight (hostAt timezoneOffset)
    (@nextMidnight (hostAt timezoneOffset) currentDay)
  = @nextMidnight (hostAt timezoneOffset) currentDay.
Proof.
  intros Htz. assert (HD : 0 < dayMillis) by reflexivity.
  unfold nextMidnight. cbn [localMidnight hostAt]. f_equal. f_equal.
  replace ((currentDay / dayMillis + 1) * dayMillis + timezoneOffset)
    with (currentDay / dayMillis * dayMillis + (dayMillis + timezoneOffset)) by ring.
  rewrite Z.div_add_l by lia.
  rewrite (Z.div_small (dayMillis + timezoneOffset)) by lia. ring.
Qed.

Lemma daysLoop_east (timezoneOffset startDay endDay : Z) (fuel : nat) :
  - dayMillis <= timezoneOffset < 0 ->
  startDay <= endDay ->
  (startDay / dayMillis + 1) * dayMillis + timezoneOffset <= endDay ->
  @daysLoop (hostAt timezoneOffset) fuel startDay endDay = None.
Proof.
  intros Htz Hle Hnext. destruct fuel as [|fuel]; [reflexivity|].
  cbn [daysLoop]. rewrite (@daysLoop_stuck (hostAt timezoneOffset)).
  - apply Z.leb_le in Hle. now rewrite Hle.
  - now apply nextMidnight_east.
  - exact Hnext.
Qed.

(** X16.  The days the sunrise policy visits for a range [start, end] in
    seconds depend on the time zone of the host.  On a host on UTC, or west
    of it by less than a day, the loop leaves by its condition: it visits
    no day when the range is empty, and otherwise the start of the range
    itself and after it, in order and up to the end of the range, the local
    midnights of the days that follow the UTC date of the start (on a UTC
    host: every UTC midnight after the start).  On a host east of Greenwich
    the local midnight of the day after the UTC date of the start falls on
    that UTC date still: when it is within the range the loop comes back to
    it at every turn and never leaves; when it is not, the start is the
    only day. *)
Theorem sunrise_policy_days (timezoneOffset startTime endTime : Z) :
  let startDay := startTime * 1000 in
  let endDay := endTime * 1000 in
  let nextDay := (startDay / dayMillis + 1) * dayMillis + timezoneOffset in
  (0 <= timezoneOffset < dayMillis ->
   forall fuel,
     (daysFuel startDay endDay <= fuel)%nat ->
     @daysLoop (hostAt timezoneOffset) fuel startDay endDay
     = Some (if startTime <=? endTime then
               startDay
               :: map (fun i => (startDay / dayMillis + 1 + Z.of_nat i) * dayMillis
                                + timezoneOffset)
                    (seq 0 (Z.to_nat ((endDay - timezoneOffset) / dayMillis
                                      - startDay / dayMillis)))
             else [])) /\
  (- dayMillis <= timezoneOffset < 0 ->
   (startTime <= endTime -> nextDay <= endDay ->
    forall fuel, @daysLoop (hostAt timezoneOffset) fuel startDay endDay = None) /\
   (startTime <= endTime -> endDay < nextDay ->
    forall fuel,
      (2 <= fuel)%nat ->
      @daysLoop (hostAt timezoneOffset) fuel startDay endDay = Some [startDay]) /\
   (endTime < startTime ->
    forall fuel,
      (1 <= fuel)%nat ->
      @daysLoop (hostAt timezoneOffset) fuel startDay endDay = Some [])).
Proof.
  intros startDay endDay nextDay. split.
  - intros Htz fuel Hf. rewrite daysLoop_west by assumption.
    replace (startDay <=? endDay) with (startTime <=? endTime); [reflexivity|].
    unfold startDay, endDay.
    destruct (Z.leb_spec startTime endTime), (Z.leb_spec (startTime * 1000) (endTime * 1000));
      lia || reflexivity.
  - intros Htz. split; [|split].
    + intros Hle Hnext fuel. apply daysLoop_east; unfold startDay, endDay in *;
        try assumption; lia.
    + intros Hle Hnext fuel Hf. destruct fuel as [|[|fuel]]; try lia.
      cbn [daysLoop]. unfold nextMidnight. cbn [localMidnight hostAt].
      fold nextDay.
      assert (H1 : (startDay <=? endDay) = true)
        by (apply Z.leb_le; unfold startDay, endDay; lia).
      assert (H2 : (nextDay <=? endDay) = false) by (apply Z.leb_gt; lia).
      now rewrite H1, H2.
    + intros Hgt fuel Hf. destruct fuel as [|fuel]; try lia.
      cbn [daysLoop].
      assert (H1 : (startDay <=? endDay) = false)
        by (apply Z.leb_gt; unfold startDay, endDay; lia).
      now rewrite H1.
Qed.

(** A range of three days and a half: four instants on a UTC host, no end on
    a host an hour east of Greenwich. *)
Lemma sunrise_policy_days_witness :
  @daysLoop utcHost 6 (1758722400 * 1000) (1759024800 * 1000)
  = Some [1758722400000; 1758758400000; 1758844800000; 1758931200000;
          1759017600000] /\
  forall fuel,
    @daysLoop (hostAt (-3600000)) fuel (1758722400 * 1000) (1759024800 * 1000)
    = None.
Proof.
  destruct (sunrise_policy_days 0 1758722400 1759024800) as (Hwest & _).
  destruct (sunrise_policy_days (-3600000) 1758722400 1759024800)
    as (_ & Heast).
  split.
  - unfold utcHost.
    rewrite (Hwest ltac:(vm_compute; split; congruence) 6%nat
               ltac:(vm_compute; lia)).
    vm_compute. reflexivity.
  - destruct (Heast ltac:(vm_compute; split; congruence)) as (Hnone & _).
    apply Hnone; vm_compute; congruence.
Defined.

(* ------------------------------------------------------------------ *)
(** ** The tag of the sunrise policy *)

Lemma same_image (images : list Image) (a b : Image) :
  NoDup (map Image.id images) -> In a images -> In b images ->
  Image.id a = Image.id b -> a = b.
Proof.
  induction images as [|r images IH]; intros Hnd Ha Hb Eq; [destruct Ha|].
  simpl in Hnd. inversion Hnd as [|? ? Hnot Hnd']; subst.
  destruct Ha as [-> | Ha], Hb as [-> | Hb].
  - reflexivity.
  - exfalso. apply Hnot. rewrite Eq. now apply in_map.
  - exfalso. apply Hnot. rewrite <- Eq. now apply in_map.
  - now apply IH.
Qed.

Lemma existsb_id_In (l images : list Image) (y : Image) :
  NoDup (map Image.id images) -> (forall x, In x l -> In x images) ->
  In y images ->
  existsb (fun x => Image.id x =? Image.id y) l = true <-> In y l.
Proof.
  intros Hnd Hsub Hy. rewrite existsb_exists. split.
  - intros (x & Hx & Eq). apply Z.eqb_eq in Eq.
    now rewrite <- (same_image images x y Hnd (Hsub x Hx) Hy Eq).
  - intros Hin. exists y. split; [exact Hin | apply Z.eqb_refl].
Qed.

Lemma filter_ids_NoDup (p : Image -> bool) (l : list Image) :
  NoDup (map Image.id l) -> NoDup (map Image.id (filter p l)).
Proof.
  induction l as [|x l IH]; simpl; intros Hnd; [constructor|].
  inversion Hnd as [|? ? Hnot Hnd']; subst.
  destruct (p x); [|now apply IH]. simpl. constructor; [|now apply IH].
  intros Hin. apply Hnot. apply in_map_iff in Hin as (y & Eq & Hy).
  apply filter_In in Hy as [Hy _]. rewrite <- Eq. now apply in_map.
Qed.

(** A run of [putImage] over rows of the table rewrites these rows, each
    once. *)
Lemma fold_putImage (f : Image -> Image) (l : list Image) :
  (forall x, Image.id (f x) = Image.id x) ->
  forall images,
    NoDup (map Image.id images) -> NoDup (map Image.id l) ->
    (forall x, In x l -> In x images) ->
    fold_left (fun t x => putImage (f x) t) l images
    = map (fun y => if existsb (fun x => Image.id x =? Image.id y) l
                    then f y else y) images.
Proof.
  intros Hid. induction l as [|a l IH]; intros images Hnd Hl Hsub; simpl.
  - now rewrite map_id.
  - inversion Hl as [|? ? Hnot Hl']; subst.
    assert (Hput : putImage (f a) images
                   = map (fun y => if Image.id y =? Image.id a then f y else y) images).
    { unfold putImage. apply map_ext_in. intros y Hy. rewrite Hid.
      destruct (Z.eqb_spec (Image.id y) (Image.id a)) as [Eq|]; [|reflexivity].
      now rewrite (same_image images y a Hnd Hy (Hsub a (or_introl eq_refl)) Eq). }
    rewrite Hput, IH.
    + rewrite map_map. apply map_ext. intros y.
      rewrite (Z.eqb_sym (Image.id a) (Image.id y)).
      destruct (Z.eqb_spec (Image.id y) (Image.id a)) as [Eq|Ne]; [|reflexivity].
      rewrite Hid. simpl.
      replace (existsb (fun x => Image.id x =? Image.id y) l) with false; [reflexivity|].
      symmetry. apply not_true_is_false. intros Hex.
      apply existsb_exists in Hex as (x & Hx & Ex). apply Z.eqb_eq in Ex.
      apply Hnot. rewrite <- Eq, <- Ex. now apply in_map.
    + rewrite map_map.
      replace (map (fun y => Image.id (if Image.id y =? Image.id a then f y else y))
                 images) with (map Image.id images); [exact Hnd|].
      apply map_ext. intros y. destruct (_ =? _); [now rewrite Hid | reflexivity].
    + exact Hl'.
    + intros x Hx. apply in_map_iff. exists x. split; [|apply Hsub; now right].
      destruct (Z.eqb_spec (Image.id x) (Image.id a)) as [Eq|]; [|reflexivity].
      exfalso. apply Hnot. rewrite <- Eq. now apply in_map.
Qed.

Lemma hasTag_withoutTag (tag : string) (x : Image) :
  hasTag tag (withoutTag tag x) = false.
Proof.
  unfold hasTag, withoutTag. cbn [tagsOf withTags Image.retentionPolicy].
  induction (tagsOf x) as [|p l IH]; simpl; [reflexivity|].
  destruct (String.eqb_spec p tag) as [->|Ne]; simpl; [exact IH|].
  rewrite IH, orb_false_r. apply String.eqb_neq. congruence.
Qed.

Lemma hasTag_withTag (tag : string) (x : Image) :
  hasTag tag (withTag tag x) = true.
Proof.
  unfold hasTag, withTag. cbn [tagsOf withTags Image.retentionPolicy].
  rewrite existsb_app. simpl. now rewrite String.eqb_refl, orb_true_r.
Qed.

Lemma withoutTag_other_tags (tag : string) (x : Image) (p : string) :
  p <> tag -> In p (tagsOf (withoutTag tag x)) <-> In p (tagsOf x).
Proof.
  intros Ne. unfold withoutTag. cbn [tagsOf withTags Image.retentionPolicy].
  rewrite filter_In, negb_true_iff, String.eqb_neq. tauto.
Qed.

Lemma withTag_other_tags (tag : string) (x : Image) (p : string) :
  p <> tag -> In p (tagsOf (withTag tag x)) <-> In p (tagsOf x).
Proof.
  intros Ne. unfold withTag. cbn [tagsOf withTags Image.retentionPolicy].
  rewrite in_app_iff. simpl. intuition congruence.
Qed.

(** The table after the tagging: the first of the sorted images has the
    tag, the others of them have lost it, the other rows are as before. *)
Lemma tagFirst_table (tag : string) (chosen : Image) (rest : list Image)
    (run : RetentionRun) :
  NoDup (map Image.id (table run)) ->
  NoDup (map Image.id (chosen :: rest)) ->
  (forall x, In x (chosen :: rest) -> In x (table run)) ->
  table (tagFirst tag (chosen :: rest) run)
  = map (fun y =>
           if existsb (fun x => Image.id x =? Image.id y) (chosen :: rest) then
             if Image.id y =? Image.id chosen
             then if hasTag tag y then y else withTag tag y
             else if hasTag tag y then withoutTag tag y else y
           else y)
      (table run).
Proof.
  intros Hnd Hs Hsub.
  assert (Hc : In chosen (table run)) by (apply Hsub; now left).
  unfold tagFirst. cbv zeta. cbn [table].
  set (sorted := chosen :: rest) in *.
  set (needs := filter (hasTag tag)
                  (filter (fun x => negb (Image.id x =? Image.id chosen)) sorted)).
  assert (Hneeds : forall y, In y (table run) ->
            existsb (fun x => Image.id x =? Image.id y) needs
            = existsb (fun x => Image.id x =? Image.id y) sorted
              && negb (Image.id y =? Image.id chosen) && hasTag tag y).
  { intros y Hy. apply eq_true_iff_eq.
    rewrite !andb_true_iff.
    rewrite (existsb_id_In needs (table run) y Hnd), (existsb_id_In sorted (table run) y Hnd);
      try assumption.
    - unfold needs. rewrite !filter_In. tauto.
    - intros x Hx. unfold needs in Hx. apply filter_In in Hx as [Hx _].
      apply filter_In in Hx as [Hx _]. now apply Hsub. }
  assert (Hremoved :
            fold_left (fun t x => putImage (withoutTag tag x) t) needs (table run)
            = map (fun y => if existsb (fun x => Image.id x =? Image.id y) needs
                            then withoutTag tag y else y) (table run)).
  { apply (fold_putImage (withoutTag tag)); [reflexivity | exact Hnd | |].
    - unfold needs. now apply filter_ids_NoDup, filter_ids_NoDup.
    - intros x Hx. unfold needs in Hx. apply filter_In in Hx as [Hx _].
      apply filter_In in Hx as [Hx _]. now apply Hsub. }
  rewrite Hremoved.
  assert (Hin : existsb (fun x => Image.id x =? Image.id chosen) sorted = true).
  { apply (existsb_id_In sorted (table run) chosen Hnd Hsub Hc). now left. }
  destruct (hasTag tag chosen) eqn:Htag.
  - apply map_ext_in. intros y Hy. rewrite (Hneeds y Hy).
    destruct (existsb (fun x => Image.id x =? Image.id y) sorted); [|reflexivity].
    cbn [andb].
    destruct (Z.eqb_spec (Image.id y) (Image.id chosen)) as [Eq|Ne]; cbn [negb andb].
    + rewrite (same_image (table run) y chosen Hnd Hy Hc Eq), Htag. reflexivity.
    + reflexivity.
  - unfold putImage. rewrite map_map. apply map_ext_in. intros y Hy.
    rewrite (Hneeds y Hy).
    assert (Eid : Image.id (if existsb (fun x => Image.id x =? Image.id y) sorted
                                  && negb (Image.id y =? Image.id chosen)
                                  && hasTag tag y
                               then withoutTag tag y else y) = Image.id y)
      by (destruct (_ && _); reflexivity).
    rewrite Eid. cbn [withTag withTags Image.id].
    destruct (Z.eqb_spec (Image.id y) (Image.id chosen)) as [Eq|Ne].
    + rewrite (same_image (table run) y chosen Hnd Hy Hc Eq), Hin, Htag. reflexivity.
    + cbn [negb]. rewrite andb_true_r.
      destruct (existsb (fun x => Image.id x =? Image.id y) sorted); reflexivity.
Qed.

Lemma insertBySeconds_perm (imageTime : Q) (x : Image) (l : list Image) :
  Permutation (insertBySeconds imageTime x l) (x :: l).
Proof.
  induction l as [|y l IH]; simpl; [reflexivity|].
  destruct (Qle_bool _ _); [reflexivity|].
  rewrite IH. apply perm_swap.
Qed.

Lemma sortBySeconds_perm (imageTime : Q) (l : list Image) :
  Permutation (sortBySeconds imageTime l) l.
Proof.
  induction l as [|x l IH]; simpl; [reflexivity|].
  rewrite insertBySeconds_perm. now constructor.
Qed.

Lemma insertBySeconds_sorted (imageTime : Q) (x : Image) (l : list Image) :
  StronglySorted
    (fun a b => (secondsDistance imageTime a <= secondsDistance imageTime b)%Q) l ->
  StronglySorted
    (fun a b => (secondsDistance imageTime a <= secondsDistance imageTime b)%Q)
    (insertBySeconds imageTime x l).
Proof.
  induction l as [|y l IH]; intros Hs; simpl.
  - repeat constructor.
  - inversion Hs as [|? ? Hs' Hall]; subst.
    destruct (Qle_bool _ _) eqn:Hc.
    + apply Qle_bool_iff in Hc. constructor; [exact Hs|].
      constructor; [exact Hc|].
      eapply Forall_impl; [|exact Hall]. simpl. intros z Hz.
      now apply (Qle_trans _ (secondsDistance imageTime y)).
    + assert (Hlt : (secondsDistance imageTime y < secondsDistance imageTime x)%Q).
      { apply Qnot_le_lt. intros Hle. apply Qle_bool_iff in Hle. congruence. }
      constructor; [now apply IH|].
      apply Forall_forall. intros z Hz.
      eapply Permutation_in in Hz; [|apply insertBySeconds_perm].
      destruct Hz as [<- | Hz]; [now apply Qlt_le_weak|].
      rewrite Forall_forall in Hall. now apply Hall.
Qed.

Lemma sortBySeconds_sorted (imageTime : Q) (l : list Image) :
  StronglySorted
    (fun a b => (secondsDistance imageTime a <= secondsDistance imageTime b)%Q)
    (sortBySeconds imageTime l).
Proof.
  induction l as [|x l IH]; simpl; [constructor | now apply insertBySeconds_sorted].
Qed.

Lemma imagesForTimeRange_rows (images : list Image) (webcam : WebcamDto)
    (startTime endTime : Z) (x : Image) :
  In x (imagesForTimeRange images webcam startTime endTime) -> In x images.
Proof.
  unfold imagesForTimeRange. intros Hx.
  eapply Permutation_in in Hx; [|apply orderBy_perm].
  now apply filter_In in Hx.
Qed.

Lemma imagesForTimeRange_NoDup (images : list Image) (webcam : WebcamDto)
    (startTime endTime : Z) :
  NoDup (map Image.id images) ->
  NoDup (map Image.id (imagesForTimeRange images webcam startTime endTime)).
Proof.
  intros Hnd. unfold imagesForTimeRange.
  eapply Permutation_NoDup.
  - apply Permutation_map. symmetry. apply orderBy_perm.
  - now apply filter_ids_NoDup.
Qed.

Lemma Forall2_map_in {A} (P : A -> A -> Prop) (f : A -> A) (l : list A) :
  (forall x, In x l -> P x (f x)) -> Forall2 P l (map f l).
Proof.
  induction l as [|x l IH]; intros Hf; simpl; constructor.
  - apply Hf. now left.
  - apply IH. intros y Hy. apply Hf. now right.
Qed.

Lemma sameButTag_refl (tag : string) (x : Image) : sameButTag tag x x.
Proof. repeat split; trivial. Qed.

Lemma sameButTag_trans (tag : string) (x y z : Image) :
  sameButTag tag x y -> sameButTag tag y z -> sameButTag tag x z.
Proof.
  intros (A1 & A2 & A3 & A4 & A5) (B1 & B2 & B3 & B4 & B5).
  repeat split; try congruence.
  - intros Hp. now apply A5, B5.
  - intros Hp. now apply B5, A5.
Qed.

Lemma sameButTag_withTag (tag : string) (x : Image) :
  sameButTag tag x (withTag tag x).
Proof. repeat split; try reflexivity; now apply withTag_other_tags. Qed.

Lemma sameButTag_withoutTag (tag : string) (x : Image) :
  sameButTag tag x (withoutTag tag x).
Proof. repeat split; try reflexivity; now apply withoutTag_other_tags. Qed.

Lemma sameButTag_ids (tag : string) (l l' : list Image) :
  Forall2 (sameButTag tag) l l' -> map Image.id l' = map Image.id l.
Proof.
  induction 1 as [|x x' l l' Hx _ IH]; simpl; [reflexivity|].
  destruct Hx as (-> & _). now rewrite IH.
Qed.

Lemma Forall2_sameButTag_trans (tag : string) (l1 l2 l3 : list Image) :
  Forall2 (sameButTag tag) l1 l2 -> Forall2 (sameButTag tag) l2 l3 ->
  Forall2 (sameButTag tag) l1 l3.
Proof.
  intros H. revert l3. induction H as [|x y l1 l2 Hxy _ IH]; intros l3 H3.
  - inversion H3. constructor.
  - inversion H3 as [|? z ? l3' Hyz H3']; subst. constructor.
    + now apply (sameButTag_trans tag x y z).
    + now apply IH.
Qed.

Section SunriseFacts.

Context {E : Environment}.

(** X17.  One day of the sunrise policy, on a table with unique ids.  When
    the day has a sunrise and a first light and the window around their
    midpoint (from five minutes before to fifteen minutes after it, in
    seconds) holds images of the webcam, the step picks an image of the
    window that is closest to the midpoint; afterwards this image carries
    the tag Sunrise and no other image of the window does.  The rows
    outside the window are unchanged, and of the rows of the window nothing
    changes but the presence of that tag. *)
Theorem sunrise_day_tags_one_image (webcam : WebcamDto) (run : RetentionRun)
    (day : Instant) (solarTimes : SolarTimes) (rise first : Q) :
  NoDup (map Image.id (table run)) ->
  calculateWebcamSolarTimes (Webcam.latLon webcam) (Num.ofZ day) = Some solarTimes ->
  Solar.sunrise solarTimes = Some rise ->
  Solar.firstLight solarTimes = Some first ->
  let imageTime := ((rise + first) / 2 / 1000)%Q in
  let window :=
    imagesForTimeRange (table run) webcam
      (Qfloor (imageTime - 300)) (Qfloor (900 + imageTime)) in
  window <> [] ->
  exists chosen,
    In chosen window /\
    (forall y, In y window ->
       (secondsDistance imageTime chosen <= secondsDistance imageTime y)%Q) /\
    Forall2
      (fun x x' =>
         sameButTag "Sunrise" x x' /\
         (In x window ->
            (hasTag "Sunrise" x' = true <-> Image.id x = Image.id chosen)) /\
         (~ In x window -> x' = x))
      (table run) (table (sunriseDay webcam run day)).
Proof.
  intros Hnd Hsolar Hrise Hfirst imageTime window Hne.
  unfold sunriseDay. rewrite Hsolar, Hrise, Hfirst. cbv zeta.
  change (Qfloor ((rise + first) / 2 / 1000 - inject_Z (5 * 60))) with
    (Qfloor (imageTime - 300)).
  change (Qfloor (inject_Z (15 * 60) + (rise + first) / 2 / 1000)) with
    (Qfloor (900 + imageTime)).
  fold window. fold imageTime.
  pose proof (sortBySeconds_perm imageTime window) as Hperm.
  pose proof (sortBySeconds_sorted imageTime window) as Hsorted.
  destruct (sortBySeconds imageTime window) as [|chosen rest] eqn:Hsort.
  { apply Permutation_nil in Hperm. congruence. }
  assert (Hsub : forall x, In x (chosen :: rest) -> In x (table run)).
  { intros x Hx. eapply Permutation_in in Hx; [|exact Hperm].
    now apply imagesForTimeRange_rows in Hx. }
  assert (Hs : NoDup (map Image.id (chosen :: rest))).
  { eapply Permutation_NoDup; [apply Permutation_map; symmetry; exact Hperm|].
    now apply imagesForTimeRange_NoDup. }
  assert (Hc : In chosen (table run)) by (apply Hsub; now left).
  exists chosen. split; [eapply Permutation_in; [exact Hperm | now left]|].
  split.
  { intros y Hy. eapply Permutation_in in Hy; [|symmetry; exact Hperm].
    inversion Hsorted as [|? ? _ Hall]; subst.
    destruct Hy as [<- | Hy]; [apply Qle_refl|].
    rewrite Forall_forall in Hall. now apply Hall. }
  rewrite (tagFirst_table "Sunrise" chosen rest run Hnd Hs Hsub).
  apply Forall2_map_in. intros x Hx.
  assert (Hin : existsb (fun s => Image.id s =? Image.id x) (chosen :: rest) = true
                <-> In x window).
  { rewrite (existsb_id_In (chosen :: rest) (table run) x Hnd Hsub Hx).
    split; intros H; eapply Permutation_in; try exact H;
      [exact Hperm | symmetry; exact Hperm]. }
  destruct (existsb (fun s => Image.id s =? Image.id x) (chosen :: rest)).
  - assert (Hw : In x window) by now apply Hin.
    destruct (Z.eqb_spec (Image.id x) (Image.id chosen)) as [Eq|Ne].
    + destruct (hasTag "Sunrise" x) eqn:Htag.
      * split; [apply sameButTag_refl|]. split; [now rewrite Htag | tauto].
      * split; [apply sameButTag_withTag|].
        split; [now rewrite hasTag_withTag | tauto].
    + destruct (hasTag "Sunrise" x) eqn:Htag.
      * split; [apply sameButTag_withoutTag|].
        split; [rewrite hasTag_withoutTag; intuition congruence | tauto].
      * split; [apply sameButTag_refl|].
        split; [rewrite Htag; intuition congruence | tauto].
  - split; [apply sameButTag_refl|]. split; [|reflexivity].
    intros Hw. apply Hin in Hw. discriminate.
Qed.

(** A day of the policy changes nothing of the table but tags Sunrise. *)
Lemma sunriseDay_sameButTag (webcam : WebcamDto) (run : RetentionRun)
    (day : Instant) :
  NoDup (map Image.id (table run)) ->
  Forall2 (sameButTag "Sunrise") (table run) (table (sunriseDay webcam run day)).
Proof.
  intros Hnd.
  assert (Hrefl : Forall2 (sameButTag "Sunrise") (table run) (table run)).
  { rewrite <- (map_id (table run)) at 2. apply Forall2_map_in.
    intros x _. apply sameButTag_refl. }
  unfold sunriseDay.
  destruct (calculateWebcamSolarTimes _ _) as [t|]; [|exact Hrefl].
  destruct (Solar.sunrise t) as [rise|]; [|exact Hrefl].
  destruct (Solar.firstLight t) as [first|]; [|exact Hrefl].
  cbv zeta.
  set (imageTime := ((rise + first) / 2 / 1000)%Q).
  set (window := imagesForTimeRange (table run) webcam _ _).
  pose proof (sortBySeconds_perm imageTime window) as Hperm.
  destruct (sortBySeconds imageTime window) as [|chosen rest]; [exact Hrefl|].
  assert (Hsub : forall x, In x (chosen :: rest) -> In x (table run)).
  { intros x Hx. eapply Permutation_in in Hx; [|exact Hperm].
    now apply imagesForTimeRange_rows in Hx. }
  assert (Hs : NoDup (map Image.id (chosen :: rest))).
  { eapply Permutation_NoDup; [apply Permutation_map; symmetry; exact Hperm|].
    now apply imagesForTimeRange_NoDup. }
  rewrite (tagFirst_table "Sunrise" chosen rest run Hnd Hs Hsub).
  apply Forall2_map_in. intros x _.
  destruct (existsb _ _); [|apply sameButTag_refl].
  destruct (_ =? _), (hasTag "Sunrise" x);
    auto using sameButTag_refl, sameButTag_withTag, sameButTag_withoutTag.
Qed.

(** X18.  The sunrise policy, run on a table with unique ids over any
    webcams and any range, on any host: when it returns, it has kept every
    image in place with its id, its webcam, its timestamp and its object
    name, and has kept or dropped no tag of an image other than Sunrise.  On
    a host on UTC or west of it by less than a day it returns. *)
Theorem sunrise_policy_changes_only_its_tag (fuel : nat)
    (webcams : list WebcamDto) (images : list Image) (startTime endTime : Z) :
  NoDup (map Image.id images) ->
  (forall (host : Host) (run : RetentionRun),
     @SunriseRetentionPolicy E host fuel webcams images startTime endTime
     = Some run ->
     Forall2 (sameButTag "Sunrise") images (table run)) /\
  (forall timezoneOffset,
     0 <= timezoneOffset < dayMillis ->
     (daysFuel (startTime * 1000)%Z (endTime * 1000)%Z <= fuel)%nat ->
     exists run,
       @SunriseRetentionPolicy E (hostAt timezoneOffset) fuel webcams images
         startTime endTime = Some run).
Proof.
  intros Hnd.
  set (run0 := {| table := images; selections := [] |}).
  assert (Hinv : NoDup (map Image.id (table run0)) /\
                 Forall2 (sameButTag "Sunrise") images (table run0)).
  { split; [exact Hnd|]. cbn [table run0].
    rewrite <- (map_id images) at 2. apply Forall2_map_in.
    intros x _. apply sameButTag_refl. }
  assert (Hdays : forall webcam days run,
            NoDup (map Image.id (table run)) /\
            Forall2 (sameButTag "Sunrise") images (table run) ->
            NoDup (map Image.id (table (fold_left (sunriseDay webcam) days run))) /\
            Forall2 (sameButTag "Sunrise") images
              (table (fold_left (sunriseDay webcam) days run))).
  { intros webcam days. induction days as [|d days IH]; intros run [Hn Hr];
      [now split|].
    simpl. apply IH.
    pose proof (sunriseDay_sameButTag webcam run d Hn) as Hstep. split.
    - now rewrite (sameButTag_ids _ _ _ Hstep).
    - now apply (Forall2_sameButTag_trans _ _ (table run)). }
  split.
  - intros host run. unfold SunriseRetentionPolicy. fold run0.
    destruct (daysLoop fuel (startTime * 1000) (endTime * 1000)) as [days|].
    + revert Hinv. generalize run0.
      induction (getAllWebcams webcams) as [|w l IH]; intros r0 Hinv; simpl.
      * intros [= <-]. apply Hinv.
      * apply IH. now apply Hdays.
    + destruct (getAllWebcams webcams) as [|w l]; simpl.
      * intros [= <-]. apply Hinv.
      * rewrite fold_left_None; [discriminate | reflexivity].
  - intros timezoneOffset Htz Hf. unfold SunriseRetentionPolicy.
    rewrite (daysLoop_west timezoneOffset _ _ fuel Htz Hf). fold run0.
    generalize run0.
    induction (getAllWebcams webcams) as [|w l IH]; intros r0; simpl;
      [now exists r0 | apply IH].
Qed.

End SunriseFacts.

Lemma sunrise_day_tags_one_image_witness :
  let images :=
    [Sample.imageAt 1 1758716000;
     withTag "Sunrise" (Sample.imageAt 2 1758716200);
     Sample.imageAt 3 1758716450;
     Sample.imageAt 4 1758717000] in
  let run := {| table := images; selections := [] |} in
  exists chosen,
    In chosen images /\
    Forall2
      (fun x x' =>
         sameButTag "Sunrise" x x' /\
         (In x (imagesForTimeRange images Sample.denverCam 1758716100 1758717300) ->
            (hasTag "Sunrise" x' = true <-> Image.id x = Image.id chosen)) /\
         (~ In x (imagesForTimeRange images Sample.denverCam 1758716100 1758717300) ->
            x' = x))
      images
      (table (@sunriseDay SampleEnv.env Sample.denverCam run 1758693600000)).
Proof.
  intros images run.
  destruct (@sunrise_day_tags_one_image SampleEnv.env Sample.denverCam run
              1758693600000 SampleEnv.denverTimes
              (inject_Z 1758718140000) (inject_Z 1758714660000))
    as (chosen & Hin & _ & HF).
  - repeat constructor; simpl; intuition discriminate.
  - reflexivity.
  - reflexivity.
  - reflexivity.
  - vm_compute. discriminate.
  - exists chosen. split; [|exact HF].
    now apply imagesForTimeRange_rows in Hin.
Defined.

Lemma sunrise_policy_changes_only_its_tag_witness :
  let images :=
    [Sample.imageAt 1 1758716000;
     withTag "Sunrise" (Sample.imageAt 2 1758716200);
     Sample.imageAt 3 1758716450;
     Sample.imageAt 4 1758717000] in
  exists run,
    @SunriseRetentionPolicy SampleEnv.env utcHost 3 [Sample.denverCam] images
      1758693600 1758779999 = Some run /\
    Forall2 (sameButTag "Sunrise") images (table run) /\
    map (hasTag "Sunrise") (table run) = [false; false; true; false].
Proof.
  intros images.
  destruct (@sunrise_policy_changes_only_its_tag SampleEnv.env 3
              [Sample.denverCam] images 1758693600 1758779999)
    as (Hsame & Hreturns).
  { repeat constructor; simpl; intuition discriminate. }
  destruct (Hreturns 0) as (run & Hrun);
    [vm_compute; split; congruence | vm_compute; lia |].
  exists run. split; [exact Hrun|]. split; [exact (Hsame _ _ Hrun)|].
  assert (Hc : option_map (fun r => map (hasTag "Sunrise") (table r))
                 (@SunriseRetentionPolicy SampleEnv.env utcHost 3
                    [Sample.denverCam] images 1758693600 1758779999)
               = Some [false; false; true; false])
    by (vm_compute; reflexivity).
  unfold utcHost in Hc. rewrite Hrun in Hc. now injection Hc.
Defined.

(* ------------------------------------------------------------------ *)
(** ** The range of one local day *)

(** X19.  [applyRetentionPolicies] runs the sunrise policy over a range of
    one day less a second ([end = start + 24 * 60 * 60 - 1]).  On a host on
    UTC the policy visits for such a range the start alone when the start is
    a UTC midnight, and otherwise two instants, the start and the UTC
    midnight that follows it, so that the body of a day runs twice for each
    webcam.  On a host east of Greenwich, by a second or more and a day at
    most, the loop over the days of such a range never leaves. *)
Theorem sunrise_policy_days_of_one_day (startTime : Z) :
  let startDay := startTime * 1000 in
  let endDay := (startTime + 24 * 60 * 60 - 1) * 1000 in
  (forall fuel,
     (3 <= fuel)%nat ->
     @daysLoop utcHost fuel startDay endDay
     = Some (if startTime mod 86400 =? 0
             then [startTime * 1000]
             else [startTime * 1000; (startTime / 86400 + 1) * 86400000])) /\
  (forall timezoneOffset fuel,
     - dayMillis <= timezoneOffset <= -1000 ->
     @daysLoop (hostAt timezoneOffset) fuel startDay endDay = None).
Proof.
  intros startDay endDay.
  assert (HD : 0 < dayMillis) by reflexivity.
  pose proof (Z.div_mod startTime 86400 ltac:(lia)) as Hs.
  pose proof (Z.mod_pos_bound startTime 86400 ltac:(lia)) as Hm.
  assert (Hdiv : forall z, z * 1000 / dayMillis = z / 86400).
  { intros z. change dayMillis with (86400 * 1000).
    apply Z.div_mul_cancel_r; lia. }
  split.
  - intros fuel Hf. destruct fuel as [|[|[|fuel]]]; try lia.
    unfold startDay, endDay. cbn [daysLoop].
    set (e := startTime + 24 * 60 * 60 - 1) in *.
    assert (H1 : (startTime * 1000 <=? e * 1000) = true)
      by (apply Z.leb_le; unfold e; lia).
    rewrite H1. unfold nextMidnight. cbn [localMidnight utcHost hostAt].
    rewrite Hdiv, Z.add_0_r. change dayMillis with 86400000.
    destruct (Z.eqb_spec (startTime mod 86400) 0) as [E0|Ne].
    + assert (H2 : ((startTime / 86400 + 1) * 86400000 <=? e * 1000) = false)
        by (apply Z.leb_gt; unfold e; lia).
      now rewrite H2.
    + assert (H2 : ((startTime / 86400 + 1) * 86400000 <=? e * 1000) = true)
        by (apply Z.leb_le; unfold e; lia).
      rewrite H2.
      replace ((startTime / 86400 + 1) * 86400000)
        with ((startTime / 86400 + 1) * dayMillis) by reflexivity.
      rewrite Z.div_mul by lia. change dayMillis with 86400000.
      rewrite Z.add_0_r.
      assert (H3 : ((startTime / 86400 + 1 + 1) * 86400000 <=? e * 1000) = false)
        by (apply Z.leb_gt; unfold e; lia).
      now rewrite H3.
  - intros timezoneOffset fuel Htz. apply daysLoop_east.
    + change dayMillis with 86400000 in *. lia.
    + unfold startDay, endDay. lia.
    + unfold startDay, endDay. rewrite Hdiv. change dayMillis with 86400000 in *.
      lia.
Qed.

(** A day that starts at 06:00 UTC. *)
Lemma sunrise_policy_days_of_one_day_witness :
  @daysLoop utcHost 3 (1758693600 * 1000) ((1758693600 + 24 * 60 * 60 - 1) * 1000)
  = Some [1758693600000; 1758758400000] /\
  forall fuel,
    @daysLoop (hostAt (-3600000)) fuel (1758693600 * 1000)
      ((1758693600 + 24 * 60 * 60 - 1) * 1000) = None.
Proof.
  destruct (sunrise_policy_days_of_one_day 1758693600) as (Hutc & Heast).
  split.
  - rewrite (Hutc 3%nat ltac:(lia)). vm_compute. reflexivity.
  - intros fuel. apply Heast. vm_compute. split; congruence.
Defined.

(* ------------------------------------------------------------------ *)
(** ** The images of a job *)

Lemma desample_source_keys (sourceImages : list string) (totalImages : Z) (k : string) :
  In k (desampleImageKeys sourceImages totalImages) -> In k sourceImages.
Proof.
  destruct (desample_shape sourceImages totalImages)
    as [[Hn E] | [(Hn & Hlen & E) | [(Hn & Hlen & Hcnt & E)
                                    | (Hn & Hlen & sel & E & Hin & Hl)]]];
    rewrite E.
  - intros [].
  - trivial.
  - intros Hk. unfold sortedKeys in Hk. apply in_map_iff in Hk as (s & <- & Hs).
    now apply sorted_parse_source in Hs.
  - intros Hk. apply in_map_iff in Hk as (s & <- & Hs).
    apply Hin in Hs. now apply sorted_parse_source in Hs.
Qed.

(** X20.  The images of a job are images of its window: with the image
    query of the repository, after a pass of the advancement every key in
    the image list of an entry that was due (its webcam exists, it has a
    window) is the object name of an image of the webcam of the entry with
    a timestamp from the start to the end of its window. *)
Theorem job_images_are_of_its_window
    (webcams : list WebcamDto) (images : list Image)
    (clock now : Instant) (queue : Queue)
    (r : GifCreationQueue) (w : WebcamDto) :
  NoDup (map Row.id queue) ->
  In r queue -> isWaiting now r = true ->
  getWebcamById webcams (Row.webcamId r) = Some w ->
  Row.startTime r <> 0 -> Row.endTime r <> 0 ->
  exists r',
    In r' (prepareAnimationsForPendingQueue webcams
             (fun w s e => Returned (imagesForTimeRange images w s e))
             clock queue now) /\
    Row.id r' = Row.id r /\
    forall key, In key (Row.imageList r') ->
      exists image,
        In image images /\ Image.objectName image = key /\
        Image.webcamId image = Webcam.id w /\
        Row.startTime r <= Image.timeStamp image <= Row.endTime r.
Proof.
  intros Hnd Hin Hw Hcam Hs He.
  set (query := fun w s e => Returned (imagesForTimeRange images w s e)).
  exists (processedAlone webcams query clock r). split.
  { rewrite prepare_rows by assumption. apply in_map_iff. exists r. now rewrite Hw. }
  rewrite (alone_images webcams query clock r w
             (imagesForTimeRange images w (Row.startTime r) (Row.endTime r))
             Hcam Hs He eq_refl).
  assert (Hkeys : forall key,
            In key (map Image.objectName
                      (imagesForTimeRange images w (Row.startTime r) (Row.endTime r))) ->
            exists image,
              In image images /\ Image.objectName image = key /\
              Image.webcamId image = Webcam.id w /\
              Row.startTime r <= Image.timeStamp image <= Row.endTime r).
  { intros key Hk. apply in_map_iff in Hk as (image & <- & Hi).
    unfold imagesForTimeRange in Hi.
    eapply Permutation_in in Hi; [|apply orderBy_perm].
    apply filter_In in Hi as [Hi Hc].
    apply andb_true_iff in Hc as [Hc H3]. apply andb_true_iff in Hc as [H1 H2].
    exists image. repeat split; trivial; lia. }
  destruct (hasMinimumImages _ _); (split; [reflexivity|]); cbn [setImages Row.imageList].
  - intros key Hk. apply Hkeys. now apply desample_source_keys in Hk.
  - intros key [].
Qed.

Lemma job_images_are_of_its_window_witness :
  exists r',
    In r' (prepareAnimationsForPendingQueue [Sample.denverCam] Sample.imageQuery
             Sample.clock Sample.queue Sample.now) /\
    Row.id r' = 1 /\
    forall key, In key (Row.imageList r') ->
      exists image,
        In image Sample.images /\ Image.objectName image = key /\
        Image.webcamId image = 1 /\
        1758722400 <= Image.timeStamp image <= 1758726000.
Proof.
  apply (job_images_are_of_its_window [Sample.denverCam] Sample.images
           Sample.clock Sample.now Sample.queue Sample.hourlyJob Sample.denverCam).
  - repeat constructor; simpl; intuition discriminate.
  - simpl. auto.
  - reflexivity.
  - reflexivity.
  - discriminate.
  - discriminate.
Defined.

(* ------------------------------------------------------------------ *)
(** ** interpolateImages *)

Lemma interpolateLoop_no_progress (sorted : list Image) (firstImage lastImage : Image)
    (interval endTime : Q) (fuel : nat) :
  (interval == 0)%Q ->
  forall targetTimestamp,
    (targetTimestamp <= endTime)%Q ->
    interpolateLoop fuel sorted firstImage lastImage interval endTime targetTimestamp
    = None.
Proof.
  intros Hi. induction fuel as [|fuel IH]; intros t Ht; [reflexivity|].
  cbn [interpolateLoop].
  assert (Hc : Qle_bool t endTime = true) by now apply Qle_bool_iff.
  assert (Ht' : (t + interval <= endTime)%Q) by (rewrite Hi, Qplus_0_r; exact Ht).
  rewrite Hc, (IH _ Ht), (IH _ Ht').
  destruct (Qltb _ _); [reflexivity|]. destruct (Qltb _ _); [reflexivity|].
  now destruct (bracketing sorted t).
Qed.

Lemma bracketing_none (sorted : list Image) (targetTimestamp : Z) :
  (forall x, In x sorted -> Image.timeStamp x <= targetTimestamp) ->
  bracketing sorted (inject_Z targetTimestamp) = None.
Proof.
  induction sorted as [|a l IH]; intros Hall; [reflexivity|].
  destruct l as [|b l]; [reflexivity|].
  cbn [bracketing].
  assert (Hb : Qltb (inject_Z targetTimestamp) (inject_Z (Image.timeStamp b)) = false).
  { apply Qltb_ge. rewrite <- Zle_Qle. apply Hall. right. now left. }
  rewrite Hb, andb_false_r. apply IH. intros x Hx. apply Hall. now right.
Qed.

Lemma interpolateLoop_stuck (sorted : list Image) (firstImage lastImage : Image)
    (interval : Q) (endTime target : Z) (fuel : nat) :
  target <= endTime ->
  Image.timeStamp firstImage <= target -> target <= Image.timeStamp lastImage ->
  (forall x, In x sorted -> Image.timeStamp x <= target) ->
  interpolateLoop fuel sorted firstImage lastImage interval
    (inject_Z endTime) (inject_Z target) = None.
Proof.
  intros Hte Hf Hl Hall. induction fuel as [|fuel IH]; [reflexivity|].
  cbn [interpolateLoop].
  assert (H1 : Qle_bool (inject_Z target) (inject_Z endTime) = true)
    by (apply Qle_bool_iff; now rewrite <- Zle_Qle).
  assert (H2 : Qltb (inject_Z target) (inject_Z (Image.timeStamp firstImage)) = false)
    by (apply Qltb_ge; now rewrite <- Zle_Qle).
  assert (H3 : Qltb (inject_Z (Image.timeStamp lastImage)) (inject_Z target) = false)
    by (apply Qltb_ge; now rewrite <- Zle_Qle).
  rewrite H1, H2, H3, (bracketing_none sorted target Hall). exact IH.
Qed.

Lemma sorted_last_max {A} (f : A -> Z) (l : list A) (x d : A) :
  StronglySorted (fun a b => f a <= f b) l -> In x l -> f x <= f (last l d).
Proof.
  induction 1 as [|a l Hs IH Ha]; intros Hx; [destruct Hx|].
  destruct l as [|b l].
  - destruct Hx as [<- | []]. simpl. lia.
  - change (last (a :: b :: l) d) with (last (b :: l) d).
    destruct Hx as [<- | Hx]; [|now apply IH].
    rewrite Forall_forall in Ha. apply Ha. apply last_In. discriminate.
Qed.

(** X21.  Two ways for [interpolateImages] not to return, given images and
    a positive number of them wanted.  When the range is a single instant
    the interval is 0 and the target never passes the end.  When the range
    starts at the timestamp of the newest image, the first target is
    neither before the first image nor after the last, no image has a
    successor after the target, and the loop goes on with the same target.
    In both cases no number of turns of the loop suffices. *)
Theorem interpolateImages_does_not_return (sourceImages : list Image)
    (totalImages startTime endTime : Z) :
  sourceImages <> [] -> 0 < totalImages -> startTime <= endTime ->
  startTime = endTime
  \/ ((forall x, In x sourceImages -> Image.timeStamp x <= startTime)
      /\ exists x, In x sourceImages /\ Image.timeStamp x = startTime) ->
  forall fuel,
    interpolateImages fuel sourceImages totalImages startTime endTime = None.
Proof.
  intros Hne Hn Hse Hcase fuel. unfold interpolateImages.
  assert (H1 : (List.length sourceImages =? 0)%nat = false)
    by (destruct sourceImages; [congruence | reflexivity]).
  assert (H2 : (totalImages <=? 0) = false) by (apply Z.leb_gt; lia).
  rewrite H1, H2. cbn [orb].
  pose proof (orderBy_perm Image.timeStamp sourceImages) as Hperm.
  pose proof (orderBy_sorted Image.timeStamp sourceImages) as Hsorted.
  destruct (orderBy Image.timeStamp sourceImages) as [|firstImage rest] eqn:Hsort.
  { apply Permutation_nil in Hperm. congruence. }
  destruct Hcase as [-> | [Hall (x & Hx & Ex)]].
  - apply interpolateLoop_no_progress; [|apply Qle_refl].
    rewrite Z.sub_diag. unfold Qdiv. apply Qmult_0_l.
  - apply interpolateLoop_stuck; [exact Hse | | |].
    + apply Hall. eapply Permutation_in; [exact Hperm | now left].
    + rewrite <- Ex.
      apply (sorted_last_max Image.timeStamp (firstImage :: rest) x firstImage Hsorted).
      eapply Permutation_in; [symmetry; exact Hperm | exact Hx].
    + intros y Hy. apply Hall. eapply Permutation_in; [exact Hperm | exact Hy].
Qed.

Lemma interpolateImages_does_not_return_witness :
  (forall fuel,
     interpolateImages fuel Sample.images 5 1758722400 1758722400 = None) /\
  (forall fuel,
     interpolateImages fuel [Sample.imageAt 1 1758722400] 5 1758722400 1758726000
     = None) /\
  exists result,
    interpolateImages 10 Sample.images 5 1758722400 1758725000 = Some result
    /\ List.length result = 6%nat.
Proof.
  split; [|split].
  - apply (interpolateImages_does_not_return Sample.images 5 1758722400 1758722400);
      [discriminate | lia | lia | now left].
  - apply (interpolateImages_does_not_return [Sample.imageAt 1 1758722400] 5
             1758722400 1758726000); [discriminate | lia | lia |].
    right. split.
    + intros x [<- | []]. simpl. lia.
    + exists (Sample.imageAt 1 1758722400). split; [now left | reflexivity].
  - eexists. split; vm_compute; reflexivity.
Defined.

(* ------------------------------------------------------------------ *)
(** ** The tagging of the solar noon and the sunset policy *)

(** The tagging of the two other policies is the tagging of the sunrise
    policy, on the images sorted by their distance in milliseconds: the
    image chosen is not among the others, whether they are taken from all
    the sorted images or from those after the first. *)
Lemma tagClosest_tagFirst (tag : string) (imageTime : Q) (images : list Image)
    (run : RetentionRun) :
  tagClosest tag imageTime images run
  = tagFirst tag (sortByDistance imageTime images) run.
Proof.
  unfold tagClosest, tagFirst, withoutTag, withTag.
  destruct (sortByDistance imageTime images) as [|chosen rest]; [reflexivity|].
  cbv zeta. cbn [filter]. rewrite Z.eqb_refl. reflexivity.
Qed.
